(** * HR mock-interview application: request handlers, answer parser, results page

    A shallow embedding of the route handlers under [src/app/api/hrRound],
    of the interview routes, and of the score aggregation of the results page,
    together with the properties the specification states about them.

    Conventions of the embedding.
    - Texts are [string]s whose characters are read as code units in the
      range 0..255; the whitespace class is ECMAScript's [\s] restricted to
      that range.
    - Numbers are IEEE binary64 values, as in ECMAScript.  The integers the
      handlers store and compare are kept in [Z]; where a conversion or an
      operation of the source rounds (reading a run of digits, printing a
      number, the sums and the percentage of the results page) the rounding
      of binary64 is written out.
    - The relational store is a record of tables; a table is the list of its
      rows in creation order. *)

From Stdlib Require Import ZArith List String Ascii Bool Lia Arith.
From Stdlib Require Import SpecFloat DecimalString.
Import ListNotations.
Local Open Scope string_scope.
Local Open Scope Z_scope.
Set Warnings "-register-all".

(** ** Integers as binary64 numbers *)

Module Binary64.

(** The integer with at most 53 significant bits that is nearest to the
    non-negative integer [n], the even one of two that are equally near:
    what rounding to binary64 makes of [n]. *)
Definition nearest (n : Z) : Z :=
  if n <? 2 ^ 53 then n
  else
    let e := Z.log2 n - 52 in
    let q := n / 2 ^ e in
    let r := n mod 2 ^ e in
    let up := (2 ^ (e - 1) <? r) || ((r =? 2 ^ (e - 1)) && Z.odd q) in
    (if up then q + 1 else q) * 2 ^ e.

(** The number a non-negative integer literal stands for: the nearest
    binary64 value, [None] when that is Infinity. *)
Definition of_nat_literal (n : Z) : option Z :=
  let m := nearest n in
  if 2 ^ 1024 <=? m then None else Some m.

(** The same through the library's model of IEEE 754, for comparison. *)
Definition by_SpecFloat (n : Z) : option Z :=
  match binary_normalize 53 1024 n 0 false with
  | S754_zero _ => Some 0
  | S754_finite s m e =>
      Some (cond_Zopp s (if 0 <=? e then Zpos m * 2 ^ e else Zpos m / 2 ^ (- e)))
  | _ => None
  end.

Definition agree (n : Z) : bool :=
  match of_nat_literal n, by_SpecFloat n with
  | Some a, Some b => a =? b
  | None, None => true
  | _, _ => false
  end.

(** Integers around the powers of two and of ten, with the halfway points
    between neighbouring binary64 values. *)
Definition probes : list Z :=
  map Z.of_nat (seq 0 40)
  ++ map (fun k => 2 ^ 53 - 20 + Z.of_nat k) (seq 0 120)
  ++ flat_map (fun j => let p := 2 ^ (Z.of_nat j) in
                        let h := 2 ^ (Z.of_nat j - 53) in
                        [p - 1; p; p + 1; p + h; p + h + 1; p + h - 1; p + 3 * h;
                         3 * p + 1; 2 * p - 1])
              (map (fun i => 50 + 23 * i)%nat (seq 0 43))
  ++ flat_map (fun d => let p := 10 ^ (Z.of_nat d) in [p - 1; p; p + 1; 7 * p + 3])
              (map (fun i => 9 * i)%nat (seq 0 35)).

End Binary64.

(** ** Text primitives *)

Module Text.

Definition code (c : ascii) : N := N_of_ascii c.

(** ECMAScript [\s] (WhiteSpace and LineTerminator) on code units below 256:
    TAB, LF, VT, FF, CR, SP and NBSP. *)
Definition is_space (c : ascii) : bool :=
  let n := code c in
  ((9 <=? n) && (n <=? 13) || (n =? 32) || (n =? 160))%N.

(** [\d] *)
Definition is_digit (c : ascii) : bool :=
  let n := code c in ((48 <=? n) && (n <=? 57))%N.

(** Case folding used by the [i] flag, on the ASCII letters. *)
Definition lower (c : ascii) : ascii :=
  let n := code c in
  if ((65 <=? n) && (n <=? 90))%N then ascii_of_N (n + 32) else c.

Definition is_empty (s : string) : bool :=
  match s with EmptyString => true | String _ _ => false end.

(** [starts_ci lit s]: [s] begins with [lit] up to letter case; on success
    the remainder of [s] is returned.  [lit] is given in lower case. *)
Fixpoint starts_ci (lit s : string) : option string :=
  match lit, s with
  | EmptyString, _ => Some s
  | String _ _, EmptyString => None
  | String a lit', String c s' =>
      if Ascii.eqb a (lower c) then starts_ci lit' s' else None
  end.

(** Longest prefix of characters in the class [cls]. *)
Fixpoint take_while (cls : ascii -> bool) (s : string) : string :=
  match s with
  | EmptyString => EmptyString
  | String c s' => if cls c then String c (take_while cls s') else EmptyString
  end.

(** [String.prototype.trim] *)
Fixpoint ltrim (s : string) : string :=
  match s with
  | EmptyString => EmptyString
  | String c s' => if is_space c then ltrim s' else s
  end.

Fixpoint rtrim (s : string) : string :=
  match s with
  | EmptyString => EmptyString
  | String c s' =>
      let r := rtrim s' in
      if is_empty r && is_space c then EmptyString else String c r
  end.

Definition trim (s : string) : string := rtrim (ltrim s).

(** [String.prototype.split] with a single-character separator class. *)
Fixpoint split (sep : ascii -> bool) (s : string) : list string :=
  match s with
  | EmptyString => [EmptyString]
  | String c s' =>
      if sep c then EmptyString :: split sep s'
      else match split sep s' with
           | h :: t => String c h :: t
           | [] => [String c EmptyString]
           end
  end.

(** The integer a run of decimal digits writes. *)
Definition digit_value (c : ascii) : Z := Z.of_N (code c) - 48.

Fixpoint parse_digits (acc : Z) (s : string) : Z :=
  match s with
  | EmptyString => acc
  | String c s' => parse_digits (10 * acc + digit_value c) s'
  end.

Definition decimal_value (ds : string) : Z := parse_digits 0 ds.

(** [parseInt(ds, 10)] on a run of decimal digits: the number nearest to
    the integer the digits write; [None] is Infinity. *)
Definition parseInt (ds : string) : option Z :=
  Binary64.of_nat_literal (decimal_value ds).

(** What is left of [s] after its longest prefix in the class [cls]. *)
Fixpoint drop_while (cls : ascii -> bool) (s : string) : string :=
  match s with
  | EmptyString => EmptyString
  | String c s' => if cls c then drop_while cls s' else s
  end.

Definition all_in (cls : ascii -> bool) (s : string) : bool :=
  is_empty (drop_while cls s).

Definition len (s : string) : Z := Z.of_nat (String.length s).

End Text.

(** ** Numbers and strings

    [Number::toString] on the numbers with an integer value, and the sign
    test of [StringToNumber]. *)

Module Numeral.
Import Text.

Definition decimal (z : Z) : string := NilZero.string_of_int (Z.to_int z).

(** The decimal with [k] significant digits that rounds to the binary64
    value [v], the nearer one to [v] if there are two; [None] when [k]
    digits are not enough. *)
Definition with_digits (k v : Z) : option Z :=
  let p := len (decimal v) - k in
  let lo := v / 10 ^ p * 10 ^ p in
  let hi := lo + 10 ^ p in
  let ok x := Binary64.nearest x =? v in
  if ok lo && ok hi then
    Some (if v - lo <? hi - v then lo
          else if hi - v <? v - lo then hi
          else if Z.even (lo / 10 ^ p) then lo else hi)
  else if ok lo then Some lo
  else if ok hi then Some hi
  else None.

(** The decimal with the fewest significant digits that rounds to [v]. *)
Fixpoint shortest (fuel : nat) (k v : Z) : Z :=
  match fuel with
  | O => v
  | S fuel' =>
      match with_digits k v with
      | Some x => x
      | None => shortest fuel' (k + 1) v
      end
  end.

Fixpoint strip_zeros (s : string) : string :=
  match s with
  | EmptyString => EmptyString
  | String c s' =>
      let r := strip_zeros s' in
      if is_empty r && Ascii.eqb c "0" then EmptyString else String c r
  end.

(** [Number::toString] of a binary64 value that is a positive integer:
    its shortest decimal, written out up to 21 digits and in exponent
    notation beyond. *)
Definition positive_to_string (v : Z) : string :=
  if v <? 2 ^ 53 then decimal v
  else
    let x := decimal (shortest 17 1 v) in
    if len x <=? 21 then x
    else
      match strip_zeros x with
      | String d EmptyString => String d ("e+" ++ decimal (len x - 1))
      | String d ds => String d ("." ++ ds ++ "e+" ++ decimal (len x - 1))
      | EmptyString => x
      end.

(** [String(z)] for the number with the integer value [z]. *)
Definition number_to_string (z : Z) : string :=
  let unsigned n :=
    match Binary64.of_nat_literal n with
    | Some v => positive_to_string v
    | None => "Infinity"
    end in
  match z with
  | 0 => "0"
  | Zpos _ => unsigned z
  | Zneg _ => "-" ++ unsigned (- z)
  end.

Definition is_hex (c : ascii) : bool :=
  let n := code (lower c) in
  is_digit c || ((97 <=? n) && (n <=? 102))%N.

Definition is_octal (c : ascii) : bool :=
  let n := code c in ((48 <=? n) && (n <=? 55))%N.

Definition is_binary (c : ascii) : bool :=
  let n := code c in ((48 <=? n) && (n <=? 49))%N.

Definition is_zero (c : ascii) : bool := Ascii.eqb c "0".

(** A literal [0x..], [0o..] or [0b..]: at least one digit of the radix and
    nothing else; it is above zero when a digit is not 0.  [None] when [s]
    is no such literal. *)
Definition radix_literal_gt0 (s : string) : option bool :=
  match s with
  | String "0" (String x ds) =>
      let cls :=
        if Ascii.eqb (lower x) "x" then Some is_hex
        else if Ascii.eqb (lower x) "o" then Some is_octal
        else if Ascii.eqb (lower x) "b" then Some is_binary
        else None in
      match cls with
      | Some cls =>
          if negb (is_empty ds) && all_in cls ds
          then Some (negb (all_in is_zero ds)) else None
      | None => None
      end
  | _ => None
  end.

(** [m * 10 ^ e], for the integer [m] the digits write, does not round to
    zero in binary64: it is above [2 ^ -1075], half of the smallest positive
    number.  (With more than [330 + length digits] decimal places it is
    below it whatever the digits are.) *)
Definition above_zero (digits : string) (e : Z) : bool :=
  let m := decimal_value digits in
  if m =? 0 then false
  else if 0 <=? e then true
  else if len digits + 330 <? - e then false
  else 10 ^ (- e) <? m * 2 ^ 1075.

(** An unsigned decimal literal: [Infinity], or digits with an optional
    fraction and an optional exponent, and whether its number is above
    zero.  [None] when [s] is no such literal. *)
Definition decimal_literal_gt0 (s : string) : option bool :=
  if String.eqb s "Infinity" then Some true
  else
    let int := take_while is_digit s in
    let r1 := drop_while is_digit s in
    let '(frac, r2) :=
      match r1 with
      | String "." r => (take_while is_digit r, drop_while is_digit r)
      | _ => (EmptyString, r1)
      end in
    if is_empty int && is_empty frac then None
    else
      let exponent :=
        match r2 with
        | EmptyString => Some 0
        | String c r =>
            if Ascii.eqb (lower c) "e" then
              let '(neg, ds) :=
                match r with
                | String "+" r' => (false, r')
                | String "-" r' => (true, r')
                | _ => (false, r)
                end in
              if negb (is_empty ds) && all_in is_digit ds
              then Some (if neg then - decimal_value ds else decimal_value ds)
              else None
            else None
        end in
      match exponent with
      | Some e => Some (above_zero (int ++ frac) (e - len frac))
      | None => None
      end.

(** [ToNumber(s) > 0]: false when the string is no numeric literal (NaN),
    and for an empty or blank string (0). *)
Definition string_gt0 (s : string) : bool :=
  let t := trim s in
  match radix_literal_gt0 t with
  | Some b => b
  | None =>
      match t with
      | String "-" _ => false
      | String "+" u =>
          match decimal_literal_gt0 u with Some b => b | None => false end
      | _ => match decimal_literal_gt0 t with Some b => b | None => false end
      end
  end.

End Numeral.

(** ** The extraction patterns of the answer parser

    Every pattern of [parseAnalysisResponse] has the shape
    [/<literal>\s*(<class>+)/i].  [re_exec] is the backtracking matcher for
    that shape: leftmost start, greedy [\s*], greedy capture, and it returns
    the captured group. *)

Module Regex.
Import Text.

Record pattern := { literal : string; capture_class : ascii -> bool }.

(** [\s*(cls+)] anchored at the head of [s].  The star first takes the
    whitespace character; when the rest cannot match, it gives the
    character back and the capture starts here. *)
Fixpoint ws_then_capture (cls : ascii -> bool) (s : string) : option string :=
  match s with
  | EmptyString => None
  | String c s' =>
      let here :=
        if cls c then Some (String c (take_while cls s')) else None in
      if is_space c then
        match ws_then_capture cls s' with
        | Some cap => Some cap
        | None => here
        end
      else here
  end.

Definition match_here (p : pattern) (s : string) : option string :=
  match starts_ci (literal p) s with
  | Some rest => ws_then_capture (capture_class p) rest
  | None => None
  end.

(** [text.match(regex)], reduced to its first capture group. *)
Fixpoint re_exec (p : pattern) (s : string) : option string :=
  match match_here p s with
  | Some cap => Some cap
  | None =>
      match s with
      | EmptyString => None
      | String _ s' => re_exec p s'
      end
  end.

Definition not_char (x : ascii) (c : ascii) : bool := negb (Ascii.eqb c x).

Definition LF : ascii := ascii_of_N 10.

End Regex.

(** ** [parseAnalysisResponse] (hrRound/answer/route.ts) *)

Module Parser.
Import Text Regex.

Definition DEFAULT_MAX_SCORE : Z := 10.

Record Analysis := {
  score : Z;
  evaluationFeedback : string;
  matchedKeyPoints : list string;
  voiceTone : option string;
  confidence : option string
}.

Inductive Key := KScore | KFeedback | KKeyPoints | KVoiceTone | KConfidence.

(** [/Score:\s*(\d+)/i] *)
Definition score_pattern : pattern :=
  {| literal := "score:"; capture_class := is_digit |}.

Definition extractors : list (Key * pattern) :=
  [ (KScore,      score_pattern);
    (KFeedback,   {| literal := "feedback:";   capture_class := not_char "-" |});
    (KKeyPoints,  {| literal := "key points:"; capture_class := not_char LF |});
    (KVoiceTone,  {| literal := "voice tone:"; capture_class := not_char LF |});
    (KConfidence, {| literal := "confidence:"; capture_class := not_char LF |}) ].

Definition is_comma_or_LF (c : ascii) : bool :=
  Ascii.eqb c "," || Ascii.eqb c LF.

(** [Math.min(parsedScore, maxScore)]; Infinity is above every
    [maxScore]. *)
Definition Math_min (parsedScore : option Z) (maxScore : Z) : Z :=
  match parsedScore with
  | Some n => Z.min n maxScore
  | None => maxScore
  end.

(** The assignment [result[key] = ...] of the [forEach] body. *)
Definition assign (maxScore : Z) (key : Key) (m1 : string) (r : Analysis)
  : Analysis :=
  match key with
  | KKeyPoints =>
      {| score := score r;
         evaluationFeedback := evaluationFeedback r;
         matchedKeyPoints :=
           filter (fun p => negb (is_empty p)) (map trim (split is_comma_or_LF m1));
         voiceTone := voiceTone r;
         confidence := confidence r |}
  | KScore =>
      let parsedScore := parseInt m1 in
      {| score := Math_min parsedScore maxScore;
         evaluationFeedback := evaluationFeedback r;
         matchedKeyPoints := matchedKeyPoints r;
         voiceTone := voiceTone r;
         confidence := confidence r |}
  | KFeedback =>
      {| score := score r;
         evaluationFeedback := trim m1;
         matchedKeyPoints := matchedKeyPoints r;
         voiceTone := voiceTone r;
         confidence := confidence r |}
  | KVoiceTone =>
      {| score := score r;
         evaluationFeedback := evaluationFeedback r;
         matchedKeyPoints := matchedKeyPoints r;
         voiceTone := Some (trim m1);
         confidence := confidence r |}
  | KConfidence =>
      {| score := score r;
         evaluationFeedback := evaluationFeedback r;
         matchedKeyPoints := matchedKeyPoints r;
         voiceTone := voiceTone r;
         confidence := Some (trim m1) |}
  end.

(** One iteration of [extractors.forEach]: [match && match[1]]. *)
Definition extract_step (analysisText : string) (maxScore : Z)
    (r : Analysis) (e : Key * pattern) : Analysis :=
  match re_exec (snd e) analysisText with
  | Some m1 => if is_empty m1 then r else assign maxScore (fst e) m1 r
  | None => r
  end.

Definition parseAnalysisResponse (analysisText : option string) (maxScore : Z)
  : Analysis :=
  match analysisText with
  | None =>
      {| score := maxScore / 2;
         evaluationFeedback := "Unable to generate detailed analysis.";
         matchedKeyPoints := [];
         voiceTone := None;
         confidence := None |}
  | Some text =>
      if is_empty text then
        {| score := maxScore / 2;
           evaluationFeedback := "Unable to generate detailed analysis.";
           matchedKeyPoints := [];
           voiceTone := None;
           confidence := None |}
      else
        let result :=
          {| score := maxScore / 2;
             evaluationFeedback := "No specific feedback provided.";
             matchedKeyPoints := [];
             voiceTone := None;
             confidence := None |} in
        fold_left (extract_step text maxScore) extractors result
  end.

(** The pattern of a key is absent from a text when no extractor of that
    key matches anywhere in it. *)
Definition absent (k : Key) (text : string) : Prop :=
  forall p, In (k, p) extractors -> re_exec p text = None.

(** What a step of the loop leaves alone: the field of the key [k]. *)
Definition same_field (k : Key) (r r' : Analysis) : Prop :=
  match k with
  | KScore => score r' = score r
  | KFeedback => evaluationFeedback r' = evaluationFeedback r
  | KKeyPoints => matchedKeyPoints r' = matchedKeyPoints r
  | KVoiceTone => voiceTone r' = voiceTone r
  | KConfidence => confidence r' = confidence r
  end.

End Parser.

(** ** The results page ([results/page.jsx]) *)

Module Results.

(** IEEE binary64, as ECMAScript numbers are. *)
Definition prec : Z := 53.
Definition emax : Z := 1024.

(** The scores the page receives are integers; it adds, divides and
    multiplies them as binary64 numbers. *)
Definition of_int (z : Z) : spec_float := binary_normalize prec emax z 0 false.
Definition fadd : spec_float -> spec_float -> spec_float := SFadd prec emax.
Definition fdiv : spec_float -> spec_float -> spec_float := SFdiv prec emax.
Definition fmul : spec_float -> spec_float -> spec_float := SFmul prec emax.

(** [x > 0]; false when [x] is not a number. *)
Definition fgt0 (x : spec_float) : bool := SFltb (of_int 0) x.

(** The value of [Math.round]: an integer, unless the argument is not
    finite. *)
Inductive Rounded := RInt (z : Z) | RPosInf | RNegInf | RNaN.

(** [Math.round]: the nearest integer, ties towards +infinity. *)
Definition Math_round (x : spec_float) : Rounded :=
  match x with
  | S754_zero _ => RInt 0
  | S754_infinity s => if s then RNegInf else RPosInf
  | S754_nan => RNaN
  | S754_finite s m e =>
      let v := cond_Zopp s (Zpos m) in
      if 0 <=? e then RInt (v * 2 ^ e)
      else RInt ((2 * v + 2 ^ (- e)) / 2 ^ (- e + 1))
  end.


Record RAnswer := { a_score : option Z }.

Record RQuestion := {
  userAnswer : option RAnswer;
  maxScore : option Z
}.

Record Results := {
  questions : option (list RQuestion);
  passScore : option Z
}.

(** [x || d] on an optional integer: absent and zero both give [d]. *)
Definition or_int (x : option Z) (d : Z) : Z :=
  match x with
  | Some z => if z =? 0 then d else z
  | None => d
  end.

(** [question.userAnswer?.score] *)
Definition answer_score (question : RQuestion) : option Z :=
  match userAnswer question with Some a => a_score a | None => None end.

Definition getTotalScore (results : Results) : spec_float :=
  match questions results with
  | None => of_int 0
  | Some qs =>
      fold_left (fun sum question =>
                   fadd sum (of_int (or_int (answer_score question) 0)))
                qs (of_int 0)
  end.

Definition getMaxPossibleScore (results : Results) : spec_float :=
  match questions results with
  | None => of_int 0
  | Some qs =>
      fold_left (fun sum question => fadd sum (of_int (or_int (maxScore question) 0)))
                qs (of_int 0)
  end.

(** [maxScore > 0 ? Math.round((totalScore / maxScore) * 100) : 0] *)
Definition percentage_of (totalScore maxScore : spec_float) : Rounded :=
  if fgt0 maxScore
  then Math_round (fmul (fdiv totalScore maxScore) (of_int 100))
  else RInt 0.

Definition calculatePercentage (results : Results) : Rounded :=
  percentage_of (getTotalScore results) (getMaxPossibleScore results).



(** The percentage as the specification words it: the exact quotient
    rounded to the nearest integer, ties upwards, and 0 when the maximum
    total is 0. *)
Definition spec_percentage (totalScore maxScore : Z) : Z :=
  if maxScore =? 0 then 0
  else (200 * totalScore + maxScore) / (2 * maxScore).


(** The sum over the questions, as the specification words it. *)
Definition sum_over (f : RQuestion -> Z) (qs : list RQuestion) : Z :=
  fold_right (fun question acc => f question + acc) 0 qs.



(** A question with an answer of the given score. *)
Definition answered (score max : Z) : RQuestion :=
  {| userAnswer := Some {| a_score := Some score |}; maxScore := Some max |}.

(** Four ten-point questions with 23 points in total. *)
Definition results_23_of_40 : Results :=
  {| questions := Some [answered 8 10; answered 5 10; answered 5 10; answered 5 10];
     passScore := None |}.


(** [100 * totalScore / maxScore] lies exactly halfway between two
    integers. *)
Definition halfway (totalScore maxScore : Z) : bool :=
  (200 * totalScore + maxScore) mod (2 * maxScore) =? 0.

(** The computed percentage is the exact one, or one less at a halfway
    point. *)
Definition rounds_well (totalScore maxScore : Z) : bool :=
  match percentage_of (of_int totalScore) (of_int maxScore) with
  | RInt p =>
      let e := spec_percentage totalScore maxScore in
      (p =? e) || (halfway totalScore maxScore && (p =? e - 1))
  | _ => false
  end.

Definition rounds_well_upto (bound : nat) : bool :=
  forallb (fun m => forallb (fun t => rounds_well (Z.of_nat t) (Z.of_nat m))
                            (seq 0 (S m)))
          (seq 0 (S bound)).

(** The same binary64 value, written the same way. *)
Definition same_float (x y : spec_float) : bool :=
  match x, y with
  | S754_zero a, S754_zero b => Bool.eqb a b
  | S754_infinity a, S754_infinity b => Bool.eqb a b
  | S754_nan, S754_nan => true
  | S754_finite a m e, S754_finite b n f => Bool.eqb a b && Pos.eqb m n && (e =? f)
  | _, _ => false
  end.

(** Integers from 0 whose sum is at most [bound] are added without
    rounding, and the sign test is the one of the integer. *)
Definition adds_exactly_upto (bound : nat) : bool :=
  forallb (fun a =>
             forallb (fun b => same_float (fadd (of_int (Z.of_nat a)) (of_int (Z.of_nat b)))
                                          (of_int (Z.of_nat (a + b))))
                     (seq 0 (S bound - a))
             && Bool.eqb (fgt0 (of_int (Z.of_nat a))) (0 <? Z.of_nat a))
          (seq 0 (S bound)).

End Results.

(** ** JavaScript values

    Request bodies, URL parameters, the JSON returned by the generative model
    and response bodies are JSON values; [JPromise] is the object an
    asynchronous call returns before it is awaited. *)

Module Js.

Inductive JsVal :=
| JUndefined
| JNull
| JBool (b : bool)
| JNum (z : Z)
| JStr (s : string)
| JArr (items : list JsVal)
| JObj (fields : list (string * JsVal))
| JPromise (settled : JsVal).

(** ToBoolean *)
Definition truthy (v : JsVal) : bool :=
  match v with
  | JUndefined | JNull => false
  | JBool b => b
  | JNum z => negb (z =? 0)
  | JStr s => negb (Text.is_empty s)
  | JArr _ | JObj _ | JPromise _ => true
  end.

Definition nullish (v : JsVal) : bool :=
  match v with JUndefined | JNull => true | _ => false end.

Fixpoint lookup (k : string) (fields : list (string * JsVal)) : JsVal :=
  match fields with
  | [] => JUndefined
  | (k', v) :: rest => if String.eqb k k' then v else lookup k rest
  end.

(** Property read [v.k]; [None] is the TypeError raised on [undefined] and
    [null].  A promise has no own data properties. *)
Definition get (v : JsVal) (k : string) : option JsVal :=
  match v with
  | JUndefined | JNull => None
  | JObj fields => Some (lookup k fields)
  | JArr items =>
      Some (if String.eqb k "length" then JNum (Z.of_nat (List.length items))
            else JUndefined)
  | JStr s =>
      Some (if String.eqb k "length" then JNum (Z.of_nat (String.length s))
            else JUndefined)
  | JBool _ | JNum _ | JPromise _ => Some JUndefined
  end.

(** [await v] *)
Definition await (v : JsVal) : JsVal :=
  match v with JPromise settled => settled | _ => v end.

(** [a || b] and [a ?? b] *)
Definition or_else (a b : JsVal) : JsVal := if truthy a then a else b.
Definition coalesce (a b : JsVal) : JsVal := if nullish a then b else a.

(** Strict equality on the primitives the handlers compare. *)
Definition strict_eq (a b : JsVal) : bool :=
  match a, b with
  | JUndefined, JUndefined | JNull, JNull => true
  | JBool x, JBool y => Bool.eqb x y
  | JNum x, JNum y => x =? y
  | JStr x, JStr y => String.eqb x y
  | _, _ => false
  end.

(** The values a [for ... of] loop visits; [None] when [v] is not iterable. *)
Fixpoint chars (s : string) : list JsVal :=
  match s with
  | EmptyString => []
  | String c s' => JStr (String c EmptyString) :: chars s'
  end.

Definition iterate (v : JsVal) : option (list JsVal) :=
  match v with
  | JArr items => Some items
  | JStr s => Some (chars s)
  | _ => None
  end.

Definition opt_str (o : option string) : JsVal :=
  match o with Some s => JStr s | None => JNull end.

Definition opt_num (o : option Z) : JsVal :=
  match o with Some z => JNum z | None => JNull end.

Definition strs (l : list string) : JsVal := JArr (map JStr l).

(** [String(v)] *)
Fixpoint to_String (v : JsVal) : string :=
  match v with
  | JUndefined => "undefined"
  | JNull => "null"
  | JBool b => if b then "true" else "false"
  | JNum z => Numeral.number_to_string z
  | JStr s => s
  | JArr items =>
      (fix join (l : list JsVal) : string :=
         match l with
         | [] => ""
         | x :: rest =>
             let e := if nullish x then "" else to_String x in
             match rest with
             | [] => e
             | _ :: _ => e ++ "," ++ join rest
             end
         end) items
  | JObj _ => "[object Object]"
  | JPromise _ => "[object Promise]"
  end.

(** [v > 0]: the operand is converted to a number, an array through the
    string of its elements; [undefined] and the objects give NaN, which is
    not above zero. *)
Definition gt0 (v : JsVal) : bool :=
  match v with
  | JUndefined | JNull => false
  | JBool b => b
  | JNum z => 0 <? z
  | JStr s => Numeral.string_gt0 s
  | JArr _ => Numeral.string_gt0 (to_String v)
  | JObj _ | JPromise _ => false
  end.

(** The [{ error: msg }] body of a failure response. *)
Definition error_body (msg : string) : JsVal := JObj [("error", JStr msg)].

End Js.

(** ** The relational store

    The schema is not part of the sources; the tables and columns are the
    ones the handlers read and write, and a column has the type of the
    values the handlers write to it.  What the handlers rely on is modelled
    as the ORM enforces it: ids are strings, a row that is connected to
    another one needs that row to exist, a value of the wrong type for a
    column is rejected with an exception before anything is written, and the
    answer table has a unique index on [hrQuestionId].  The store itself
    does not fail. *)

Module Db.
Import Js.

Definition Id := string.

Inductive Outcome (A : Type) :=
| Ok (a : A)
| Thrown (message : string).
Arguments Ok {A} a.
Arguments Thrown {A} message.

Record User := { u_id : Id; u_resume : option string }.

(** Modelled from the spec: the schema is not among the sources.  The
    columns of an interview are typed by what is written to them: texts for
    the job position, its description and the difficulty level, a text for
    the experience (the creation handler writes [String(jobExperience)]), a
    list of texts for the skills ([skills || []], joined with [", "] in the
    prompt), an optional text for the resume and optional integers for the
    pass mark and the total score. *)
Record HRInterview := {
  iv_id : Id;
  iv_userId : Id;
  iv_jobPosition : string;
  iv_jobDescription : string;
  iv_jobExperience : string;
  iv_skills : list string;
  iv_difficultyLevel : string;
  iv_resumeUrl : option string;
  iv_passScore : option Z;
  iv_totalScore : option Z
}.

Record HRQuestion := {
  q_id : Id;
  q_hrInterviewId : Id;
  q_text : string;
  q_category : string;
  q_expectedKeyPoints : list string;
  q_maxScore : option Z;
  q_timeLimit : option Z
}.

Record HRFollowUpQuestion := {
  f_id : Id;
  f_mainQuestionId : Id;
  f_text : string;
  f_category : string;
  f_expectedKeyPoints : list string;
  f_maxScore : option Z;
  f_timeLimit : option Z
}.

Record HRUserAnswer := {
  a_id : Id;
  a_hrQuestionId : option Id;
  a_hrFollowUpQuestionId : option Id;
  a_userId : Id;
  a_userAnswer : string;
  a_videoUrl : option string;
  a_score : option Z;
  a_evaluationFeedback : option string;
  a_matchedKeyPoints : list string;
  a_voiceTone : option string;
  a_confidence : option string
}.

Record Store := {
  users : list User;
  interviews : list HRInterview;
  questions : list HRQuestion;
  followUps : list HRFollowUpQuestion;
  answers : list HRUserAnswer;
  nextId : nat
}.

Definition empty : Store :=
  {| users := []; interviews := []; questions := []; followUps := [];
     answers := []; nextId := 0 |}.

(** The id the store gives to the next row. *)
Definition mk_id (n : nat) : Id := NilZero.string_of_uint (Nat.to_uint n).

(** *** Column values *)

Definition as_string (v : JsVal) : option string :=
  match v with JStr s => Some s | _ => None end.

(** An integer column holds a 32-bit signed integer, the ORM's [Int]. *)
Definition int32 (z : Z) : bool := (- 2 ^ 31 <=? z) && (z <? 2 ^ 31).

Definition as_int (v : JsVal) : option Z :=
  match v with
  | JNum z => if int32 z then Some z else None
  | _ => None
  end.

(** An optional column: [undefined] and [null] leave it empty. *)
Definition as_opt_string (v : JsVal) : option (option string) :=
  match v with
  | JUndefined | JNull => Some None
  | JStr s => Some (Some s)
  | _ => None
  end.

Definition as_opt_int (v : JsVal) : option (option Z) :=
  match v with
  | JUndefined | JNull => Some None
  | JNum z => if int32 z then Some (Some z) else None
  | _ => None
  end.

Fixpoint all_strings (l : list JsVal) : option (list string) :=
  match l with
  | [] => Some []
  | JStr s :: rest =>
      match all_strings rest with Some r => Some (s :: r) | None => None end
  | _ :: _ => None
  end.

(** A string-list column; when the value is not provided it is empty. *)
Definition as_strings (v : JsVal) : option (list string) :=
  match v with
  | JUndefined => Some []
  | JArr items => all_strings items
  | _ => None
  end.

(** *** Queries *)

Definition id_is (id : Id) (x : Id) : bool := String.eqb x id.

Definition opt_id_is (id : Id) (x : option Id) : bool :=
  match x with Some y => String.eqb y id | None => false end.

Definition find_user (s : Store) (id : Id) : option User :=
  find (fun u => id_is id (u_id u)) (users s).

Definition find_interview (s : Store) (id : Id) : option HRInterview :=
  find (fun i => id_is id (iv_id i)) (interviews s).

(** [where: { id, userId }] *)
Definition find_interview_of (s : Store) (id userId : Id) : option HRInterview :=
  find (fun i => id_is id (iv_id i) && id_is userId (iv_userId i)) (interviews s).

Definition interviews_of_user (s : Store) (userId : Id) : list HRInterview :=
  filter (fun i => id_is userId (iv_userId i)) (interviews s).

Definition find_question (s : Store) (id : Id) : option HRQuestion :=
  find (fun q => id_is id (q_id q)) (questions s).

(** [where: { id, hrInterviewId }] *)
Definition find_question_in (s : Store) (id interviewId : Id) : option HRQuestion :=
  find (fun q => id_is id (q_id q) && id_is interviewId (q_hrInterviewId q))
       (questions s).

Definition questions_of (s : Store) (interviewId : Id) : list HRQuestion :=
  filter (fun q => id_is interviewId (q_hrInterviewId q)) (questions s).

Definition find_followUp (s : Store) (id : Id) : option HRFollowUpQuestion :=
  find (fun f => id_is id (f_id f)) (followUps s).

(** The [followUpQuestions] relation of a main question. *)
Definition followUps_of (s : Store) (mainQuestionId : Id) : list HRFollowUpQuestion :=
  filter (fun f => id_is mainQuestionId (f_mainQuestionId f)) (followUps s).

Definition find_answer (s : Store) (id : Id) : option HRUserAnswer :=
  find (fun a => id_is id (a_id a)) (answers s).

(** The [userAnswer] relation of a main question, and
    [findUnique({ where: { hrQuestionId } })]. *)
Definition answer_of_question (s : Store) (questionId : Id) : option HRUserAnswer :=
  find (fun a => opt_id_is questionId (a_hrQuestionId a)) (answers s).

Definition answers_of_question (s : Store) (questionId : Id) : list HRUserAnswer :=
  filter (fun a => opt_id_is questionId (a_hrQuestionId a)) (answers s).

(** The [HRUserAnswer] relation of a follow-up question. *)
Definition answers_of_followUp (s : Store) (followUpId : Id) : list HRUserAnswer :=
  filter (fun a => opt_id_is followUpId (a_hrFollowUpQuestionId a)) (answers s).

(** [findFirst({ where: { hrQuestion: { id }, user: { id } } })] *)
Definition first_answer_of_question_by (s : Store) (questionId userId : Id)
  : option HRUserAnswer :=
  find (fun a => opt_id_is questionId (a_hrQuestionId a) && id_is userId (a_userId a))
       (answers s).

(** [findFirst({ where: { followup: { id }, user: { id } } })] *)
Definition first_answer_of_followUp_by (s : Store) (followUpId userId : Id)
  : option HRUserAnswer :=
  find (fun a => opt_id_is followUpId (a_hrFollowUpQuestionId a)
                 && id_is userId (a_userId a))
       (answers s).

(** [findMany({ where: { hrQuestionId: { in: ids } } })] *)
Definition answers_in (s : Store) (ids : list Id) : list HRUserAnswer :=
  filter (fun a => existsb (fun id => opt_id_is id (a_hrQuestionId a)) ids)
         (answers s).

(** *** Writes *)

Definition with_interviews (s : Store) (l : list HRInterview) (n : nat) : Store :=
  {| users := users s; interviews := l; questions := questions s;
     followUps := followUps s; answers := answers s; nextId := n |}.

Definition with_questions (s : Store) (l : list HRQuestion) (n : nat) : Store :=
  {| users := users s; interviews := interviews s; questions := l;
     followUps := followUps s; answers := answers s; nextId := n |}.

Definition with_followUps (s : Store) (l : list HRFollowUpQuestion) (n : nat) : Store :=
  {| users := users s; interviews := interviews s; questions := questions s;
     followUps := l; answers := answers s; nextId := n |}.

Definition with_answers (s : Store) (l : list HRUserAnswer) (n : nat) : Store :=
  {| users := users s; interviews := interviews s; questions := questions s;
     followUps := followUps s; answers := l; nextId := n |}.

(** [create]: the row gets a fresh id and goes to the end of its table.
    The function argument builds the row from its id. *)
Definition create_interview (s : Store) (row : Id -> HRInterview)
  : Outcome (HRInterview * Store) :=
  let r := row (mk_id (nextId s)) in
  Ok (r, with_interviews s (interviews s ++ [r]) (S (nextId s))).

Definition create_question (s : Store) (row : Id -> HRQuestion)
  : Outcome (HRQuestion * Store) :=
  let r := row (mk_id (nextId s)) in
  match find_interview s (q_hrInterviewId r) with
  | None => Thrown "Foreign key constraint failed: hrInterview"
  | Some _ => Ok (r, with_questions s (questions s ++ [r]) (S (nextId s)))
  end.

Definition create_followUp (s : Store) (row : Id -> HRFollowUpQuestion)
  : Outcome (HRFollowUpQuestion * Store) :=
  let r := row (mk_id (nextId s)) in
  match find_question s (f_mainQuestionId r) with
  | None => Thrown "Foreign key constraint failed: mainQuestion"
  | Some _ => Ok (r, with_followUps s (followUps s ++ [r]) (S (nextId s)))
  end.

Definition relation_ok {A} (lookup : Id -> option A) (x : option Id) : bool :=
  match x with
  | None => true
  | Some id => match lookup id with Some _ => true | None => false end
  end.

(** Modelled from the spec: the schema is not among the sources.  The
    specification gives a question one answer, and the handlers'
    [findUnique({ where: { hrQuestionId } })] and [upsert] on the same key
    presuppose the unique index on [hrQuestionId] that enforces it; the
    question, the follow-up and the user an answer is connected to must
    exist. *)
Definition create_answer (s : Store) (row : Id -> HRUserAnswer)
  : Outcome (HRUserAnswer * Store) :=
  let r := row (mk_id (nextId s)) in
  if negb (relation_ok (find_question s) (a_hrQuestionId r)
           && relation_ok (find_followUp s) (a_hrFollowUpQuestionId r)
           && relation_ok (find_user s) (Some (a_userId r)))
  then Thrown "Foreign key constraint failed: answer"
  else
    match a_hrQuestionId r with
    | Some q =>
        match answer_of_question s q with
        | Some _ => Thrown "Unique constraint failed on the fields: (hrQuestionId)"
        | None => Ok (r, with_answers s (answers s ++ [r]) (S (nextId s)))
        end
    | None => Ok (r, with_answers s (answers s ++ [r]) (S (nextId s)))
    end.

(** [update({ where: { id } })]: the row keeps its place in the table. *)
Definition replace_answer (id : Id) (f : HRUserAnswer -> HRUserAnswer)
    (l : list HRUserAnswer) : list HRUserAnswer :=
  map (fun a => if id_is id (a_id a) then f a else a) l.

Definition update_answer (s : Store) (id : Id) (f : HRUserAnswer -> HRUserAnswer)
  : Outcome (HRUserAnswer * Store) :=
  match find_answer s id with
  | None => Thrown "Record to update not found"
  | Some a => Ok (f a, with_answers s (replace_answer id f (answers s)) (nextId s))
  end.

Definition replace_interview (id : Id) (f : HRInterview -> HRInterview)
    (l : list HRInterview) : list HRInterview :=
  map (fun i => if id_is id (iv_id i) then f i else i) l.

Definition update_interview (s : Store) (id userId : Id)
    (f : HRInterview -> HRInterview) : Outcome (HRInterview * Store) :=
  match find_interview_of s id userId with
  | None => Thrown "Record to update not found"
  | Some i =>
      Ok (f i, with_interviews s (replace_interview id f (interviews s)) (nextId s))
  end.

(** [upsert({ where: { hrQuestionId }, update, create })] *)
Definition upsert_answer (s : Store) (questionId : Id)
    (update : HRUserAnswer -> HRUserAnswer) (create : Id -> HRUserAnswer)
  : Outcome (HRUserAnswer * Store) :=
  match answer_of_question s questionId with
  | Some a => update_answer s (a_id a) update
  | None => create_answer s create
  end.

(** Modelled from the spec: the schema is not among the sources; the
    specification says that the deletion of an interview cascades, here to
    the questions of the interview, to their follow-ups and to the answers.
    [deleteMany({ where: { id, userId } })]. *)
Definition delete_interviews (s : Store) (id userId : Id) : Store :=
  let doomed i := id_is id (iv_id i) && id_is userId (iv_userId i) in
  let gone_i iid := existsb (fun i => doomed i && id_is iid (iv_id i)) (interviews s) in
  let gone_q qid :=
    existsb (fun q => id_is qid (q_id q) && gone_i (q_hrInterviewId q)) (questions s) in
  let gone_f fid :=
    existsb (fun f => id_is fid (f_id f) && gone_q (f_mainQuestionId f)) (followUps s) in
  let gone_opt (g : Id -> bool) (x : option Id) :=
    match x with Some y => g y | None => false end in
  {| users := users s;
     interviews := filter (fun i => negb (doomed i)) (interviews s);
     questions := filter (fun q => negb (gone_i (q_hrInterviewId q))) (questions s);
     followUps := filter (fun f => negb (gone_q (f_mainQuestionId f))) (followUps s);
     answers :=
       filter (fun a => negb (gone_opt gone_q (a_hrQuestionId a)
                              || gone_opt gone_f (a_hrFollowUpQuestionId a)))
              (answers s);
     nextId := nextId s |}.

End Db.

(** ** Effects of a handler

    A handler runs against the store and the generative model.  The model is
    an oracle: [gemini n p] is what the [n]-th call made so far answers to
    the prompt [p], [None] when the call throws.  Every call is logged, so
    that repeated calls are visible.  A computation either returns or throws,
    and keeps the writes made before the exception. *)

Module Fx.
Import Js Db.

(** What a follow-up prompt says about the answer it follows. *)
Inductive FollowUpContext :=
| StrongAnswer (jobDescription : JsVal)
| WeakAnswer (jobDescription : JsVal)
| PlainContext (jobDescription : JsVal).

(** The prompts, by the values their templates interpolate. *)
Inductive Prompt :=
| QuestionsPrompt (requestBody : JsVal)
| ProbePrompt (questionText : string) (answer : JsVal)
| AnalysisPrompt (question : string) (answer : JsVal) (maxScore : option Z)
                 (additionalContext : JsVal)
| FollowUpPrompt (mainQuestion : string) (answer : JsVal) (context : FollowUpContext).

Inductive CallKind := GenerateQuestions | Probe | Analyze | FollowUp.

Definition kind_of (p : Prompt) : CallKind :=
  match p with
  | QuestionsPrompt _ => GenerateQuestions
  | ProbePrompt _ _ => Probe
  | AnalysisPrompt _ _ _ _ => Analyze
  | FollowUpPrompt _ _ _ => FollowUp
  end.

Definition kind_eqb (a b : CallKind) : bool :=
  match a, b with
  | GenerateQuestions, GenerateQuestions | Probe, Probe
  | Analyze, Analyze | FollowUp, FollowUp => true
  | _, _ => false
  end.

Record ModelCall := { prompt : Prompt; reply : option string }.

Record World := { store : Store; calls : list ModelCall }.

Definition M (A : Type) : Type := World -> Outcome A * World.

Definition ret {A} (a : A) : M A := fun w => (Ok a, w).

Definition bind {A B} (m : M A) (k : A -> M B) : M B :=
  fun w =>
    match m w with
    | (Ok a, w') => k a w'
    | (Thrown e, w') => (Thrown e, w')
    end.

Definition throw {A} (message : string) : M A := fun w => (Thrown message, w).

(** [try { m } catch (error) { handler(error.message) }] *)
Definition try_catch {A} (m : M A) (handler : string -> M A) : M A :=
  fun w =>
    match m w with
    | (Ok a, w') => (Ok a, w')
    | (Thrown e, w') => handler e w'
    end.

Declare Scope fx_scope.
Delimit Scope fx_scope with fx.
Notation "x <- m ;; k" := (bind m (fun x => k))
  (at level 61, m at next level, right associativity) : fx_scope.
Notation "m ;;; k" := (bind m (fun _ => k))
  (at level 61, right associativity) : fx_scope.
Local Open Scope fx_scope.

(** A read of the store. *)
Definition query {A} (f : Store -> A) : M A := fun w => (Ok (f (store w)), w).

(** A write to the store. *)
Definition write {A} (f : Store -> Outcome (A * Store)) : M A :=
  fun w =>
    match f (store w) with
    | Ok (a, s') => (Ok a, {| store := s'; calls := calls w |})
    | Thrown e => (Thrown e, w)
    end.

Definition of_option {A} (o : option A) (message : string) : M A :=
  match o with Some a => ret a | None => throw message end.

(** Property read; throws on [undefined] and [null]. *)
Definition prop (v : JsVal) (k : string) : M JsVal :=
  of_option (get v k) "TypeError: cannot read properties".

(** A value used as a key, or written to a typed column, is checked by the
    ORM. *)
Definition arg_id (v : JsVal) : M Id :=
  of_option (as_string v) "Invalid value: expected String".

Definition column {A} (check : JsVal -> option A) (v : JsVal) : M A :=
  of_option (check v) "Invalid value for column".

(** [for (const x of items) { body }] *)
Fixpoint for_each {A} (items : list A) (body : A -> M unit) : M unit :=
  match items with
  | [] => ret tt
  | x :: rest => body x ;;; for_each rest body
  end.

Record Response := { status : Z; body : JsVal }.

(** [NextResponse.json(body, { status })] *)
Definition json (b : JsVal) (st : Z) : Response := {| status := st; body := b |}.

Definition respond (b : JsVal) (st : Z) : M Response := ret (json b st).

(** The signed-in user of the request, if any. *)
Definition Session := option Id.

(** [auth()] is asynchronous: it returns a promise of the session's auth
    object, whose [userId] is null for a signed-out caller. *)
Definition auth (session : Session) : JsVal :=
  JPromise (JObj [("userId", opt_str session)]).

(** [await req.json()]; a body that is not JSON makes it throw. *)
Definition req_json (raw : option JsVal) : M JsVal :=
  of_option raw "SyntaxError: Unexpected token in JSON".

Section Model.
Variable gemini : nat -> Prompt -> option string.

(** [(await model.generateContent(p)).response.text()] *)
Definition generateContent (p : Prompt) : M string :=
  fun w =>
    let r := gemini (List.length (calls w)) p in
    let w' := {| store := store w;
                 calls := calls w ++ [{| prompt := p; reply := r |}] |} in
    match r with
    | Some text => (Ok text, w')
    | None => (Thrown "GoogleGenerativeAI Error", w')
    end.
End Model.

End Fx.

(** ** JSON views of the rows, with the relations a query includes *)

Module View.
Import Js Db.

Definition opt_id (o : option Id) : JsVal := opt_str o.

Definition answer_json (a : HRUserAnswer) : JsVal :=
  JObj [ ("id", JStr (a_id a));
         ("hrQuestionId", opt_id (a_hrQuestionId a));
         ("hrFollowUpQuestionId", opt_id (a_hrFollowUpQuestionId a));
         ("userId", JStr (a_userId a));
         ("userAnswer", JStr (a_userAnswer a));
         ("videoUrl", opt_str (a_videoUrl a));
         ("score", opt_num (a_score a));
         ("evaluationFeedback", opt_str (a_evaluationFeedback a));
         ("matchedKeyPoints", strs (a_matchedKeyPoints a));
         ("voiceTone", opt_str (a_voiceTone a));
         ("confidence", opt_str (a_confidence a)) ].

Definition opt_answer (o : option HRUserAnswer) : JsVal :=
  match o with Some a => answer_json a | None => JNull end.

Definition followUp_json (f : HRFollowUpQuestion) (included : list (string * JsVal))
  : JsVal :=
  JObj ([ ("id", JStr (f_id f));
          ("mainQuestionId", JStr (f_mainQuestionId f));
          ("text", JStr (f_text f));
          ("type", JStr "FOLLOWUP");
          ("category", JStr (f_category f));
          ("expectedKeyPoints", strs (f_expectedKeyPoints f));
          ("maxScore", opt_num (f_maxScore f));
          ("timeLimit", opt_num (f_timeLimit f)) ] ++ included).

Definition question_json (q : HRQuestion) (included : list (string * JsVal))
  : JsVal :=
  JObj ([ ("id", JStr (q_id q));
          ("hrInterviewId", JStr (q_hrInterviewId q));
          ("text", JStr (q_text q));
          ("type", JStr "MAIN");
          ("category", JStr (q_category q));
          ("expectedKeyPoints", strs (q_expectedKeyPoints q));
          ("maxScore", opt_num (q_maxScore q));
          ("timeLimit", opt_num (q_timeLimit q)) ] ++ included).

Definition interview_json (i : HRInterview) (included : list (string * JsVal))
  : JsVal :=
  JObj ([ ("id", JStr (iv_id i));
          ("userId", JStr (iv_userId i));
          ("jobPosition", JStr (iv_jobPosition i));
          ("jobDescription", JStr (iv_jobDescription i));
          ("jobExperience", JStr (iv_jobExperience i));
          ("skills", strs (iv_skills i));
          ("difficultyLevel", JStr (iv_difficultyLevel i));
          ("resumeUrl", opt_str (iv_resumeUrl i));
          ("passScore", opt_num (iv_passScore i));
          ("totalScore", opt_num (iv_totalScore i)) ] ++ included).

Definition followUps_json (fs : list HRFollowUpQuestion) : JsVal :=
  JArr (map (fun f => followUp_json f []) fs).

(** [include: { followUpQuestions: true }] *)
Definition question_with_followUps (s : Store) (q : HRQuestion) : JsVal :=
  question_json q [("followUpQuestions", followUps_json (followUps_of s (q_id q)))].

(** [include: { followUpQuestions: true, userAnswer: true }] *)
Definition question_full (s : Store) (q : HRQuestion) : JsVal :=
  question_json q
    [ ("followUpQuestions", followUps_json (followUps_of s (q_id q)));
      ("userAnswer", opt_answer (answer_of_question s (q_id q))) ].

(** [include: { questions: { include: { followUpQuestions, userAnswer } } }] *)
Definition interview_full (s : Store) (i : HRInterview) : JsVal :=
  interview_json i
    [("questions", JArr (map (question_full s) (questions_of s (iv_id i))))].

(** [include: { questions: { include: { followUpQuestions: true } } }] *)
Definition interview_with_questions (s : Store) (i : HRInterview) : JsVal :=
  interview_json i
    [("questions", JArr (map (question_with_followUps s) (questions_of s (iv_id i))))].

(** [include: { _count: { select: { questions: true } } }] *)
Definition interview_counted (s : Store) (i : HRInterview) : JsVal :=
  interview_json i
    [("_count",
      JObj [("questions", JNum (Z.of_nat (List.length (questions_of s (iv_id i)))))])].

(** [hrInterview: { select: { userId: true } }] of a question's interview. *)
Definition owner_json (o : option HRInterview) : JsVal :=
  match o with
  | Some i => JObj [("userId", JStr (iv_userId i))]
  | None => JNull
  end.

(** [include: { mainQuestion: { include: { hrInterview: ... } } }] *)
Definition mainQuestion_json (s : Store) (o : option HRQuestion)
    (interview : option HRInterview -> JsVal) : JsVal :=
  match o with
  | Some q => question_json q [("hrInterview", interview (find_interview s (q_hrInterviewId q)))]
  | None => JNull
  end.

Definition opt_interview (o : option HRInterview) : JsVal :=
  match o with Some i => interview_json i [] | None => JNull end.

Definition analysis_json (a : Parser.Analysis) : JsVal :=
  JObj [ ("score", JNum (Parser.score a));
         ("evaluationFeedback", JStr (Parser.evaluationFeedback a));
         ("matchedKeyPoints", strs (Parser.matchedKeyPoints a));
         ("voiceTone", opt_str (Parser.voiceTone a));
         ("confidence", opt_str (Parser.confidence a)) ].

End View.

(** ** The interview routes (GET, DELETE, POST, PATCH of one route file) *)

Module InterviewRoute.
Import Js Db Fx View.
Local Open Scope fx_scope.

Definition GET (session : Session) (interviewId : JsVal) : M Response :=
  try_catch
    (userId <- prop (await (auth session)) "userId" ;;
     if negb (truthy userId) then respond (error_body "Unauthorized") 401
     else if truthy interviewId then
       id <- arg_id interviewId ;;
       uid <- arg_id userId ;;
       hrInterview <- query (fun s => find_interview_of s id uid) ;;
       match hrInterview with
       | None => respond (error_body "HR Interview not found") 404
       | Some i =>
           view <- query (fun s => interview_full s i) ;;
           respond view 200
       end
     else
       uid <- arg_id userId ;;
       hrInterviews <-
         query (fun s => map (interview_counted s) (rev (interviews_of_user s uid))) ;;
       respond (JArr hrInterviews) 200)
    (fun _ => respond (error_body "Failed to retrieve interviews") 500).

(** The result of [auth()] is destructured without being awaited. *)
Definition DELETE (session : Session) (interviewId : JsVal) : M Response :=
  try_catch
    (userId <- prop (auth session) "userId" ;;
     if negb (truthy userId) then respond (error_body "Unauthorized") 401
     else if negb (truthy interviewId)
     then respond (error_body "HR Interview ID is required") 400
     else
       id <- arg_id interviewId ;;
       uid <- arg_id userId ;;
       write (fun s => Ok (tt, delete_interviews s id uid)) ;;;
       respond (JObj [ ("success", JBool true);
                       ("message", JStr "HR Interview deleted successfully") ]) 200)
    (fun _ => respond (error_body "Failed to delete interview") 500).

Definition POST (session : Session) (raw : option JsVal) : M Response :=
  try_catch
    (userId <- prop (auth session) "userId" ;;
     if negb (truthy userId) then respond (error_body "Unauthorized") 401
     else
       body <- req_json raw ;;
       jobPosition <- prop body "jobPosition" ;;
       jobDescription <- prop body "jobDescription" ;;
       jobExperience <- prop body "jobExperience" ;;
       skills <- prop body "skills" ;;
       difficultyLevel <- prop body "difficultyLevel" ;;
       resumeUrl <- prop body "resumeUrl" ;;
       passScore <- prop body "passScore" ;;
       uid <- arg_id userId ;;
       jobPosition' <- column as_string jobPosition ;;
       jobDescription' <- column as_string jobDescription ;;
       jobExperience' <- column as_string jobExperience ;;
       skills' <- column as_strings skills ;;
       difficultyLevel' <- column as_string difficultyLevel ;;
       resumeUrl' <- column as_opt_string resumeUrl ;;
       passScore' <- column as_opt_int passScore ;;
       newInterview <-
         write (fun s => create_interview s (fun id =>
           {| iv_id := id;
              iv_userId := uid;
              iv_jobPosition := jobPosition';
              iv_jobDescription := jobDescription';
              iv_jobExperience := jobExperience';
              iv_skills := skills';
              iv_difficultyLevel := difficultyLevel';
              iv_resumeUrl := resumeUrl';
              iv_passScore := passScore';
              iv_totalScore := Some 0 |})) ;;
       respond (interview_json newInterview []) 200)
    (fun _ => respond (error_body "Failed to create interview") 500).

(** [data: body]: every property of the body is written to the column of
    that name; a property that names no column, or whose value has not the
    type of the column, is rejected. *)
Definition set_column (k : string) (v : JsVal) (i : HRInterview)
  : option HRInterview :=
  let mk id uid jp jd je sk dl ru ps ts :=
    {| iv_id := id; iv_userId := uid; iv_jobPosition := jp;
       iv_jobDescription := jd; iv_jobExperience := je; iv_skills := sk;
       iv_difficultyLevel := dl; iv_resumeUrl := ru; iv_passScore := ps;
       iv_totalScore := ts |} in
  let '(id, uid, jp, jd, je) :=
    (iv_id i, iv_userId i, iv_jobPosition i, iv_jobDescription i, iv_jobExperience i) in
  let '(sk, dl, ru, ps, ts) :=
    (iv_skills i, iv_difficultyLevel i, iv_resumeUrl i, iv_passScore i,
     iv_totalScore i) in
  if String.eqb k "id" then
    option_map (fun x => mk x uid jp jd je sk dl ru ps ts) (as_string v)
  else if String.eqb k "userId" then
    option_map (fun x => mk id x jp jd je sk dl ru ps ts) (as_string v)
  else if String.eqb k "jobPosition" then
    option_map (fun x => mk id uid x jd je sk dl ru ps ts) (as_string v)
  else if String.eqb k "jobDescription" then
    option_map (fun x => mk id uid jp x je sk dl ru ps ts) (as_string v)
  else if String.eqb k "jobExperience" then
    option_map (fun x => mk id uid jp jd x sk dl ru ps ts) (as_string v)
  else if String.eqb k "skills" then
    option_map (fun x => mk id uid jp jd je x dl ru ps ts) (as_strings v)
  else if String.eqb k "difficultyLevel" then
    option_map (fun x => mk id uid jp jd je sk x ru ps ts) (as_string v)
  else if String.eqb k "resumeUrl" then
    option_map (fun x => mk id uid jp jd je sk dl x ps ts) (as_opt_string v)
  else if String.eqb k "passScore" then
    option_map (fun x => mk id uid jp jd je sk dl ru x ts) (as_opt_int v)
  else if String.eqb k "totalScore" then
    option_map (fun x => mk id uid jp jd je sk dl ru ps x) (as_opt_int v)
  else None.

Fixpoint set_columns (fields : list (string * JsVal)) (i : HRInterview)
  : option HRInterview :=
  match fields with
  | [] => Some i
  | (k, v) :: rest =>
      match set_column k v i with
      | Some i' => set_columns rest i'
      | None => None
      end
  end.

Definition update_with (body : JsVal) (s : Store) (id userId : Id)
  : Outcome (HRInterview * Store) :=
  match body, find_interview_of s id userId with
  | JObj fields, Some i =>
      match set_columns fields i with
      | Some i' => update_interview s id userId (fun _ => i')
      | None => Thrown "Invalid value for column"
      end
  | JObj _, None => Thrown "Record to update not found"
  | _, _ => Thrown "Invalid value for data"
  end.

Definition PATCH (session : Session) (interviewId : JsVal) (raw : option JsVal)
  : M Response :=
  try_catch
    (userId <- prop (auth session) "userId" ;;
     if negb (truthy userId) then respond (error_body "Unauthorized") 401
     else if negb (truthy interviewId)
     then respond (error_body "HR Interview ID is required") 400
     else
       body <- req_json raw ;;
       id <- arg_id interviewId ;;
       uid <- arg_id userId ;;
       updatedInterview <- write (fun s => update_with body s id uid) ;;
       respond (interview_json updatedInterview []) 200)
    (fun _ => respond (error_body "Failed to update interview") 500).

End InterviewRoute.

(** ** The answers of an interview (GET) *)

Module AnswersRoute.
Import Js Db Fx View.
Local Open Scope fx_scope.

Definition GET (interviewId : JsVal) : M Response :=
  try_catch
    (if negb (truthy interviewId)
     then respond (error_body "Interview Id is required") 400
     else
       id <- arg_id interviewId ;;
       questions <- query (fun s => questions_of s id) ;;
       let questionIds := map q_id questions in
       userAnswers <- query (fun s => answers_in s questionIds) ;;
       let response :=
         map (fun q =>
                JObj [ ("text", JStr (q_text q));
                       ("userAnswer",
                        or_else
                          match find (fun ans => opt_id_is (q_id q) (a_hrQuestionId ans))
                                     userAnswers with
                          | Some ans => JStr (a_userAnswer ans)
                          | None => JUndefined
                          end
                          JNull) ])
             questions in
       respond (JArr response) 200)
    (fun _ => respond (error_body "Internal Server Error") 500).

End AnswersRoute.

(** ** The questions of an interview (GET, POST), with follow-up generation *)

Module QuestionsRoute.
Import Js Db Fx View.
Local Open Scope fx_scope.

(** Maximum number of follow-up questions allowed per main question *)
Definition MAX_FOLLOWUP_QUESTIONS : nat := 2.

(** [x ?? d] on a nullable integer column. *)
Definition coalesce_int (x : option Z) (d : Z) : Z :=
  match x with Some z => z | None => d end.

(** The follow-up row both handlers save.
    [Math.floor(m * 0.5)] and [Math.floor(t * 0.75)] on integers. *)
Definition generated_followUp (question : HRQuestion) (followUpText : string)
    (id : Id) : HRFollowUpQuestion :=
  {| f_id := id;
     f_mainQuestionId := q_id question;
     f_text := followUpText;
     f_category := q_category question;
     f_expectedKeyPoints := [];
     f_maxScore := Some (coalesce_int (q_maxScore question) 10 / 2);
     f_timeLimit := Some (3 * coalesce_int (q_timeLimit question) 120 / 4) |}.

Definition success (k : string) (v : JsVal) : JsVal :=
  JObj [("success", JBool true); (k, v)].

Section Model.
Variable gemini : nat -> Prompt -> option string.

Definition GET (session : Session) (interviewId questionId generateFollowUpParam : JsVal)
  : M Response :=
  try_catch
    (userId <- prop (await (auth session)) "userId" ;;
     if negb (truthy userId) then respond (error_body "Unauthorized") 401
     else
       let generateFollowUp := strict_eq generateFollowUpParam (JStr "true") in
       id <- arg_id interviewId ;;
       fetched <- query (fun s => s) ;;
       match find_interview fetched id with
       | None => respond (error_body "Interview not found") 404
       | Some hrInterview =>
           if truthy questionId then
             match find (fun q => strict_eq (JStr (q_id q)) questionId)
                        (questions_of fetched (iv_id hrInterview)) with
             | None => respond (error_body "Question not found") 404
             | Some question =>
                 let followUpQuestions := followUps_of fetched (q_id question) in
                 let userAnswer := answer_of_question fetched (q_id question) in
                 if generateFollowUp
                    && (List.length followUpQuestions <? MAX_FOLLOWUP_QUESTIONS)%nat
                 then
                   match userAnswer with
                   | None =>
                       respond
                         (error_body "Cannot generate follow-up without a user answer")
                         400
                   | Some answer =>
                       followUpText <-
                         generateContent gemini
                           (ProbePrompt (q_text question) (JStr (a_userAnswer answer))) ;;
                       followUpQuestion <-
                         write (fun s =>
                           create_followUp s (generated_followUp question followUpText)) ;;
                       respond
                         (success "question"
                            (question_json question
                               [ ("followUpQuestions",
                                  followUps_json (followUpQuestions ++ [followUpQuestion]));
                                 ("userAnswer", opt_answer userAnswer) ]))
                         200
                   end
                 else
                   respond (success "question" (question_full fetched question)) 200
             end
           else
             respond (success "interview" (interview_full fetched hrInterview)) 200
       end)
    (fun e =>
       respond (JObj [ ("error", JStr "Failed to fetch questions");
                       ("details", JStr e) ]) 500).

Definition POST (session : Session) (interviewId : JsVal) (raw : option JsVal)
  : M Response :=
  try_catch
    (userId <- prop (await (auth session)) "userId" ;;
     if negb (truthy userId) then respond (error_body "Unauthorized") 401
     else
       body <- req_json raw ;;
       questionId <- prop body "questionId" ;;
       userAnswer <- prop body "userAnswer" ;;
       if negb (truthy questionId) || negb (truthy userAnswer)
       then respond (error_body "Missing required fields") 400
       else
         qid <- arg_id questionId ;;
         iid <- arg_id interviewId ;;
         fetched <- query (fun s => s) ;;
         match find_question_in fetched qid iid with
         | None => respond (error_body "Question not found") 404
         | Some question =>
             let followUpQuestions := followUps_of fetched (q_id question) in
             if (MAX_FOLLOWUP_QUESTIONS <=? List.length followUpQuestions)%nat
             then
               respond
                 (JObj [ ("error", JStr "Maximum number of follow-up questions reached");
                         ("followUpQuestions", followUps_json followUpQuestions) ])
                 400
             else
               followUpText <-
                 generateContent gemini (ProbePrompt (q_text question) userAnswer) ;;
               followUpQuestion <-
                 write (fun s =>
                   create_followUp s (generated_followUp question followUpText)) ;;
               respond (success "followUpQuestion" (followUp_json followUpQuestion []))
                       200
         end)
    (fun e =>
       respond (JObj [ ("error", JStr "Failed to generate follow-up question");
                       ("details", JStr e) ]) 500).

End Model.

End QuestionsRoute.

(** ** The hrRound route: interview creation, follow-up questions, answers *)

Module HrRoundRoute.
Import Js Db Fx View.
Local Open Scope fx_scope.

(** The block the pattern [/\{[\s\S]*\}/] matches: from the first opening
    brace to the last closing brace. *)
Fixpoint from_open_brace (s : string) : option string :=
  match s with
  | EmptyString => None
  | String c s' => if Ascii.eqb c "{" then Some s else from_open_brace s'
  end.

Fixpoint to_last_close_brace (s : string) : option string :=
  match s with
  | EmptyString => None
  | String c s' =>
      match to_last_close_brace s' with
      | Some r => Some (String c r)
      | None => if Ascii.eqb c "}" then Some (String c EmptyString) else None
      end
  end.

Definition json_block (response : string) : option string :=
  match from_open_brace response with
  | Some s => to_last_close_brace s
  | None => None
  end.

Definition requiredFields : list string :=
  ["jobPosition"; "jobDescription"; "jobExperience"; "difficultyLevel"; "totalQuestions"].

(** [requiredFields.filter(field => !requestBody[field])] *)
Fixpoint missing_fields (requestBody : JsVal) (fields : list string)
  : M (list string) :=
  match fields with
  | [] => ret []
  | field :: rest =>
      v <- prop requestBody field ;;
      others <- missing_fields requestBody rest ;;
      ret (if truthy v then others else field :: others)
  end.

(** [skills?.join(", ")] inside the prompt template: absent skills are
    skipped, an array is joined, anything else has no [join] to call. *)
Definition join_skills (skills : JsVal) : M unit :=
  match skills with
  | JUndefined | JNull | JArr _ => ret tt
  | _ => throw "TypeError: skills?.join is not a function"
  end.

Section Model.
Variable gemini : nat -> Prompt -> option string.
(** [JSON.parse]; [None] when it throws. *)
Variable JSON_parse : string -> option JsVal.

Definition extractJSON (response : string) : M JsVal :=
  match json_block response with
  | None => throw "No valid JSON found in response"
  | Some block =>
      match JSON_parse block with
      | Some v => ret v
      | None => throw "Failed to parse JSON response"
      end
  end.

(** The body of the inner loop: one follow-up of a generated question. *)
Definition create_generated_followUp (mainQuestion : HRQuestion)
    (question followUp : JsVal) : M unit :=
  text <- prop followUp "text" ;;
  category <- prop question "category" ;;
  expectedKeyPoints <- prop followUp "expectedKeyPoints" ;;
  maxScore <- prop followUp "maxScore" ;;
  timeLimit <- prop followUp "timeLimit" ;;
  text' <- column as_string text ;;
  category' <- column as_string (or_else category (JStr "General")) ;;
  expectedKeyPoints' <- column as_strings (or_else expectedKeyPoints (JArr [])) ;;
  maxScore' <- column as_int (or_else maxScore (JNum 5)) ;;
  timeLimit' <- column as_int (or_else timeLimit (JNum 90)) ;;
  write (fun s => create_followUp s (fun id =>
    {| f_id := id;
       f_mainQuestionId := q_id mainQuestion;
       f_text := text';
       f_category := category';
       f_expectedKeyPoints := expectedKeyPoints';
       f_maxScore := Some maxScore';
       f_timeLimit := Some timeLimit' |})) ;;;
  ret tt.

(** The body of the outer loop: one generated question and its follow-ups. *)
Definition create_generated_question (hrInterview : HRInterview) (question : JsVal)
  : M unit :=
  text <- prop question "text" ;;
  category <- prop question "category" ;;
  expectedKeyPoints <- prop question "expectedKeyPoints" ;;
  maxScore <- prop question "maxScore" ;;
  timeLimit <- prop question "timeLimit" ;;
  text' <- column as_string text ;;
  category' <- column as_string (or_else category (JStr "General")) ;;
  expectedKeyPoints' <- column as_strings (or_else expectedKeyPoints (JArr [])) ;;
  maxScore' <- column as_int (or_else maxScore (JNum 10)) ;;
  timeLimit' <- column as_int (or_else timeLimit (JNum 120)) ;;
  mainQuestion <-
    write (fun s => create_question s (fun id =>
      {| q_id := id;
         q_hrInterviewId := iv_id hrInterview;
         q_text := text';
         q_category := category';
         q_expectedKeyPoints := expectedKeyPoints';
         q_maxScore := Some maxScore';
         q_timeLimit := Some timeLimit' |})) ;;
  followUpQuestions <- prop question "followUpQuestions" ;;
  if truthy followUpQuestions then
    len <- prop followUpQuestions "length" ;;
    if gt0 len then
      items <- of_option (iterate followUpQuestions) "TypeError: not iterable" ;;
      for_each items (create_generated_followUp mainQuestion question)
    else ret tt
  else ret tt.

Definition POST (session : Session) (raw : option JsVal) : M Response :=
  try_catch
    (userId <- prop (await (auth session)) "userId" ;;
     if negb (truthy userId) then respond (error_body "Unauthorized") 401
     else
       requestBody <- req_json raw ;;
       uid <- arg_id userId ;;
       resumeurl <- query (fun s => find_user s uid) ;;
       match resumeurl with
       | None => respond (error_body "No resume found") 400
       | Some _ =>
           missingFields <- missing_fields requestBody requiredFields ;;
           if (0 <? List.length missingFields)%nat then
             respond (JObj [ ("error", JStr "Missing required fields");
                             ("missingFields", strs missingFields) ]) 400
           else
             jobPosition <- prop requestBody "jobPosition" ;;
             jobDescription <- prop requestBody "jobDescription" ;;
             skills <- prop requestBody "skills" ;;
             jobExperience <- prop requestBody "jobExperience" ;;
             difficultyLevel <- prop requestBody "difficultyLevel" ;;
             resumeUrl <- prop requestBody "resumeUrl" ;;
             join_skills skills ;;;
             questionsResponse <- generateContent gemini (QuestionsPrompt requestBody) ;;
             parsed <-
               try_catch
                 (parsedResponse <- extractJSON questionsResponse ;;
                  parsedQuestions <- prop parsedResponse "questions" ;;
                  ret (Some parsedQuestions))
                 (fun _ => ret None) ;;
             match parsed with
             | None =>
                 respond (JObj [ ("error", JStr "Failed to parse AI response");
                                 ("rawResponse", JStr questionsResponse) ]) 400
             | Some parsedQuestions =>
                 len <- (if truthy parsedQuestions
                         then prop parsedQuestions "length" else ret JUndefined) ;;
                 if negb (truthy parsedQuestions) || strict_eq len (JNum 0) then
                   respond
                     (JObj [ ("error",
                              JStr "No valid questions could be parsed from the AI response");
                             ("rawResponse", JStr questionsResponse) ]) 400
                 else
                   jobPosition' <- column as_string jobPosition ;;
                   jobDescription' <- column as_string jobDescription ;;
                   skills' <- column as_strings (or_else skills (JArr [])) ;;
                   difficultyLevel' <- column as_string difficultyLevel ;;
                   resumeUrl' <- column as_opt_string resumeUrl ;;
                   hrInterview <-
                     write (fun s => create_interview s (fun id =>
                       {| iv_id := id;
                          iv_userId := uid;
                          iv_jobPosition := jobPosition';
                          iv_jobDescription := jobDescription';
                          iv_jobExperience := to_String jobExperience;
                          iv_skills := skills';
                          iv_difficultyLevel := difficultyLevel';
                          iv_resumeUrl := resumeUrl';
                          iv_passScore := None;
                          iv_totalScore := None |})) ;;
                   items <- of_option (iterate parsedQuestions) "TypeError: not iterable" ;;
                   for_each items (create_generated_question hrInterview) ;;;
                   completeInterview <-
                     query (fun s =>
                       match find_interview s (iv_id hrInterview) with
                       | Some i => interview_with_questions s i
                       | None => JNull
                       end) ;;
                   respond (JObj [ ("success", JBool true);
                                   ("hrInterview", completeInterview) ]) 201
             end
       end)
    (fun e =>
       respond (JObj [ ("error", JStr "Internal Server Error");
                       ("message", JStr e) ]) 500).

End Model.

(** [include: { HRUserAnswer: true }] of a follow-up question. *)
Definition followUp_answers (s : Store) (f : HRFollowUpQuestion) : JsVal :=
  JArr (map answer_json (answers_of_followUp s (f_id f))).

(** [followUp.mainQuestion.hrInterview.userId]; the relations are required,
    reading through a missing one throws. *)
Definition owner_of_question (s : Store) (q : HRQuestion) : M Id :=
  i <- of_option (find_interview s (q_hrInterviewId q))
                 "TypeError: cannot read properties" ;;
  ret (iv_userId i).

Definition owner_of_followUp (s : Store) (f : HRFollowUpQuestion) : M Id :=
  q <- of_option (find_question s (f_mainQuestionId f))
                 "TypeError: cannot read properties" ;;
  owner_of_question s q.

Definition GET (session : Session) (followupId mainQuestionIdParam : JsVal)
  : M Response :=
  try_catch
    (userId <- prop (await (auth session)) "userId" ;;
     if negb (truthy userId) then respond (error_body "Unauthorized") 401
     else if truthy followupId then
       fid <- arg_id followupId ;;
       fetched <- query (fun s => s) ;;
       match find_followUp fetched fid with
       | None => respond (error_body "Follow-up question not found") 404
       | Some followUp =>
           owner <- owner_of_followUp fetched followUp ;;
           if negb (strict_eq (JStr owner) userId)
           then respond (error_body "Unauthorized") 401
           else
             respond
               (followUp_json followUp
                  [ ("mainQuestion",
                     mainQuestion_json fetched
                       (find_question fetched (f_mainQuestionId followUp)) owner_json);
                    ("HRUserAnswer", followUp_answers fetched followUp) ])
               200
       end
     else
       let mainQuestionId := mainQuestionIdParam in
       if negb (truthy mainQuestionId)
       then respond (error_body "Main question ID is required") 400
       else
         qid <- arg_id mainQuestionId ;;
         fetched <- query (fun s => s) ;;
         match find_question fetched qid with
         | None => respond (error_body "Main question not found") 404
         | Some mainQuestion =>
             owner <- owner_of_question fetched mainQuestion ;;
             if negb (strict_eq (JStr owner) userId)
             then respond (error_body "Unauthorized") 401
             else
               respond
                 (JArr (map (fun f =>
                               followUp_json f [("HRUserAnswer", followUp_answers fetched f)])
                            (followUps_of fetched qid)))
                 200
         end)
    (fun _ => respond (error_body "Failed to retrieve follow-up questions") 500).

(** *** Follow-up creation (POST) *)

(** The result of [auth()] is destructured without being awaited. *)
Definition POST_followUp (session : Session) (raw : option JsVal) : M Response :=
  try_catch
    (userId <- prop (auth session) "userId" ;;
     if negb (truthy userId) then respond (error_body "Unauthorized") 401
     else
       body <- req_json raw ;;
       mainQuestionId <- prop body "mainQuestionId" ;;
       text <- prop body "text" ;;
       category <- prop body "category" ;;
       expectedKeyPoints <- prop body "expectedKeyPoints" ;;
       maxScore <- prop body "maxScore" ;;
       timeLimit <- prop body "timeLimit" ;;
       qid <- arg_id mainQuestionId ;;
       fetched <- query (fun s => s) ;;
       match find_question fetched qid with
       | None => respond (error_body "Main question not found") 404
       | Some mainQuestion =>
           owner <- owner_of_question fetched mainQuestion ;;
           if negb (strict_eq (JStr owner) userId)
           then respond (error_body "Unauthorized") 401
           else
             text' <- column as_string text ;;
             category' <- column as_string category ;;
             expectedKeyPoints' <- column as_strings expectedKeyPoints ;;
             maxScore' <- column as_opt_int maxScore ;;
             timeLimit' <- column as_opt_int timeLimit ;;
             newFollowUp <-
               write (fun s => create_followUp s (fun id =>
                 {| f_id := id;
                    f_mainQuestionId := qid;
                    f_text := text';
                    f_category := category';
                    f_expectedKeyPoints := expectedKeyPoints';
                    f_maxScore := maxScore';
                    f_timeLimit := timeLimit' |})) ;;
             respond (followUp_json newFollowUp []) 200
       end)
    (fun _ => respond (error_body "Failed to create follow-up question") 500).

(** *** Answer submission (POST) and answer update (PATCH) *)

Definition mk_answer id q f uid txt url sc fb kp vt cf : HRUserAnswer :=
  {| a_id := id; a_hrQuestionId := q; a_hrFollowUpQuestionId := f; a_userId := uid;
     a_userAnswer := txt; a_videoUrl := url; a_score := sc;
     a_evaluationFeedback := fb; a_matchedKeyPoints := kp; a_voiceTone := vt;
     a_confidence := cf |}.

(** One property of an update's [data]; a property that is [undefined]
    leaves its column as it is. *)
Definition set_column (k : string) (v : JsVal) (a : HRUserAnswer)
  : option HRUserAnswer :=
  let '(id, q, f, uid) :=
    (a_id a, a_hrQuestionId a, a_hrFollowUpQuestionId a, a_userId a) in
  let '(txt, url, sc, fb) :=
    (a_userAnswer a, a_videoUrl a, a_score a, a_evaluationFeedback a) in
  let '(kp, vt, cf) := (a_matchedKeyPoints a, a_voiceTone a, a_confidence a) in
  match v with
  | JUndefined => Some a
  | _ =>
    if String.eqb k "id" then
      option_map (fun x => mk_answer x q f uid txt url sc fb kp vt cf) (as_string v)
    else if String.eqb k "hrQuestionId" then
      option_map (fun x => mk_answer id x f uid txt url sc fb kp vt cf) (as_opt_string v)
    else if String.eqb k "hrFollowUpQuestionId" then
      option_map (fun x => mk_answer id q x uid txt url sc fb kp vt cf) (as_opt_string v)
    else if String.eqb k "userId" then
      option_map (fun x => mk_answer id q f x txt url sc fb kp vt cf) (as_string v)
    else if String.eqb k "userAnswer" then
      option_map (fun x => mk_answer id q f uid x url sc fb kp vt cf) (as_string v)
    else if String.eqb k "videoUrl" then
      option_map (fun x => mk_answer id q f uid txt x sc fb kp vt cf) (as_opt_string v)
    else if String.eqb k "score" then
      option_map (fun x => mk_answer id q f uid txt url x fb kp vt cf) (as_opt_int v)
    else if String.eqb k "evaluationFeedback" then
      option_map (fun x => mk_answer id q f uid txt url sc x kp vt cf) (as_opt_string v)
    else if String.eqb k "matchedKeyPoints" then
      option_map (fun x => mk_answer id q f uid txt url sc fb x vt cf) (as_strings v)
    else if String.eqb k "voiceTone" then
      option_map (fun x => mk_answer id q f uid txt url sc fb kp x cf) (as_opt_string v)
    else if String.eqb k "confidence" then
      option_map (fun x => mk_answer id q f uid txt url sc fb kp vt x) (as_opt_string v)
    else None
  end.

Fixpoint set_columns (fields : list (string * JsVal)) (a : HRUserAnswer)
  : option HRUserAnswer :=
  match fields with
  | [] => Some a
  | (k, v) :: rest =>
      match set_column k v a with
      | Some a' => set_columns rest a'
      | None => None
      end
  end.

(** [update({ where: { id }, data })] with the constraints of the table. *)
Definition update_with (fields : list (string * JsVal)) (s : Store) (id : Id)
  : Outcome (HRUserAnswer * Store) :=
  match find_answer s id with
  | None => Thrown "Record to update not found"
  | Some a =>
      match set_columns fields a with
      | None => Thrown "Invalid value for column"
      | Some a' =>
          let taken :=
            match a_hrQuestionId a' with
            | Some q =>
                existsb (fun b => opt_id_is q (a_hrQuestionId b) && negb (id_is id (a_id b)))
                        (answers s)
            | None => false
            end in
          if taken then Thrown "Unique constraint failed on the fields: (hrQuestionId)"
          else if negb (relation_ok (find_question s) (a_hrQuestionId a')
                        && relation_ok (find_followUp s) (a_hrFollowUpQuestionId a')
                        && relation_ok (find_user s) (Some (a_userId a')))
          then Thrown "Foreign key constraint failed: answer"
          else update_answer s id (fun _ => a')
      end
  end.

(** The result of [auth()] is destructured without being awaited. *)
Definition POST_answer (session : Session) (raw : option JsVal) : M Response :=
  try_catch
    (userId <- prop (auth session) "userId" ;;
     if negb (truthy userId) then respond (error_body "Unauthorized") 401
     else
       body <- req_json raw ;;
       hrQuestionId <- prop body "hrQuestionId" ;;
       hrFollowUpQuestionId <- prop body "hrFollowUpQuestionId" ;;
       userAnswer <- prop body "userAnswer" ;;
       videoUrl <- prop body "videoUrl" ;;
       fetched <- query (fun s => s) ;;
       returned <-
         (if truthy hrQuestionId then
            qid <- arg_id hrQuestionId ;;
            match find_question fetched qid with
            | None => ret (Some (json (error_body "Question not found") 404))
            | Some question =>
                owner <- owner_of_question fetched question ;;
                if negb (strict_eq (JStr owner) userId)
                then ret (Some (json (error_body "Unauthorized") 401))
                else
                  match answer_of_question fetched qid with
                  | Some existingAnswer =>
                      updatedAnswer <-
                        write (fun s =>
                          update_with [("userAnswer", userAnswer); ("videoUrl", videoUrl)]
                                      s (a_id existingAnswer)) ;;
                      ret (Some (json (answer_json updatedAnswer) 200))
                  | None => ret None
                  end
            end
          else if truthy hrFollowUpQuestionId then
            fid <- arg_id hrFollowUpQuestionId ;;
            match find_followUp fetched fid with
            | None => ret (Some (json (error_body "Follow-up question not found") 404))
            | Some followUp =>
                owner <- owner_of_followUp fetched followUp ;;
                if negb (strict_eq (JStr owner) userId)
                then ret (Some (json (error_body "Unauthorized") 401))
                else ret None
            end
          else
            ret (Some (json (error_body
                   "Either hrQuestionId or hrFollowUpQuestionId is required") 400))) ;;
       match returned with
       | Some response => ret response
       | None =>
           hrQuestionId' <- column as_opt_string hrQuestionId ;;
           hrFollowUpQuestionId' <- column as_opt_string hrFollowUpQuestionId ;;
           uid <- arg_id userId ;;
           userAnswer' <- column as_string userAnswer ;;
           videoUrl' <- column as_opt_string videoUrl ;;
           newAnswer <-
             write (fun s => create_answer s (fun id =>
               mk_answer id hrQuestionId' hrFollowUpQuestionId' uid userAnswer' videoUrl'
                         None None [] None None)) ;;
           respond (answer_json newAnswer) 200
       end)
    (fun _ => respond (error_body "Failed to submit answer") 500).

(** The result of [auth()] is destructured without being awaited. *)
Definition PATCH (session : Session) (answerId : JsVal) (raw : option JsVal)
  : M Response :=
  try_catch
    (userId <- prop (auth session) "userId" ;;
     if negb (truthy userId) then respond (error_body "Unauthorized") 401
     else if negb (truthy answerId)
     then respond (error_body "Answer ID is required") 400
     else
       body <- req_json raw ;;
       aid <- arg_id answerId ;;
       fetched <- query (fun s => s) ;;
       match find_answer fetched aid with
       | None => respond (error_body "Answer not found") 404
       | Some answer =>
           let hrQuestion :=
             match a_hrQuestionId answer with
             | Some q => find_question fetched q
             | None => None
             end in
           let followup :=
             match a_hrFollowUpQuestionId answer with
             | Some f => find_followUp fetched f
             | None => None
             end in
           isOwner <-
             match hrQuestion, followup with
             | Some question, _ =>
                 owner <- owner_of_question fetched question ;;
                 ret (strict_eq (JStr owner) userId)
             | None, Some f =>
                 owner <- owner_of_followUp fetched f ;;
                 ret (strict_eq (JStr owner) userId)
             | None, None => ret false
             end ;;
           if negb isOwner then respond (error_body "Unauthorized") 401
           else
             fields <- match body with
                       | JObj fields => ret fields
                       | _ => throw "Invalid value for data"
                       end ;;
             updatedAnswer <- write (fun s => update_with fields s aid) ;;
             respond (answer_json updatedAnswer) 200
       end)
    (fun _ => respond (error_body "Failed to update answer") 500).

End HrRoundRoute.

(** ** The answer route: scoring of main and follow-up answers *)

Module AnswerRoute.
Import Js Db Fx View Parser.
Local Open Scope fx_scope.

(** [x || d] on a nullable integer column. *)
Definition or_default (x : option Z) (d : Z) : Z :=
  match x with
  | Some z => if z =? 0 then d else z
  | None => d
  end.

(** [score / maxScore >= CONFIG.FOLLOWUP_THRESHOLD] with a threshold of
    one half and a non-zero [maxScore]. *)
Definition reaches_threshold (score maxScore : Z) : bool :=
  if 0 <? maxScore then maxScore <=? 2 * score else 2 * score <=? maxScore.

(** [...analysis] spread into the data of an answer. *)
Definition with_analysis (analysis : Analysis) (a : HRUserAnswer) : HRUserAnswer :=
  {| a_id := a_id a;
     a_hrQuestionId := a_hrQuestionId a;
     a_hrFollowUpQuestionId := a_hrFollowUpQuestionId a;
     a_userId := a_userId a;
     a_userAnswer := a_userAnswer a;
     a_videoUrl := a_videoUrl a;
     a_score := Some (score analysis);
     a_evaluationFeedback := Some (evaluationFeedback analysis);
     a_matchedKeyPoints := matchedKeyPoints analysis;
     a_voiceTone := voiceTone analysis;
     a_confidence := confidence analysis |}.

(** [{ userAnswer, videoUrl, ...analysis }] written over an existing answer. *)
Definition resubmitted (userAnswer : string) (videoUrl : option string)
    (analysis : Analysis) (a : HRUserAnswer) : HRUserAnswer :=
  with_analysis analysis
    {| a_id := a_id a;
       a_hrQuestionId := a_hrQuestionId a;
       a_hrFollowUpQuestionId := a_hrFollowUpQuestionId a;
       a_userId := a_userId a;
       a_userAnswer := userAnswer;
       a_videoUrl := videoUrl;
       a_score := a_score a;
       a_evaluationFeedback := a_evaluationFeedback a;
       a_matchedKeyPoints := a_matchedKeyPoints a;
       a_voiceTone := a_voiceTone a;
       a_confidence := a_confidence a |}.

Definition submitted (hrQuestionId followUpId : option Id) (userId : Id)
    (userAnswer : string) (videoUrl : option string) (analysis : Analysis) (id : Id)
  : HRUserAnswer :=
  with_analysis analysis
    {| a_id := id;
       a_hrQuestionId := hrQuestionId;
       a_hrFollowUpQuestionId := followUpId;
       a_userId := userId;
       a_userAnswer := userAnswer;
       a_videoUrl := videoUrl;
       a_score := None;
       a_evaluationFeedback := None;
       a_matchedKeyPoints := [];
       a_voiceTone := None;
       a_confidence := None |}.

(** [hrQuestion.hrInterview?.jobDescription] *)
Definition jobDescription_of (s : Store) (q : HRQuestion) : JsVal :=
  match find_interview s (q_hrInterviewId q) with
  | Some i => JStr (iv_jobDescription i)
  | None => JUndefined
  end.

(** The follow-up row the answer handlers save for a main question. *)
Definition scored_followUp (mainQuestion : HRQuestion) (text : string) (id : Id)
  : HRFollowUpQuestion :=
  {| f_id := id;
     f_mainQuestionId := q_id mainQuestion;
     f_text := text;
     f_category := q_category mainQuestion;
     f_expectedKeyPoints := [];
     f_maxScore := Some (or_default (q_maxScore mainQuestion) DEFAULT_MAX_SCORE / 2);
     f_timeLimit := None |}.

Definition missing (details : string) : JsVal :=
  JObj [("error", JStr "Missing required fields"); ("details", JStr details)].

Definition failure (error details : string) : JsVal :=
  JObj [("error", JStr error); ("details", JStr details)].

Section Model.
Variable gemini : nat -> Prompt -> option string.

(** [AIAnalysisService.analyzeAnswer]: a failed call is caught and
    answered with [null]. *)
Definition analyzeAnswer (question : string) (answer : JsVal)
    (maxScore : option Z) (additionalContext : JsVal) : M (option string) :=
  try_catch
    (text <- generateContent gemini
               (AnalysisPrompt question answer maxScore additionalContext) ;;
     ret (Some text))
    (fun _ => ret None).

(** [AIAnalysisService.generateFollowUpQuestion] *)
Definition generateFollowUpQuestion (mainQuestion : string) (answer : JsVal)
    (context : FollowUpContext) : M (option string) :=
  try_catch
    (text <- generateContent gemini (FollowUpPrompt mainQuestion answer context) ;;
     ret (Some text))
    (fun _ => ret None).

Definition processMainQuestion (session : Session) (raw : option JsVal)
  : M Response :=
  try_catch
    (userId <- prop (await (auth session)) "userId" ;;
     if negb (truthy userId) then respond (error_body "Unauthorized") 401
     else
       body <- req_json raw ;;
       hrQuestionId <- prop body "hrQuestionId" ;;
       userAnswer <- prop body "userAnswer" ;;
       videoUrl <- prop body "videoUrl" ;;
       if negb (truthy hrQuestionId) || negb (truthy userAnswer) then
         respond (missing "hrQuestionId and userAnswer are required") 400
       else
         qid <- arg_id hrQuestionId ;;
         fetched <- query (fun s => s) ;;
         match find_question fetched qid with
         | None => respond (error_body "Question not found") 404
         | Some hrQuestion =>
             let followUpQuestions := followUps_of fetched (q_id hrQuestion) in
             let maxScore := or_default (q_maxScore hrQuestion) DEFAULT_MAX_SCORE in
             analysisText <-
               analyzeAnswer (q_text hrQuestion) userAnswer (Some maxScore)
                             (jobDescription_of fetched hrQuestion) ;;
             let analysis := parseAnalysisResponse analysisText maxScore in
             saved <-
               try_catch
                 (uid <- arg_id userId ;;
                  existingAnswer <-
                    query (fun s => first_answer_of_question_by s qid uid) ;;
                  match existingAnswer with
                  | Some existing =>
                      userAnswer' <- column as_string userAnswer ;;
                      videoUrl' <- column as_opt_string (coalesce videoUrl JNull) ;;
                      hrUserAnswer <-
                        write (fun s =>
                          update_answer s (a_id existing)
                            (resubmitted userAnswer' videoUrl' analysis)) ;;
                      ret (inl hrUserAnswer)
                  | None =>
                      userAnswer' <- column as_string userAnswer ;;
                      hrUserAnswer <-
                        write (fun s =>
                          create_answer s
                            (submitted (Some qid) None uid userAnswer' None analysis)) ;;
                      ret (inl hrUserAnswer)
                  end)
                 (fun e => ret (inr (json (failure "Failed to save answer" e) 500))) ;;
             match saved with
             | inr response => ret response
             | inl hrUserAnswer =>
                 let isHighScoreFollowUp :=
                   reaches_threshold (score analysis) maxScore in
                 nextQuestion <-
                   match followUpQuestions with
                   | first :: _ => ret (Some first)
                   | [] =>
                       let jd := or_else (jobDescription_of fetched hrQuestion) (JStr "") in
                       followUpPrompt <-
                         generateFollowUpQuestion (q_text hrQuestion) userAnswer
                           (if isHighScoreFollowUp then StrongAnswer jd
                            else WeakAnswer jd) ;;
                       match followUpPrompt with
                       | Some text =>
                           if Text.is_empty text then ret None
                           else
                             created <-
                               write (fun s =>
                                 create_followUp s (scored_followUp hrQuestion text)) ;;
                             ret (Some created)
                       | None => ret None
                       end
                   end ;;
                 respond
                   (JObj [ ("success", JBool true);
                           ("hrUserAnswer", answer_json hrUserAnswer);
                           ("analysis", analysis_json analysis);
                           ("nextQuestion",
                            match nextQuestion with
                            | Some f => followUp_json f []
                            | None => JNull
                            end);
                           ("isEligibleForFollowUp", JBool true) ])
                   200
             end
         end)
    (fun e => respond (failure "An unexpected error occurred" e) 500).

Definition processFollowUpQuestion (session : Session) (raw : option JsVal)
  : M Response :=
  try_catch
    (userId <- prop (await (auth session)) "userId" ;;
     if negb (truthy userId) then respond (error_body "Unauthorized") 401
     else
       body <- req_json raw ;;
       hrQuestionId <- prop body "hrQuestionId" ;;
       followUpQuestionId <- prop body "followUpQuestionId" ;;
       userAnswer <- prop body "userAnswer" ;;
       videoUrl <- prop body "videoUrl" ;;
       if (negb (truthy followUpQuestionId) && negb (truthy hrQuestionId))
          || negb (truthy userAnswer)
       then
         respond
           (missing "Either followUpQuestionId or hrQuestionId, and userAnswer are required")
           400
       else
         found <-
           (if truthy followUpQuestionId then
              fid <- arg_id followUpQuestionId ;;
              followUpQuestion <- query (fun s => find_followUp s fid) ;;
              ret (inl followUpQuestion)
            else if truthy hrQuestionId then
              qid <- arg_id hrQuestionId ;;
              fetched <- query (fun s => s) ;;
              match find_question fetched qid with
              | None => ret (inr (json (error_body "Main question not found") 404))
              | Some mainQuestion =>
                  generatedFollowUpText <-
                    generateFollowUpQuestion (q_text mainQuestion) userAnswer
                      (PlainContext (jobDescription_of fetched mainQuestion)) ;;
                  match generatedFollowUpText with
                  | Some text =>
                      if Text.is_empty text then
                        ret (inr (json (error_body "Failed to generate follow-up question")
                                       500))
                      else
                        created <-
                          write (fun s =>
                            create_followUp s (scored_followUp mainQuestion text)) ;;
                        ret (inl (Some created))
                  | None =>
                      ret (inr (json (error_body "Failed to generate follow-up question")
                                     500))
                  end
              end
            else ret (inl None)) ;;
         match found with
         | inr response => ret response
         | inl None =>
             respond
               (error_body "Follow-up question not found or could not be created") 404
         | inl (Some followUpQuestion) =>
             fetched <- query (fun s => s) ;;
             mainQuestion <-
               of_option (find_question fetched (f_mainQuestionId followUpQuestion))
                         "TypeError: cannot read properties" ;;
             analysisText <-
               analyzeAnswer (f_text followUpQuestion) userAnswer
                 (f_maxScore followUpQuestion)
                 (jobDescription_of fetched mainQuestion) ;;
             let analysis :=
               parseAnalysisResponse analysisText
                 (or_default (f_maxScore followUpQuestion) DEFAULT_MAX_SCORE) in
             saved <-
               try_catch
                 (uid <- arg_id userId ;;
                  existingAnswer <-
                    query (fun s =>
                      first_answer_of_followUp_by s (f_id followUpQuestion) uid) ;;
                  userAnswer' <- column as_string userAnswer ;;
                  videoUrl' <- column as_opt_string (or_else videoUrl JNull) ;;
                  hrUserAnswer <-
                    write (fun s =>
                      upsert_answer s (q_id mainQuestion)
                        (resubmitted userAnswer' videoUrl' analysis)
                        (submitted (Some (q_id mainQuestion))
                                   (Some (f_id followUpQuestion))
                                   uid userAnswer' videoUrl' analysis)) ;;
                  ret (inl hrUserAnswer))
                 (fun e =>
                    ret (inr (json (failure "Failed to save follow-up answer" e) 500))) ;;
             match saved with
             | inr response => ret response
             | inl hrUserAnswer =>
                 respond
                   (JObj [ ("success", JBool true);
                           ("hrUserAnswer", answer_json hrUserAnswer);
                           ("analysis", analysis_json analysis);
                           ("followUpQuestion",
                            followUp_json followUpQuestion
                              [("mainQuestion",
                                mainQuestion_json fetched (Some mainQuestion)
                                                  opt_interview)]) ])
                   200
             end
         end)
    (fun e => respond (failure "An unexpected error occurred" e) 500).

End Model.

End AnswerRoute.

(** ** The application: one request, one handler *)

Module App.
Import Js Db Fx.

Inductive Request :=
| InterviewGET (interviewId : JsVal)
| InterviewDELETE (interviewId : JsVal)
| InterviewPOST (body : option JsVal)
| InterviewPATCH (interviewId : JsVal) (body : option JsVal)
| AnswersGET (interviewId : JsVal)
| QuestionsGET (interviewId questionId generateFollowUp : JsVal)
| QuestionsPOST (interviewId : JsVal) (body : option JsVal)
| HrRoundPOST (body : option JsVal)
| FollowUpGET (followupId mainQuestionId : JsVal)
| FollowUpPOST (body : option JsVal)
| AnswerPOST (body : option JsVal)
| AnswerPATCH (answerId : JsVal) (body : option JsVal)
| MainAnswerPOST (body : option JsVal)
| FollowUpAnswerPUT (body : option JsVal).

Section Model.
Variable gemini : nat -> Prompt -> option string.
Variable JSON_parse : string -> option JsVal.

Definition handle (session : Session) (r : Request) : M Response :=
  match r with
  | InterviewGET i => InterviewRoute.GET session i
  | InterviewDELETE i => InterviewRoute.DELETE session i
  | InterviewPOST b => InterviewRoute.POST session b
  | InterviewPATCH i b => InterviewRoute.PATCH session i b
  | AnswersGET i => AnswersRoute.GET i
  | QuestionsGET i q g => QuestionsRoute.GET gemini session i q g
  | QuestionsPOST i b => QuestionsRoute.POST gemini session i b
  | HrRoundPOST b => HrRoundRoute.POST gemini JSON_parse session b
  | FollowUpGET f m => HrRoundRoute.GET session f m
  | FollowUpPOST b => HrRoundRoute.POST_followUp session b
  | AnswerPOST b => HrRoundRoute.POST_answer session b
  | AnswerPATCH a b => HrRoundRoute.PATCH session a b
  | MainAnswerPOST b => AnswerRoute.processMainQuestion gemini session b
  | FollowUpAnswerPUT b => AnswerRoute.processFollowUpQuestion gemini session b
  end.

(** The stores the application can reach from [w0], one request after the
    other; sessions and requests are arbitrary. *)
Inductive reachable (w0 : World) : World -> Prop :=
| reach_start : reachable w0 w0
| reach_step w session r :
    reachable w0 w -> reachable w0 (snd (handle session r w)).
End Model.

(** The response of a handler that returned. *)
Definition response_of (o : Outcome Response * World) : option Response :=
  match fst o with Ok r => Some r | Thrown _ => None end.

End App.

(** ** Relations between the world before and after a computation *)

Module Logic.
Import Js Db Fx.

(** [m] takes every world to one related to it by [R], whether it returns
    or throws. *)
Definition sat {A} (R : World -> World -> Prop) (m : M A) : Prop :=
  forall w, R w (snd (m w)).

Definition reflexive (R : World -> World -> Prop) : Prop := forall w, R w w.

Definition composes (R1 R2 R : World -> World -> Prop) : Prop :=
  forall a b c, R1 a b -> R2 b c -> R a c.

(** [Q] holds of the outcome and of the final world of [m] run from [w]. *)
Definition wp {A} (m : M A) (Q : Outcome A -> World -> Prop) (w : World) : Prop :=
  Q (fst (m w)) (snd (m w)).

(** [l'] is [l] followed by new rows. *)
Definition grows {A} (l l' : list A) : Prop := exists new, l' = (l ++ new)%list.

(** The users, the interviews, the main questions and the follow-up
    questions of [w] are all in [w'], unchanged and in place; interviews
    and questions may have been added after them.  Nothing is said of the
    answers. *)
Definition extends (w w' : World) : Prop :=
  users (store w') = users (store w) /\
  grows (interviews (store w)) (interviews (store w')) /\
  grows (questions (store w)) (questions (store w')) /\
  grows (followUps (store w)) (followUps (store w')).

Definition count_kind (k : CallKind) (l : list ModelCall) : nat :=
  List.length (filter (fun c => kind_eqb (kind_of (prompt c)) k) l).

(** From [w] to [w'] the model was called at most [n] times with a prompt
    of kind [k]. *)
Definition calls_at_most (k : CallKind) (n : nat) (w w' : World) : Prop :=
  exists new, calls w' = (calls w ++ new)%list /\ (count_kind k new <= n)%nat.

(** Every call the model receives next with a prompt of kind [k] fails. *)
Definition model_down_for (gemini : nat -> Prompt -> option string)
    (k : CallKind) (w : World) : Prop :=
  forall p, kind_of p = k -> gemini (List.length (calls w)) p = None.

(** From [w], the run [r] made no call of kind [k], or it answered 500. *)
Definition no_call_or_500 (k : CallKind) (w : World)
    (r : Outcome Response * World) : Prop :=
  exists new,
    calls (snd r) = (calls w ++ new)%list /\
    (count_kind k new = 0%nat \/ exists b, fst r = Ok (json b 500)).

(** Every main question has at most one answer. *)
Definition one_answer_each (s : Store) : Prop :=
  forall q, (List.length (answers_of_question s q) <= 1)%nat.

Definition keeps_one_answer (w w' : World) : Prop :=
  one_answer_each (store w) -> one_answer_each (store w').

(** Every main question has at most [MAX_FOLLOWUP_QUESTIONS] follow-ups. *)
Definition capped (s : Store) : Prop :=
  forall q,
    (List.length (followUps_of s q) <= QuestionsRoute.MAX_FOLLOWUP_QUESTIONS)%nat.

(** [!requestBody[field]] *)
Definition falsy_at (body : JsVal) (field : string) : bool :=
  match get body field with Some v => negb (truthy v) | None => true end.

End Logic.

(** ** Sample data *)

Module Sample.
Import Js Db Fx.

Definition alice : User := {| u_id := "alice"; u_resume := Some "alice.pdf" |}.
Definition bob : User := {| u_id := "bob"; u_resume := Some "bob.pdf" |}.

Definition interview1 : HRInterview :=
  {| iv_id := "i1";
     iv_userId := "alice";
     iv_jobPosition := "Backend engineer";
     iv_jobDescription := "Builds services";
     iv_jobExperience := "3";
     iv_skills := ["Go"];
     iv_difficultyLevel := "medium";
     iv_resumeUrl := None;
     iv_passScore := None;
     iv_totalScore := None |}.

Definition question1 : HRQuestion :=
  {| q_id := "q1";
     q_hrInterviewId := "i1";
     q_text := "Tell me about a conflict in your team.";
     q_category := "Behavioral";
     q_expectedKeyPoints := ["listening"; "resolution"];
     q_maxScore := Some 10;
     q_timeLimit := Some 120 |}.

(** Alice's interview with one question, no follow-up and no answer. *)
Definition store1 : Store :=
  {| users := [alice; bob];
     interviews := [interview1];
     questions := [question1];
     followUps := [];
     answers := [];
     nextId := 1 |}.

Definition answer1 : HRUserAnswer :=
  {| a_id := "a1";
     a_hrQuestionId := Some "q1";
     a_hrFollowUpQuestionId := None;
     a_userId := "alice";
     a_userAnswer := "We talked it through.";
     a_videoUrl := None;
     a_score := Some 7;
     a_evaluationFeedback := Some "Fine";
     a_matchedKeyPoints := ["listening"];
     a_voiceTone := None;
     a_confidence := None |}.

(** The same store after Alice answered the question. *)
Definition store2 : Store :=
  {| users := [alice; bob];
     interviews := [interview1];
     questions := [question1];
     followUps := [];
     answers := [answer1];
     nextId := 1 |}.

Definition world1 : World := {| store := store1; calls := [] |}.
Definition world2 : World := {| store := store2; calls := [] |}.

(** A model that answers every call. *)
Definition model_up (n : nat) (p : Prompt) : option string :=
  match kind_of p with
  | Analyze => Some "Score: 7 Feedback: a clear answer"
  | _ => Some "Can you give a concrete example?"
  end.

(** A model whose every call fails. *)
Definition model_down (n : nat) (p : Prompt) : option string := None.

Definition no_JSON (s : string) : option JsVal := None.

(** The body of an answer to the main question. *)
Definition answer_body (text : string) : option JsVal :=
  Some (JObj [("hrQuestionId", JStr "q1"); ("userAnswer", JStr text)]).

Definition status_of (o : Outcome Response * World) : option Z :=
  match fst o with Ok r => Some (status r) | Thrown _ => None end.

(** Alice answers the main question through the follow-up handler, without
    naming a follow-up question. *)
Definition put_by_alice (w : World) : Outcome Response * World :=
  AnswerRoute.processFollowUpQuestion model_up (Some "alice")
    (answer_body "I spoke to both of them.") w.

Definition after_one_put : World := snd (put_by_alice world1).
Definition after_two_puts : World := snd (put_by_alice after_one_put).
Definition after_three_puts : World := snd (put_by_alice after_two_puts).

(** Bob answers the question Alice has answered. *)
Definition post_by_bob : Outcome Response * World :=
  AnswerRoute.processMainQuestion model_up (Some "bob")
    (answer_body "My own answer.") world2.

(** A reply of the model to the creation prompt: one question with three
    follow-ups, and the JSON it parses to. *)
Definition generated_followUp (text : string) : JsVal :=
  JObj [("text", JStr text); ("maxScore", JNum 5); ("timeLimit", JNum 90)].

Definition generated_json : JsVal :=
  JObj [("questions",
         JArr [JObj [ ("text", JStr "Describe a project you led.");
                      ("category", JStr "Behavioral");
                      ("followUpQuestions",
                       JArr [ generated_followUp "What went wrong?";
                              generated_followUp "What would you change?";
                              generated_followUp "Who disagreed?" ]) ]])].

Definition model_json (n : nat) (p : Prompt) : option string :=
  Some "{ the questions, as JSON }".

Definition parse_generated (s : string) : option JsVal := Some generated_json.

Definition creation_body : option JsVal :=
  Some (JObj [ ("jobPosition", JStr "Backend engineer");
               ("jobDescription", JStr "Builds services");
               ("jobExperience", JNum 3);
               ("difficultyLevel", JStr "medium");
               ("totalQuestions", JNum 1) ]).

(** Alice creates an interview. *)
Definition creation_by_alice : Outcome Response * World :=
  HrRoundRoute.POST model_json parse_generated (Some "alice") creation_body world1.

(** Alice answers the main question while the model is down. *)
Definition post_while_down : Outcome Response * World :=
  AnswerRoute.processMainQuestion model_down (Some "alice")
    (answer_body "I spoke to both of them.") world1.

End Sample.

(** ** What the patterns of the answer parser capture *)

Module Captures.
Import Text Regex Parser.

(** Every character of [s] is in the class [cls]. *)
Definition all_chars (cls : ascii -> bool) (s : string) : bool :=
  forallb cls (list_ascii_of_string s).

(** [rest] is empty or begins with a character outside [cls]: a run of
    [cls] characters stops there. *)
Definition stops (cls : ascii -> bool) (rest : string) : bool :=
  match rest with EmptyString => true | String c _ => negb (cls c) end.

(** [s] does not begin with whitespace. *)
Definition headed (s : string) : bool :=
  match s with EmptyString => true | String c _ => negb (is_space c) end.

Definition key_eqb (a b : Key) : bool :=
  match a, b with
  | KScore, KScore | KFeedback, KFeedback | KKeyPoints, KKeyPoints
  | KVoiceTone, KVoiceTone | KConfidence, KConfidence => true
  | _, _ => false
  end.

(** [analysisText.match(regex)[1]] for the extractor of the key [k]. *)
Definition captured (k : Key) (text : string) : option string :=
  match find (fun e => key_eqb (fst e) k) extractors with
  | Some e => re_exec (snd e) text
  | None => None
  end.

(** [match[1].split(/,|\n/).map(point => point.trim()).filter(Boolean)] *)
Definition key_points (m1 : string) : list string :=
  filter (fun p => negb (is_empty p)) (map trim (split is_comma_or_LF m1)).

End Captures.

(** ** The colour of a score on the results page *)

Module Colors.
Import Results.

(** [x >= y] on binary64; false when either is NaN. *)
Definition fge (x y : spec_float) : bool := SFleb y x.

(** [getScoreColor(score, maxScore)]; a [maxScore] of [null] counts as 0 in
    the division. *)
Definition getScoreColor (score maxScore : Z) : string :=
  let percentage := fmul (fdiv (of_int score) (of_int maxScore)) (of_int 100) in
  if fge percentage (of_int 80) then "text-green-600"
  else if fge percentage (of_int 60) then "text-yellow-600"
  else "text-red-600".

(** The colour by exact arithmetic: green from 80 percent, yellow from 60;
    a score of 0 out of 0 is no percentage at all and is red. *)
Definition exact_color (score maxScore : Z) : string :=
  if (score =? 0) && (maxScore =? 0) then "text-red-600"
  else if 80 * maxScore <=? 100 * score then "text-green-600"
  else if 60 * maxScore <=? 100 * score then "text-yellow-600"
  else "text-red-600".

Definition colors_well_upto (bound : nat) : bool :=
  forallb (fun m =>
             forallb (fun s => String.eqb (getScoreColor (Z.of_nat s) (Z.of_nat m))
                                          (exact_color (Z.of_nat s) (Z.of_nat m)))
                     (seq 0 (S bound)))
          (seq 0 (S bound)).

End Colors.

(** ** The interview page ([hr-interview/[interviewId]/page.jsx]) *)

Module Page.
Import Js Db Fx.

(** The state of the page that decides which question is asked next; the
    chat messages and the recorder are left out. *)
Record PageState := {
  interview : JsVal;
  currentQuestionIndex : nat;
  currentQuestion : JsVal;
  isFollowUp : bool;
  followUpQuestion : JsVal;
  interviewComplete : bool
}.

(** [v.k] where a missing [v] has been excluded or gives [undefined]
    ([v?.k]). *)
Definition field (v : JsVal) (k : string) : JsVal :=
  match get v k with Some x => x | None => JUndefined end.

(** [questions[n]] *)
Definition item (v : JsVal) (n : nat) : JsVal :=
  match v with
  | JArr items => nth n items JUndefined
  | JObj fields => lookup (mk_id n) fields
  | JStr s =>
      match String.get n s with
      | Some c => JStr (String c EmptyString)
      | None => JUndefined
      end
  | _ => JUndefined
  end.

(** [response.ok] *)
Definition ok (r : Response) : bool := (200 <=? status r) && (status r <=? 299).

(** The state [handleSubmitAnswer] leaves after the response [r]: an error
    status, or a body without [analysis], throws and the state stays as it
    is. *)
Definition after_response (st : PageState) (r : Response) : PageState :=
  if negb (ok r) then st
  else
    let data := body r in
    match get data "analysis" with
    | None => st
    | Some analysis =>
        match get analysis "score" with
        | None => st
        | Some _ =>
            if truthy (field data "nextQuestion") || truthy (field data "followUpQuestion")
            then
              let nextQuestion :=
                or_else (field data "nextQuestion") (field data "followUpQuestion") in
              {| interview := interview st;
                 currentQuestionIndex := currentQuestionIndex st;
                 currentQuestion := currentQuestion st;
                 isFollowUp := true;
                 followUpQuestion := nextQuestion;
                 interviewComplete := interviewComplete st |}
            else
              let nextIndex := S (currentQuestionIndex st) in
              let questions := field (interview st) "questions" in
              if truthy questions && truthy (item questions nextIndex) then
                {| interview := interview st;
                   currentQuestionIndex := nextIndex;
                   currentQuestion := item questions nextIndex;
                   isFollowUp := false;
                   followUpQuestion := JNull;
                   interviewComplete := interviewComplete st |}
              else
                {| interview := interview st;
                   currentQuestionIndex := currentQuestionIndex st;
                   currentQuestion := currentQuestion st;
                   isFollowUp := isFollowUp st;
                   followUpQuestion := followUpQuestion st;
                   interviewComplete := true |}
        end
    end.

Section Model.
Variable gemini : nat -> Prompt -> option string.
Variable JSON_parse : string -> option JsVal.

(** [handleSubmitAnswer]: a blank answer is not sent; the others go to the
    answer route, with PUT for a follow-up and POST for a main question. *)
Definition handleSubmitAnswer (session : Session) (st : PageState)
    (userAnswer : string) (videoUrl : JsVal) (w : World) : PageState * World :=
  if Text.is_empty (Text.trim userAnswer) then (st, w)
  else
    let questionForAnswer :=
      if isFollowUp st then followUpQuestion st else currentQuestion st in
    if negb (truthy questionForAnswer) then (st, w)
    else
      let id := field questionForAnswer "id" in
      let request :=
        if isFollowUp st then
          App.FollowUpAnswerPUT
            (Some (JObj [ ("followUpQuestionId", id);
                          ("userAnswer", JStr userAnswer);
                          ("videoUrl", videoUrl) ]))
        else
          App.MainAnswerPOST
            (Some (JObj [ ("hrQuestionId", id);
                          ("userAnswer", JStr userAnswer);
                          ("videoUrl", videoUrl) ])) in
      match App.handle gemini JSON_parse session request w with
      | (Ok r, w') => (after_response st r, w')
      | (Thrown _, w') => (st, w')
      end.
End Model.

End Page.

(** ** Predicates and relations of the further properties *)

Module Rel.
Import Js Db Fx Logic.

(** The one route that never asks who the caller is. *)
Definition asks_no_session (r : App.Request) : bool :=
  match r with App.AnswersGET _ => true | _ => false end.

(** The world after is the world before. *)
Definition same (w w' : World) : Prop := w' = w.


(** The statuses the handlers answer with. *)
Definition statuses : list Z := [200; 201; 400; 401; 404; 500].

(** The run returned a response, with one of these statuses. *)
Definition responded (x : Outcome Response * World) : Prop :=
  exists r, fst x = Ok r /\ In (status r) statuses.

(** The text the answers GET shows for an answer: [null] for none, and for
    an empty one. *)
Definition shown_answer (o : option HRUserAnswer) : JsVal :=
  match o with
  | Some a => if Text.is_empty (a_userAnswer a) then JNull else JStr (a_userAnswer a)
  | None => JNull
  end.

Section Model.
Variable gemini : nat -> Prompt -> option string.

(** The analysis [processMainQuestion] computes for an answer to [q] in the
    world [w]: the reply of the model to the scoring prompt, parsed. *)
Definition main_analysis (w : World) (q : HRQuestion) (userAnswer : JsVal)
  : Parser.Analysis :=
  let maxScore := AnswerRoute.or_default (q_maxScore q) Parser.DEFAULT_MAX_SCORE in
  Parser.parseAnalysisResponse
    (gemini (List.length (calls w))
       (AnalysisPrompt (q_text q) userAnswer (Some maxScore)
          (AnswerRoute.jobDescription_of (store w) q)))
    maxScore.

(** The analysis [processFollowUpQuestion] computes for an answer to the
    follow-up [f] of the main question [q] in the world [w]. *)
Definition followUp_analysis (w : World) (f : HRFollowUpQuestion) (q : HRQuestion)
    (userAnswer : JsVal) : Parser.Analysis :=
  Parser.parseAnalysisResponse
    (gemini (List.length (calls w))
       (AnalysisPrompt (f_text f) userAnswer (f_maxScore f)
          (AnswerRoute.jobDescription_of (store w) q)))
    (AnswerRoute.or_default (f_maxScore f) Parser.DEFAULT_MAX_SCORE).
End Model.

(** *** Interview creation *)

(** A creation request the handler sends on to the model: every required
    field truthy, and skills that are absent or an array. *)
Definition complete (fields : list (string * JsVal)) : bool :=
  forallb (fun field => truthy (lookup field fields)) HrRoundRoute.requiredFields
  && match lookup "skills" fields with
     | JUndefined | JNull | JArr _ => true
     | _ => false
     end.

(** The interview row the creation handler writes for the request of the
    user [u]; [None] when a field has not the type of its column. *)
Definition requested_interview (u : Id) (fields : list (string * JsVal)) (id : Id)
  : option HRInterview :=
  match as_string (lookup "jobPosition" fields),
        as_string (lookup "jobDescription" fields),
        as_strings (or_else (lookup "skills" fields) (JArr [])),
        as_string (lookup "difficultyLevel" fields),
        as_opt_string (lookup "resumeUrl" fields) with
  | Some jobPosition, Some jobDescription, Some skills, Some difficultyLevel,
    Some resumeUrl =>
      Some {| iv_id := id;
              iv_userId := u;
              iv_jobPosition := jobPosition;
              iv_jobDescription := jobDescription;
              iv_jobExperience := to_String (lookup "jobExperience" fields);
              iv_skills := skills;
              iv_difficultyLevel := difficultyLevel;
              iv_resumeUrl := resumeUrl;
              iv_passScore := None;
              iv_totalScore := None |}
  | _, _, _, _, _ => None
  end.

(** [chain step items w w']: [w'] is reached from [w] by one [step] per
    item, in order. *)
Fixpoint chain {A} (step : A -> World -> World -> Prop) (items : list A)
    (w w' : World) : Prop :=
  match items with
  | [] => w' = w
  | x :: rest => exists w1, step x w w1 /\ chain step rest w1 w'
  end.

(** What the handler adds for one generated follow-up of [mainQuestion]. *)
Definition adds_followUp (mainQuestion : HRQuestion) (followUp : JsVal)
    (w w' : World) : Prop :=
  exists row,
    f_mainQuestionId row = q_id mainQuestion /\
    get followUp "text" = Some (JStr (f_text row)) /\
    store w' = with_followUps (store w) (followUps (store w) ++ [row])
                              (S (nextId (store w))) /\
    calls w' = calls w.

(** What the handler adds for one generated question of [hrInterview]: the
    question and its follow-ups. *)
Definition adds_question (hrInterview : HRInterview) (question : JsVal)
    (w w' : World) : Prop :=
  exists row rows,
    q_hrInterviewId row = iv_id hrInterview /\
    get question "text" = Some (JStr (q_text row)) /\
    Forall (fun f => f_mainQuestionId f = q_id row) rows /\
    users (store w') = users (store w) /\
    interviews (store w') = interviews (store w) /\
    questions (store w') = (questions (store w) ++ [row])%list /\
    followUps (store w') = (followUps (store w) ++ rows)%list /\
    answers (store w') = answers (store w) /\
    calls w' = calls w.




(** *** The page and the answer route *)

(** A call for a follow-up question that gave none: it failed, or its reply
    was empty. *)
Definition gave_no_followUp (c : ModelCall) : Prop :=
  kind_of (prompt c) = FollowUp /\ (reply c = None \/ reply c = Some "").

(** The page went to another question, or finished the interview. *)
Definition moved (st st' : Page.PageState) : Prop :=
  Page.currentQuestionIndex st' <> Page.currentQuestionIndex st
  \/ Page.interviewComplete st' <> Page.interviewComplete st.

(** The page stays in follow-up mode, on the question it was on. *)
Definition stays_on_followUp (st st' : Page.PageState) : Prop :=
  Page.isFollowUp st' = true /\
  Page.currentQuestionIndex st' = Page.currentQuestionIndex st /\
  Page.interviewComplete st' = Page.interviewComplete st /\
  get (Page.followUpQuestion st') "id" = get (Page.followUpQuestion st) "id".

End Rel.

(** ** More sample data *)

Module Scenario.
Import Js Db Fx.

(** The fields of Alice's creation request. *)
Definition creation_fields : list (string * JsVal) :=
  [ ("jobPosition", JStr "Backend engineer");
    ("jobDescription", JStr "Builds services");
    ("jobExperience", JNum 3);
    ("difficultyLevel", JStr "medium");
    ("totalQuestions", JNum 1) ].


(** The three generated follow-ups of [Sample.generated_json]. *)
Definition generated_items : list JsVal :=
  [JObj [ ("text", JStr "Describe a project you led.");
          ("category", JStr "Behavioral");
          ("followUpQuestions",
           JArr [ Sample.generated_followUp "What went wrong?";
                  Sample.generated_followUp "What would you change?";
                  Sample.generated_followUp "Who disagreed?" ]) ]].


(** The body of an answer to a main question or to a follow-up. *)
Definition answer_fields (key id text : string) : list (string * JsVal) :=
  [(key, JStr id); ("userAnswer", JStr text)].

(** The page on the first question of Alice's interview. *)
Definition page_on_question : Page.PageState :=
  {| Page.interview :=
       JObj [("questions", JArr [View.question_json Sample.question1 []])];
     Page.currentQuestionIndex := 0;
     Page.currentQuestion := View.question_json Sample.question1 [];
     Page.isFollowUp := false;
     Page.followUpQuestion := JNull;
     Page.interviewComplete := false |}.

(** The follow-up the first PUT of [Sample.put_by_alice] created. *)
Definition followUp1 : HRFollowUpQuestion :=
  {| f_id := "1";
     f_mainQuestionId := "q1";
     f_text := "Can you give a concrete example?";
     f_category := "Behavioral";
     f_expectedKeyPoints := [];
     f_maxScore := Some 5;
     f_timeLimit := None |}.

(** The page on that follow-up. *)
Definition page_on_followUp : Page.PageState :=
  {| Page.interview :=
       JObj [("questions", JArr [View.question_json Sample.question1 []])];
     Page.currentQuestionIndex := 0;
     Page.currentQuestion := View.question_json Sample.question1 [];
     Page.isFollowUp := true;
     Page.followUpQuestion := View.followUp_json followUp1 [];
     Page.interviewComplete := false |}.

End Scenario.


(** * Properties *)

Import Text Regex Parser.

(** ** The answer parser *)

Lemma take_while_class cls s c :
  In c (list_ascii_of_string (take_while cls s)) -> cls c = true.
Proof.
  induction s as [|a s IH]; simpl; [tauto|].
  destruct (cls a) eqn:E; simpl; [|tauto].
  intros [<-|H]; auto.
Qed.

Lemma ws_then_capture_class cls s cap c :
  ws_then_capture cls s = Some cap ->
  In c (list_ascii_of_string cap) -> cls c = true.
Proof.
  revert cap. induction s as [|a s IH]; simpl; intros cap H Hin; [discriminate|].
  assert (Hhere : (if cls a then Some (String a (take_while cls s)) else None)
                  = Some cap -> cls c = true).
  { destruct (cls a) eqn:E; [|discriminate].
    intros [= <-]. simpl in Hin. destruct Hin as [<-|Hin]; auto.
    eapply take_while_class; eauto. }
  destruct (is_space a).
  - destruct (ws_then_capture cls s) as [cap'|] eqn:E.
    + injection H as <-. eapply IH; eauto.
    + auto.
  - auto.
Qed.

Lemma match_here_class p s cap c :
  match_here p s = Some cap ->
  In c (list_ascii_of_string cap) -> capture_class p c = true.
Proof.
  unfold match_here.
  destruct (starts_ci (literal p) s) as [rest|]; [|discriminate].
  apply ws_then_capture_class.
Qed.

Lemma re_exec_class p s cap c :
  re_exec p s = Some cap ->
  In c (list_ascii_of_string cap) -> capture_class p c = true.
Proof.
  induction s as [|a s IH]; simpl;
    destruct (match_here p _) as [cap'|] eqn:E; intros H; try discriminate;
    try (injection H as <-; eapply match_here_class; eassumption).
  exact (IH H).
Qed.

Lemma digit_value_range c : is_digit c = true -> 0 <= digit_value c <= 9.
Proof.
  unfold is_digit, digit_value. cbv zeta.
  generalize (code c); intros n.
  rewrite andb_true_iff, !N.leb_le. lia.
Qed.

Lemma parse_digits_nonneg s :
  forall acc, 0 <= acc ->
  (forall c, In c (list_ascii_of_string s) -> is_digit c = true) ->
  0 <= parse_digits acc s.
Proof.
  induction s as [|a s IH]; cbn [parse_digits list_ascii_of_string];
    intros acc Hacc Hd; [assumption|].
  apply IH.
  - pose proof (digit_value_range a (Hd a (or_introl eq_refl))). lia.
  - intros c Hc. apply Hd. now right.
Qed.

(** *** Rounding to binary64 *)

(** The rounding written out in [Binary64.nearest] is the one of the
    library's IEEE 754 model on every probe. *)
Lemma nearest_agrees_with_SpecFloat :
  forallb Binary64.agree Binary64.probes = true.
Proof. vm_compute. reflexivity. Qed.

Lemma nearest_small n : n < 2 ^ 53 -> Binary64.nearest n = n.
Proof. intros H. unfold Binary64.nearest. apply Z.ltb_lt in H. now rewrite H. Qed.

Lemma nearest_large n : 2 ^ 53 <= n -> 2 ^ 53 <= Binary64.nearest n.
Proof.
  intros H. unfold Binary64.nearest.
  destruct (Z.ltb_spec n (2 ^ 53)) as [Hlt|_]; [lia|]. cbv zeta.
  assert (Hn : 0 < n) by lia.
  pose proof (Z.log2_spec n Hn) as [Hlo _].
  assert (Hl : 53 <= Z.log2 n) by (apply Z.log2_le_pow2; lia).
  set (e := Z.log2 n - 52) in *.
  assert (He : 0 < e) by (unfold e; lia).
  assert (Hp : 0 < 2 ^ e) by (apply Z.pow_pos_nonneg; lia).
  assert (Hq : 2 ^ 52 <= n / 2 ^ e).
  { apply Z.div_le_lower_bound; [exact Hp|].
    rewrite <- Z.pow_add_r by lia. replace (e + 52) with (Z.log2 n) by (unfold e; lia).
    exact Hlo. }
  assert (Hs : 2 ^ 53 <= 2 ^ 52 * 2 ^ e).
  { rewrite <- Z.pow_add_r by lia. apply Z.pow_le_mono_r; lia. }
  destruct (_ || _); nia.
Qed.

Lemma nearest_nonneg n : 0 <= n -> 0 <= Binary64.nearest n.
Proof.
  intros H. destruct (Z.lt_ge_cases n (2 ^ 53)) as [Hs|Hl].
  - now rewrite nearest_small.
  - pose proof (nearest_large n Hl). lia.
Qed.

(** [Math.min] of a number read from non-negative digits and of a
    non-negative [maxScore] lies between 0 and [maxScore]. *)
Lemma Math_min_bounds n maxScore :
  0 <= n -> 0 <= maxScore ->
  0 <= Math_min (Binary64.of_nat_literal n) maxScore <= maxScore.
Proof.
  intros Hn Hm. unfold Math_min, Binary64.of_nat_literal.
  pose proof (nearest_nonneg n Hn).
  destruct (2 ^ 1024 <=? Binary64.nearest n); lia.
Qed.

(** Up to [2 ^ 53] the cap hides the rounding: the result is the minimum
    with the exact integer. *)
Lemma Math_min_exact n maxScore :
  maxScore <= 2 ^ 53 ->
  Math_min (Binary64.of_nat_literal n) maxScore = Z.min n maxScore.
Proof.
  intros Hm. unfold Math_min, Binary64.of_nat_literal.
  destruct (Z.lt_ge_cases n (2 ^ 53)) as [Hs|Hl].
  - rewrite (nearest_small n Hs).
    destruct (Z.leb_spec (2 ^ 1024) n) as [Hbig|_]; [|reflexivity].
    assert (2 ^ 53 < 2 ^ 1024) by (apply Z.pow_lt_mono_r; lia). lia.
  - pose proof (nearest_large n Hl).
    destruct (2 ^ 1024 <=? Binary64.nearest n); lia.
Qed.

Lemma score_capture_nonneg text m1 :
  re_exec score_pattern text = Some m1 -> 0 <= decimal_value m1.
Proof.
  intros H. apply parse_digits_nonneg; [lia|].
  intros c Hc. exact (re_exec_class _ _ _ _ H Hc).
Qed.

Lemma ws_then_capture_nonempty cls s cap : ws_then_capture cls s = Some cap -> cap <> "".
Proof.
  revert cap. induction s as [|a s IH]; cbn; intros cap H; [discriminate|].
  assert (Hhere : (if cls a then Some (String a (take_while cls s)) else None) = Some cap
                  -> cap <> "").
  { destruct (cls a); [|discriminate]. intros [= <-]. discriminate. }
  destruct (is_space a); [|auto].
  destruct (ws_then_capture cls s) as [cap'|]; [|auto].
  injection H as <-. now apply IH.
Qed.

(** A capture is never empty: the test [match[1]] of the loop always
    passes. *)
Lemma re_exec_nonempty p s cap : re_exec p s = Some cap -> is_empty cap = false.
Proof.
  induction s as [|a s IH]; cbn; destruct (match_here p _) as [cap'|] eqn:E;
    intros H; try discriminate.
  all: try (injection H as <-; unfold match_here in E;
            destruct (starts_ci _ _); [|discriminate];
            apply ws_then_capture_nonempty in E;
            destruct cap'; [congruence|reflexivity]).
  auto.
Qed.

(** The score of a non-empty text is decided by the first match of the
    score pattern. *)
Lemma score_by_capture (text : string) (maxScore : Z) :
  text <> "" ->
  score (parseAnalysisResponse (Some text) maxScore)
  = match re_exec score_pattern text with
    | Some m1 => Math_min (parseInt m1) maxScore
    | None => maxScore / 2
    end.
Proof.
  intros Hne. destruct text as [|c0 t0]; [congruence|].
  unfold parseAnalysisResponse.
  cbn [is_empty extractors fold_left].
  unfold extract_step. cbn [fst snd].
  repeat match goal with
         | |- context [re_exec ?p ?t] =>
             let E := fresh "E" in
             destruct (re_exec p t) as [?|] eqn:E;
             [rewrite (re_exec_nonempty _ _ _ E)|]
         end.
  all: reflexivity.
Qed.

Lemma same_field_refl k r : same_field k r r.
Proof. destruct k; reflexivity. Qed.

Lemma same_field_trans k r1 r2 r3 :
  same_field k r1 r2 -> same_field k r2 r3 -> same_field k r1 r3.
Proof. destruct k; simpl; congruence. Qed.

Lemma extract_step_same_field text maxScore k r e :
  (fst e = k -> re_exec (snd e) text = None) ->
  same_field k r (extract_step text maxScore r e).
Proof.
  intros H. unfold extract_step.
  destruct (re_exec (snd e) text) as [m1|] eqn:E; [|apply same_field_refl].
  destruct (is_empty m1); [apply same_field_refl|].
  destruct e as [k' p]. cbn [fst snd] in *.
  destruct k, k'; try reflexivity; specialize (H eq_refl); congruence.
Qed.

Lemma extract_all_same_field text maxScore k es :
  forall r,
  (forall e, In e es -> fst e = k -> re_exec (snd e) text = None) ->
  same_field k r (fold_left (extract_step text maxScore) es r).
Proof.
  induction es as [|e es IH]; intros r H; cbn [fold_left].
  - apply same_field_refl.
  - eapply same_field_trans.
    + apply extract_step_same_field. intros Hk. apply H; [now left|exact Hk].
    + apply IH. intros e' Hin. apply H. now right.
Qed.

Lemma absent_same_field text maxScore k r :
  absent k text ->
  same_field k r (fold_left (extract_step text maxScore) extractors r).
Proof.
  intros H. apply extract_all_same_field.
  intros [k' p] Hin Hk. cbn [fst snd] in *. subst k'. now apply H.
Qed.

(** C5. For every [maxScore], [parseAnalysisResponse] applied to a null (or
    empty) analysis text returns the defaults: score [floor(maxScore / 2)],
    the feedback "Unable to generate detailed analysis.", no key points, and
    null voice tone and confidence.  Applied to a text in which the
    extraction pattern of a field is absent, it returns the default of that
    field, whatever the other patterns match: score [floor(maxScore / 2)],
    the feedback "No specific feedback provided.", no key points, null voice
    tone, null confidence. *)
Theorem parseAnalysisResponse_defaults (maxScore : Z) :
  let unable :=
    {| score := maxScore / 2;
       evaluationFeedback := "Unable to generate detailed analysis.";
       matchedKeyPoints := [];
       voiceTone := None;
       confidence := None |} in
  parseAnalysisResponse None maxScore = unable /\
  parseAnalysisResponse (Some "") maxScore = unable /\
  forall text, text <> "" ->
    let r := parseAnalysisResponse (Some text) maxScore in
    (absent KScore text -> score r = maxScore / 2) /\
    (absent KFeedback text ->
       evaluationFeedback r = "No specific feedback provided.") /\
    (absent KKeyPoints text -> matchedKeyPoints r = []) /\
    (absent KVoiceTone text -> voiceTone r = None) /\
    (absent KConfidence text -> confidence r = None).
Proof.
  cbv zeta. split; [reflexivity|]. split; [reflexivity|].
  intros text Hne.
  unfold parseAnalysisResponse.
  destruct text as [|c text']; [congruence|].
  cbn [is_empty].
  split; [|split; [|split; [|split]]]; intros H;
    exact (absent_same_field _ maxScore _ _ H).
Qed.

Lemma absent_score_example : absent KScore "Feedback: fine".
Proof.
  intros p Hin. simpl in Hin.
  repeat (destruct Hin as [Hin|Hin]; [try discriminate|]); [|contradiction].
  injection Hin as <-. reflexivity.
Defined.

Lemma parseAnalysisResponse_defaults_witness :
  score (parseAnalysisResponse (Some "Feedback: fine") 10) = 5.
Proof.
  refine (proj1 (proj2 (proj2 (parseAnalysisResponse_defaults 10))
                   "Feedback: fine" _) absent_score_example).
  discriminate.
Defined.

Lemma half_within m : 0 <= m -> 0 <= m / 2 <= m.
Proof.
  intros H. pose proof (Z.div_pos m 2 H ltac:(lia)).
  pose proof (Z.mul_div_le m 2 ltac:(lia)). lia.
Qed.

Lemma extract_step_score_bounds text maxScore r e :
  In e extractors ->
  0 <= maxScore ->
  0 <= score r <= maxScore ->
  0 <= score (extract_step text maxScore r e) <= maxScore.
Proof.
  intros Hin Hm Hr. unfold extract_step.
  destruct (re_exec (snd e) text) as [m1|] eqn:E; [|exact Hr].
  destruct (is_empty m1); [exact Hr|].
  destruct e as [k p]. cbn [fst snd] in *.
  destruct k; cbn [assign score]; try exact Hr.
  assert (p = score_pattern) as ->.
  { simpl in Hin. repeat (destruct Hin as [Hin|Hin]; [congruence|]). contradiction. }
  apply Math_min_bounds; [exact (score_capture_nonneg _ _ E)|exact Hm].
Qed.

Lemma extract_all_score_bounds text maxScore es :
  forall r,
  (forall e, In e es -> In e extractors) ->
  0 <= maxScore ->
  0 <= score r <= maxScore ->
  0 <= score (fold_left (extract_step text maxScore) es r) <= maxScore.
Proof.
  induction es as [|e es IH]; intros r Hin Hm Hr; cbn [fold_left]; [exact Hr|].
  apply IH; [|exact Hm|].
  - intros e' H. apply Hin. now right.
  - apply extract_step_score_bounds; [apply Hin; now left|exact Hm|exact Hr].
Qed.

(** C10. For every non-negative integer [maxScore] and every analysis text,
    null included, the score [parseAnalysisResponse] returns is a
    non-negative integer that does not exceed [maxScore].  It is
    [Math.min(parseInt(N), maxScore)] for the digits [N] of the first
    "Score: N" in the text, and the fallback [floor(maxScore / 2)] when the
    text is null or has no "Score: N". *)
Theorem parseAnalysisResponse_score_bounds (maxScore : Z)
    (analysisText : option string) :
  0 <= maxScore ->
  let r := parseAnalysisResponse analysisText maxScore in
  let fallback := maxScore / 2 in
  0 <= score r <= maxScore /\
  2 * fallback <= maxScore < 2 * fallback + 2 /\
  score r = match analysisText with
            | None => fallback
            | Some text =>
                match re_exec score_pattern text with
                | Some N => Math_min (parseInt N) maxScore
                | None => fallback
                end
            end.
Proof.
  intros Hm. cbv zeta. pose proof (half_within maxScore Hm) as Hhalf.
  split; [|split].
  - unfold parseAnalysisResponse.
    destruct analysisText as [text|]; [|exact Hhalf].
    destruct (is_empty text); [exact Hhalf|].
    apply extract_all_score_bounds; [auto|exact Hm|exact Hhalf].
  - pose proof (Z.div_mod maxScore 2 ltac:(lia)).
    pose proof (Z.mod_pos_bound maxScore 2 ltac:(lia)). lia.
  - destruct analysisText as [text|]; [|reflexivity].
    destruct text as [|c text']; [reflexivity|].
    apply score_by_capture. discriminate.
Qed.

Lemma parseAnalysisResponse_score_bounds_witness :
  let r := parseAnalysisResponse (Some "Score: 42") 10 in
  0 <= score r <= 10 /\
  2 * (10 / 2) <= 10 < 2 * (10 / 2) + 2 /\
  score r = match re_exec score_pattern "Score: 42" with
            | Some N => Math_min (parseInt N) 10
            | None => 10 / 2
            end.
Proof.
  apply (parseAnalysisResponse_score_bounds 10 (Some "Score: 42")). lia.
Defined.

(** ** The results page *)

Import Results.

Lemma rounds_well_upto_200 : rounds_well_upto 200 = true.
Proof. vm_compute. reflexivity. Qed.

Lemma rounds_well_upto_spec bound :
  rounds_well_upto bound = true ->
  forall t m, 0 <= t <= m -> m <= Z.of_nat bound -> rounds_well t m = true.
Proof.
  unfold rounds_well_upto. intros H t m Ht Hm.
  rewrite forallb_forall in H.
  specialize (H (Z.to_nat m)). rewrite forallb_forall in H.
  specialize (fun pf => H pf (Z.to_nat t)).
  rewrite !Z2Nat.id in H by lia.
  apply H; apply in_seq; lia.
Qed.

Lemma rounds_well_bounded t m :
  0 <= t <= m -> m <= 200 -> rounds_well t m = true.
Proof.
  intros Ht Hm.
  apply (rounds_well_upto_spec 200 rounds_well_upto_200 t m Ht).
  exact Hm.
Qed.

Lemma same_float_eq x y : same_float x y = true -> x = y.
Proof.
  destruct x, y; cbn; try discriminate; try reflexivity.
  - intros H. apply Bool.eqb_prop in H. now subst.
  - intros H. apply Bool.eqb_prop in H. now subst.
  - intros H. apply andb_true_iff in H as [H He]. apply andb_true_iff in H as [Hs Hm].
    apply Bool.eqb_prop in Hs. apply Pos.eqb_eq in Hm. apply Z.eqb_eq in He.
    now subst.
Qed.

Lemma adds_exactly_upto_200 : adds_exactly_upto 200 = true.
Proof. vm_compute. reflexivity. Qed.

Lemma small_sums a b :
  0 <= a -> 0 <= b -> a + b <= 200 ->
  fadd (of_int a) (of_int b) = of_int (a + b) /\ fgt0 (of_int a) = (0 <? a).
Proof.
  intros Ha Hb Hab. pose proof adds_exactly_upto_200 as H.
  unfold adds_exactly_upto in H. rewrite forallb_forall in H.
  specialize (H (Z.to_nat a)). rewrite andb_true_iff, forallb_forall in H.
  destruct H as [Hadd Hpos]; [apply in_seq; lia|].
  specialize (Hadd (Z.to_nat b)).
  rewrite Nat2Z.inj_add, !Z2Nat.id in Hadd by lia.
  rewrite Z2Nat.id in Hpos by lia.
  split.
  - apply same_float_eq, Hadd, in_seq. lia.
  - now apply Bool.eqb_prop.
Qed.

(** Up to 200, the binary64 sum of the page is the sum of the
    specification. *)
Lemma float_sum_exact (f : RQuestion -> Z) qs :
  Forall (fun q => 0 <= f q) qs ->
  forall acc, 0 <= acc -> acc + sum_over f qs <= 200 ->
  fold_left (fun sum question => fadd sum (of_int (f question))) qs (of_int acc)
  = of_int (acc + sum_over f qs).
Proof.
  induction 1 as [|q qs Hq Hqs IH]; intros acc Hacc Hsum;
    cbn [fold_left sum_over fold_right] in *.
  - f_equal. lia.
  - assert (0 <= sum_over f qs).
    { clear -Hqs. induction Hqs; cbn [sum_over fold_right]; [lia|].
      unfold sum_over in *. lia. }
    unfold sum_over in *.
    destruct (small_sums acc (f q) Hacc Hq ltac:(lia)) as [-> _].
    rewrite IH by lia. f_equal. lia.
Qed.





(** ** Handlers that do not await [auth()] *)

Import Js Db Fx.

(** C9. Whatever the session, the store and the request, the handlers that
    destructure the result of [auth()] without awaiting it (the DELETE and
    the POST of the interview route, the follow-up creation POST and the
    answer PATCH of the hrRound route) answer 401 "Unauthorized" and leave
    the store as it is. *)
Theorem unawaited_auth_is_unauthorized (session : Session) (w : World) :
  let unauthorized := (Ok (json (error_body "Unauthorized") 401), w) in
  (forall interviewId, InterviewRoute.DELETE session interviewId w = unauthorized) /\
  (forall raw, InterviewRoute.POST session raw w = unauthorized) /\
  (forall raw, HrRoundRoute.POST_followUp session raw w = unauthorized) /\
  (forall answerId raw, HrRoundRoute.PATCH session answerId raw w = unauthorized).
Proof.
  cbv zeta. split; [|split; [|split]]; intros; lazy; reflexivity.
Qed.

(** The interview PATCH and the answer POST of the hrRound route share the
    pattern, with the same effect. *)
Lemma unawaited_auth_elsewhere (session : Session) (w : World) :
  (forall interviewId raw,
     InterviewRoute.PATCH session interviewId raw w
     = (Ok (json (error_body "Unauthorized") 401), w)) /\
  (forall raw,
     HrRoundRoute.POST_answer session raw w
     = (Ok (json (error_body "Unauthorized") 401), w)).
Proof. split; intros; reflexivity. Qed.

(** ** Rules for [sat] *)

Import Logic.
Local Open Scope fx_scope.


Section SatRules.
Context {R : World -> World -> Prop}.
Hypothesis R_refl : reflexive R.

Lemma sat_ret {A} (a : A) : sat R (ret a).
Proof. intros w. apply R_refl. Qed.

Lemma sat_throw {A} e : sat R (@throw A e).
Proof. intros w. apply R_refl. Qed.

Lemma sat_query {A} (f : Store -> A) : sat R (query f).
Proof. intros w. apply R_refl. Qed.

Lemma sat_of_option {A} (o : option A) e : sat R (of_option o e).
Proof. destruct o; [apply sat_ret|apply sat_throw]. Qed.

Lemma sat_prop v k : sat R (prop v k).
Proof. apply sat_of_option. Qed.

Lemma sat_arg_id v : sat R (arg_id v).
Proof. apply sat_of_option. Qed.

Lemma sat_column {A} (check : JsVal -> option A) v : sat R (column check v).
Proof. apply sat_of_option. Qed.

Lemma sat_req_json raw : sat R (req_json raw).
Proof. apply sat_of_option. Qed.

Lemma sat_respond b st : sat R (respond b st).
Proof. apply sat_ret. Qed.

(** A computation that leaves the world as it is. *)
Lemma sat_unchanged {A} (m : M A) :
  (forall w, snd (m w) = w) -> sat R m.
Proof. intros H w. rewrite H. apply R_refl. Qed.
End SatRules.

Lemma sat_bind {A B} (R1 R2 R : World -> World -> Prop) (m : M A) (k : A -> M B) :
  composes R1 R2 R -> reflexive R2 ->
  sat R1 m -> (forall a, sat R2 (k a)) -> sat R (bind m k).
Proof.
  intros Hc Hr Hm Hk w. unfold bind.
  specialize (Hm w). destruct (m w) as [[a|e] w1]; cbn [snd] in *.
  - eapply Hc; [exact Hm|apply Hk].
  - eapply Hc; [exact Hm|apply Hr].
Qed.

Lemma sat_try_catch {A} (R1 R2 R : World -> World -> Prop) (m : M A) h :
  composes R1 R2 R -> reflexive R2 ->
  sat R1 m -> (forall e, sat R2 (h e)) -> sat R (try_catch m h).
Proof.
  intros Hc Hr Hm Hh w. unfold try_catch.
  specialize (Hm w). destruct (m w) as [[a|e] w1]; cbn [snd] in *.
  - eapply Hc; [exact Hm|apply Hr].
  - eapply Hc; [exact Hm|apply Hh].
Qed.

Lemma sat_for_each {A} (R : World -> World -> Prop) (items : list A) body :
  composes R R R -> reflexive R ->
  (forall x, sat R (body x)) -> sat R (for_each items body).
Proof.
  intros Hc Hr Hb. induction items as [|x items IH]; cbn [for_each].
  - now apply sat_ret.
  - eapply sat_bind; eauto.
Qed.

Lemma sat_write {A} (R : World -> World -> Prop) (f : Store -> Outcome (A * Store)) :
  reflexive R ->
  (forall s c a s', f s = Ok (a, s') ->
     R {| store := s; calls := c |} {| store := s'; calls := c |}) ->
  sat R (write f).
Proof.
  intros Hr H [s c]. unfold write. cbn [store calls].
  destruct (f s) as [[a s']|e] eqn:E; cbn [snd]; [eauto|apply Hr].
Qed.

(** *** The frame relation *)

Lemma grows_refl {A} (l : list A) : grows l l.
Proof. exists []. now rewrite app_nil_r. Qed.

Lemma grows_trans {A} (l1 l2 l3 : list A) : grows l1 l2 -> grows l2 l3 -> grows l1 l3.
Proof. intros [n1 ->] [n2 ->]. exists (n1 ++ n2)%list. now rewrite app_assoc. Qed.

Lemma grows_app {A} (l new : list A) : grows l (l ++ new)%list.
Proof. now exists new. Qed.

Lemma extends_refl : reflexive extends.
Proof. intros w. repeat split; apply grows_refl. Qed.

Lemma extends_trans : composes extends extends extends.
Proof.
  intros a b c (Hu & Hi & Hq & Hf) (Hu' & Hi' & Hq' & Hf').
  split; [congruence|]. repeat split; eapply grows_trans; eauto.
Qed.

Create HintDb frame.
#[local] Hint Resolve extends_refl extends_trans grows_refl grows_app : frame.

Lemma extends_store s s' c :
  users s' = users s -> grows (interviews s) (interviews s') ->
  grows (questions s) (questions s') -> grows (followUps s) (followUps s') ->
  extends {| store := s; calls := c |} {| store := s'; calls := c |}.
Proof. intros; repeat split; assumption. Qed.

Lemma create_interview_extends row :
  sat extends (write (fun s => create_interview s row)).
Proof.
  apply sat_write; [apply extends_refl|].
  intros s c a s'. unfold create_interview. intros [= <- <-].
  apply extends_store; cbn; auto with frame.
Qed.

Lemma create_question_extends row :
  sat extends (write (fun s => create_question s row)).
Proof.
  apply sat_write; [apply extends_refl|].
  intros s c a s'. unfold create_question.
  destruct (find_interview _ _); [|discriminate]. intros [= <- <-].
  apply extends_store; cbn; auto with frame.
Qed.

Lemma create_followUp_extends row :
  sat extends (write (fun s => create_followUp s row)).
Proof.
  apply sat_write; [apply extends_refl|].
  intros s c a s'. unfold create_followUp.
  destruct (find_question _ _); [|discriminate]. intros [= <- <-].
  apply extends_store; cbn; auto with frame.
Qed.

Lemma create_answer_store s row a s' :
  create_answer s row = Ok (a, s') ->
  exists l n, s' = with_answers s l n.
Proof.
  unfold create_answer.
  destruct (negb _); [discriminate|].
  destruct (a_hrQuestionId _) as [q|].
  - destruct (answer_of_question s q); [discriminate|]. intros [= <- <-]. eauto.
  - intros [= <- <-]. eauto.
Qed.

Lemma update_answer_store s id f a s' :
  update_answer s id f = Ok (a, s') ->
  exists l n, s' = with_answers s l n.
Proof.
  unfold update_answer. destruct (find_answer s id); [|discriminate].
  intros [= <- <-]. eauto.
Qed.

Lemma with_answers_extends s l n c :
  extends {| store := s; calls := c |} {| store := with_answers s l n; calls := c |}.
Proof. apply extends_store; cbn; auto with frame. Qed.

Lemma create_answer_extends row :
  sat extends (write (fun s => create_answer s row)).
Proof.
  apply sat_write; [apply extends_refl|].
  intros s c a s' H. apply create_answer_store in H as (l & n & ->).
  apply with_answers_extends.
Qed.

Lemma update_answer_extends id f :
  sat extends (write (fun s => update_answer s id f)).
Proof.
  apply sat_write; [apply extends_refl|].
  intros s c a s' H. apply update_answer_store in H as (l & n & ->).
  apply with_answers_extends.
Qed.

Lemma upsert_answer_extends q u cr :
  sat extends (write (fun s => upsert_answer s q u cr)).
Proof.
  apply sat_write; [apply extends_refl|].
  intros s c a s' H. unfold upsert_answer in H.
  destruct (answer_of_question s q).
  - apply update_answer_store in H as (l & n & ->). apply with_answers_extends.
  - apply create_answer_store in H as (l & n & ->). apply with_answers_extends.
Qed.

Lemma generateContent_extends gemini p : sat extends (generateContent gemini p).
Proof.
  intros w. unfold generateContent.
  destruct (gemini _ _); cbn [snd]; repeat split; cbn; apply grows_refl.
Qed.

Ltac preorder_step R Hrefl Htrans writes :=
  first
    [ apply sat_ret; apply Hrefl
    | apply sat_throw; apply Hrefl
    | apply sat_respond; apply Hrefl
    | apply sat_query; apply Hrefl
    | apply sat_prop; apply Hrefl
    | apply sat_arg_id; apply Hrefl
    | apply sat_column; apply Hrefl
    | apply sat_req_json; apply Hrefl
    | apply sat_of_option; apply Hrefl
    | writes
    | apply (sat_bind R R R); [apply Htrans|apply Hrefl| |intros]
    | apply (sat_try_catch R R R); [apply Htrans|apply Hrefl| |intros]
    | apply sat_for_each; [apply Htrans|apply Hrefl|intros]
    | match goal with
      | |- sat _ (if ?b then _ else _) => destruct b
      | |- sat _ (match ?x with _ => _ end) => destruct x
      end ].

Ltac frame_step :=
  preorder_step extends extends_refl extends_trans
    ltac:(first [ apply create_interview_extends | apply create_question_extends
                | apply create_followUp_extends | apply create_answer_extends
                | apply update_answer_extends | apply upsert_answer_extends
                | apply generateContent_extends ]).

Ltac frame := cbv zeta; repeat frame_step.

Lemma frame_InterviewGET session i : sat extends (InterviewRoute.GET session i).
Proof. unfold InterviewRoute.GET. frame. Qed.

Lemma frame_AnswersGET i : sat extends (AnswersRoute.GET i).
Proof. unfold AnswersRoute.GET. frame. Qed.

Lemma frame_QuestionsGET gemini session i q g :
  sat extends (QuestionsRoute.GET gemini session i q g).
Proof. unfold QuestionsRoute.GET. frame. Qed.

Lemma frame_QuestionsPOST gemini session i b :
  sat extends (QuestionsRoute.POST gemini session i b).
Proof. unfold QuestionsRoute.POST. frame. Qed.

Lemma frame_missing_fields body fields : sat extends (HrRoundRoute.missing_fields body fields).
Proof. induction fields as [|f fields IH]; cbn [HrRoundRoute.missing_fields]; frame. exact IH. Qed.

Lemma frame_join_skills v : sat extends (HrRoundRoute.join_skills v).
Proof. unfold HrRoundRoute.join_skills. frame. Qed.

Lemma frame_extractJSON parse r : sat extends (HrRoundRoute.extractJSON parse r).
Proof. unfold HrRoundRoute.extractJSON. frame. Qed.

Lemma frame_generated_followUp mq q f :
  sat extends (HrRoundRoute.create_generated_followUp mq q f).
Proof. unfold HrRoundRoute.create_generated_followUp. frame. Qed.

Lemma frame_generated_question iv q :
  sat extends (HrRoundRoute.create_generated_question iv q).
Proof.
  unfold HrRoundRoute.create_generated_question. frame.
Qed.

Lemma frame_HrRoundPOST gemini parse session b :
  sat extends (HrRoundRoute.POST gemini parse session b).
Proof.
  unfold HrRoundRoute.POST.
  repeat first [ apply frame_missing_fields | apply frame_join_skills
               | apply frame_extractJSON | apply frame_generated_question
               | frame_step ].
Qed.

Lemma frame_owner_of_question s q : sat extends (HrRoundRoute.owner_of_question s q).
Proof. unfold HrRoundRoute.owner_of_question. frame. Qed.

Lemma frame_owner_of_followUp s f : sat extends (HrRoundRoute.owner_of_followUp s f).
Proof. unfold HrRoundRoute.owner_of_followUp. frame. Qed.

Lemma frame_FollowUpGET session f m : sat extends (HrRoundRoute.GET session f m).
Proof.
  unfold HrRoundRoute.GET.
  repeat first [ apply frame_owner_of_question | apply frame_owner_of_followUp
               | frame_step ].
Qed.

Lemma frame_analyzeAnswer gemini q a m c :
  sat extends (AnswerRoute.analyzeAnswer gemini q a m c).
Proof. unfold AnswerRoute.analyzeAnswer. frame. Qed.

Lemma frame_generateFollowUpQuestion gemini q a c :
  sat extends (AnswerRoute.generateFollowUpQuestion gemini q a c).
Proof. unfold AnswerRoute.generateFollowUpQuestion. frame. Qed.

Lemma frame_processMainQuestion gemini session b :
  sat extends (AnswerRoute.processMainQuestion gemini session b).
Proof.
  unfold AnswerRoute.processMainQuestion.
  repeat first [ apply frame_analyzeAnswer | apply frame_generateFollowUpQuestion
               | frame_step ].
Qed.

Lemma frame_processFollowUpQuestion gemini session b :
  sat extends (AnswerRoute.processFollowUpQuestion gemini session b).
Proof.
  unfold AnswerRoute.processFollowUpQuestion.
  repeat first [ apply frame_analyzeAnswer | apply frame_generateFollowUpQuestion
               | frame_step ].
Qed.

Lemma handle_extends gemini JSON_parse session r :
  sat extends (App.handle gemini JSON_parse session r).
Proof.
  destruct r; cbn [App.handle].
  - apply frame_InterviewGET.
  - apply sat_unchanged; [apply extends_refl|]. intros w. lazy. reflexivity.
  - apply sat_unchanged; [apply extends_refl|]. intros w. lazy. reflexivity.
  - apply sat_unchanged; [apply extends_refl|]. intros w. lazy. reflexivity.
  - apply frame_AnswersGET.
  - apply frame_QuestionsGET.
  - apply frame_QuestionsPOST.
  - apply frame_HrRoundPOST.
  - apply frame_FollowUpGET.
  - apply sat_unchanged; [apply extends_refl|]. intros w. lazy. reflexivity.
  - apply sat_unchanged; [apply extends_refl|]. intros w. lazy. reflexivity.
  - apply sat_unchanged; [apply extends_refl|]. intros w. lazy. reflexivity.
  - apply frame_processMainQuestion.
  - apply frame_processFollowUpQuestion.
Qed.

(** *** Calls to the model *)

Lemma cam_refl k n : reflexive (calls_at_most k n).
Proof. intros w. exists []. split; [now rewrite app_nil_r|cbn; lia]. Qed.

Lemma count_kind_app k l1 l2 :
  count_kind k (l1 ++ l2) = (count_kind k l1 + count_kind k l2)%nat.
Proof. unfold count_kind. now rewrite filter_app, length_app. Qed.

Lemma cam_compose k n1 n2 :
  composes (calls_at_most k n1) (calls_at_most k n2) (calls_at_most k (n1 + n2)).
Proof.
  intros a b c (l1 & E1 & H1) (l2 & E2 & H2).
  exists (l1 ++ l2)%list. split.
  - now rewrite E2, E1, app_assoc.
  - rewrite count_kind_app. lia.
Qed.

Lemma cam_write {A} k (f : Store -> Outcome (A * Store)) :
  sat (calls_at_most k 0) (write f).
Proof.
  apply sat_write; [apply cam_refl|]. intros s c a s' _.
  exists []. split; [cbn; now rewrite app_nil_r|cbn; lia].
Qed.

Lemma cam_generate gemini k p : sat (calls_at_most k 1) (generateContent gemini p).
Proof.
  intros w. unfold generateContent.
  destruct (gemini _ _); cbn [snd calls]; eexists; (split; [reflexivity|]);
    unfold count_kind; cbn; destruct (kind_eqb _ _); cbn; lia.
Qed.

Lemma cam_generate_other gemini k p :
  kind_eqb (kind_of p) k = false ->
  sat (calls_at_most k 0) (generateContent gemini p).
Proof.
  intros H w. unfold generateContent.
  destruct (gemini _ _); cbn [snd calls]; eexists; (split; [reflexivity|]);
    unfold count_kind; cbn; rewrite H; cbn; lia.
Qed.

Lemma cam_weaken {A} k (m : M A) :
  sat (calls_at_most k 0) m -> sat (calls_at_most k 1) m.
Proof. intros H w. destruct (H w) as (l & E & Hl). exists l. split; [exact E|lia]. Qed.

Lemma cam_bind {A B} k n1 n2 (m : M A) (f : A -> M B) :
  sat (calls_at_most k n1) m -> (forall a, sat (calls_at_most k n2) (f a)) ->
  sat (calls_at_most k (n1 + n2)) (bind m f).
Proof. apply sat_bind; [apply cam_compose|apply cam_refl]. Qed.

Lemma cam_try_catch {A} k n1 n2 (m : M A) h :
  sat (calls_at_most k n1) m -> (forall e, sat (calls_at_most k n2) (h e)) ->
  sat (calls_at_most k (n1 + n2)) (try_catch m h).
Proof. apply sat_try_catch; [apply cam_compose|apply cam_refl]. Qed.

Lemma cam_for_each {A} k (items : list A) body :
  (forall x, sat (calls_at_most k 0) (body x)) ->
  sat (calls_at_most k 0) (for_each items body).
Proof. apply sat_for_each; [apply (cam_compose k 0 0)|apply cam_refl]. Qed.

Create HintDb quiet.

Ltac quiet_step :=
  first
    [ solve [auto 1 with quiet]
    | apply sat_ret; apply cam_refl
    | apply sat_throw; apply cam_refl
    | apply sat_respond; apply cam_refl
    | apply sat_query; apply cam_refl
    | apply sat_prop; apply cam_refl
    | apply sat_arg_id; apply cam_refl
    | apply sat_column; apply cam_refl
    | apply sat_req_json; apply cam_refl
    | apply sat_of_option; apply cam_refl
    | apply cam_write
    | apply cam_generate_other; reflexivity
    | apply (cam_bind _ 0 0); [|intros]
    | apply (cam_try_catch _ 0 0); [|intros]
    | apply cam_for_each; intros
    | match goal with
      | |- sat _ (if ?b then _ else _) => destruct b
      | |- sat _ (match ?x with _ => _ end) => destruct x
      end ].

Ltac quiet := cbv zeta; repeat quiet_step.

Ltac at_most_once :=
  cbv zeta;
  first
    [ solve [apply cam_weaken; quiet]
    | apply cam_generate
    | apply (cam_bind _ 0 1); [solve [quiet]|intros; at_most_once]
    | apply (cam_bind _ 1 0); [at_most_once|intros; solve [quiet]]
    | apply (cam_try_catch _ 0 1); [solve [quiet]|intros; at_most_once]
    | apply (cam_try_catch _ 1 0); [at_most_once|intros; solve [quiet]]
    | match goal with
      | |- sat _ (if ?b then _ else _) => destruct b; at_most_once
      | |- sat _ (match ?x with _ => _ end) => destruct x; at_most_once
      end ].

Lemma quiet_missing_fields k body fields :
  sat (calls_at_most k 0) (HrRoundRoute.missing_fields body fields).
Proof. induction fields as [|f fields IH]; cbn [HrRoundRoute.missing_fields]; quiet. Qed.

#[local] Hint Resolve quiet_missing_fields : quiet.

Lemma quiet_join_skills k v : sat (calls_at_most k 0) (HrRoundRoute.join_skills v).
Proof. unfold HrRoundRoute.join_skills. quiet. Qed.

Lemma quiet_extractJSON k parse r : sat (calls_at_most k 0) (HrRoundRoute.extractJSON parse r).
Proof. unfold HrRoundRoute.extractJSON. quiet. Qed.

Lemma quiet_generated_followUp k mq q f :
  sat (calls_at_most k 0) (HrRoundRoute.create_generated_followUp mq q f).
Proof. unfold HrRoundRoute.create_generated_followUp. quiet. Qed.

#[local] Hint Resolve quiet_join_skills quiet_extractJSON quiet_generated_followUp : quiet.

Lemma quiet_generated_question k iv q :
  sat (calls_at_most k 0) (HrRoundRoute.create_generated_question iv q).
Proof. unfold HrRoundRoute.create_generated_question. quiet. Qed.

#[local] Hint Resolve quiet_generated_question : quiet.

Lemma one_call_HrRoundPOST k gemini parse session b :
  sat (calls_at_most k 1) (HrRoundRoute.POST gemini parse session b).
Proof.
  unfold HrRoundRoute.POST. destruct k; at_most_once.
Qed.

Lemma one_call_QuestionsGET k gemini session i q g :
  sat (calls_at_most k 1) (QuestionsRoute.GET gemini session i q g).
Proof. unfold QuestionsRoute.GET. destruct k; at_most_once. Qed.

Lemma one_call_QuestionsPOST k gemini session i b :
  sat (calls_at_most k 1) (QuestionsRoute.POST gemini session i b).
Proof. unfold QuestionsRoute.POST. destruct k; at_most_once. Qed.

Lemma one_call_processMainQuestion k gemini session b :
  sat (calls_at_most k 1) (AnswerRoute.processMainQuestion gemini session b).
Proof. unfold AnswerRoute.processMainQuestion. destruct k; at_most_once. Qed.

Lemma one_call_processFollowUpQuestion k gemini session b :
  sat (calls_at_most k 1) (AnswerRoute.processFollowUpQuestion gemini session b).
Proof. unfold AnswerRoute.processFollowUpQuestion. destruct k; at_most_once. Qed.

Lemma quiet_InterviewGET k session i : sat (calls_at_most k 0) (InterviewRoute.GET session i).
Proof. unfold InterviewRoute.GET. quiet. Qed.

Lemma quiet_AnswersGET k i : sat (calls_at_most k 0) (AnswersRoute.GET i).
Proof. unfold AnswersRoute.GET. quiet. Qed.

Lemma quiet_FollowUpGET k session f m : sat (calls_at_most k 0) (HrRoundRoute.GET session f m).
Proof. unfold HrRoundRoute.GET. quiet. Qed.

Lemma handle_calls_once k gemini JSON_parse session r :
  sat (calls_at_most k 1) (App.handle gemini JSON_parse session r).
Proof.
  destruct r; cbn [App.handle].
  - apply cam_weaken, quiet_InterviewGET.
  - apply sat_unchanged; [apply cam_refl|]. intros w. lazy. reflexivity.
  - apply sat_unchanged; [apply cam_refl|]. intros w. lazy. reflexivity.
  - apply sat_unchanged; [apply cam_refl|]. intros w. lazy. reflexivity.
  - apply cam_weaken, quiet_AnswersGET.
  - apply one_call_QuestionsGET.
  - apply one_call_QuestionsPOST.
  - apply one_call_HrRoundPOST.
  - apply cam_weaken, quiet_FollowUpGET.
  - apply sat_unchanged; [apply cam_refl|]. intros w. lazy. reflexivity.
  - apply sat_unchanged; [apply cam_refl|]. intros w. lazy. reflexivity.
  - apply sat_unchanged; [apply cam_refl|]. intros w. lazy. reflexivity.
  - apply one_call_processMainQuestion.
  - apply one_call_processFollowUpQuestion.
Qed.

(** ** Running a handler *)


Lemma wp_elim {A} (m : M A) w (P : Outcome A * World -> Prop) :
  wp m (fun o w' => P (o, w')) w -> P (m w).
Proof. unfold wp. now destruct (m w). Qed.

Lemma wp_ret {A} (a : A) Q w : Q (Ok a) w -> wp (ret a) Q w.
Proof. exact (fun H => H). Qed.

Lemma wp_throw {A} e (Q : Outcome A -> World -> Prop) w :
  Q (Thrown e) w -> wp (throw e) Q w.
Proof. exact (fun H => H). Qed.

Lemma wp_bind {A B} (m : M A) (k : A -> M B) Q w :
  wp m (fun o w' => match o with
                    | Ok a => wp (k a) Q w'
                    | Thrown e => Q (Thrown e) w'
                    end) w ->
  wp (bind m k) Q w.
Proof. unfold wp, bind. now destruct (m w) as [[a|e] w']. Qed.

Lemma wp_try_catch {A} (m : M A) h Q w :
  wp m (fun o w' => match o with
                    | Ok a => Q (Ok a) w'
                    | Thrown e => wp (h e) Q w'
                    end) w ->
  wp (try_catch m h) Q w.
Proof. unfold wp, try_catch. now destruct (m w) as [[a|e] w']. Qed.

Lemma wp_query {A} (f : Store -> A) Q w : Q (Ok (f (store w))) w -> wp (query f) Q w.
Proof. exact (fun H => H). Qed.

Lemma wp_of_option {A} (o : option A) e Q w :
  match o with Some a => Q (Ok a) w | None => Q (Thrown e) w end ->
  wp (of_option o e) Q w.
Proof. now destruct o. Qed.

Lemma wp_write {A} (f : Store -> Outcome (A * Store)) Q w :
  match f (store w) with
  | Ok (a, s') => Q (Ok a) {| store := s'; calls := calls w |}
  | Thrown e => Q (Thrown e) w
  end ->
  wp (write f) Q w.
Proof. unfold wp, write. now destruct (f (store w)) as [[a s']|e]. Qed.

Lemma wp_generate gemini p Q w :
  (let r := gemini (List.length (calls w)) p in
   let w' := {| store := store w;
                calls := (calls w ++ [{| prompt := p; reply := r |}])%list |} in
   match r with
   | Some text => Q (Ok text) w'
   | None => Q (Thrown "GoogleGenerativeAI Error") w'
   end) ->
  wp (generateContent gemini p) Q w.
Proof. unfold wp, generateContent. cbv zeta. now destruct (gemini _ _). Qed.

Ltac wp_simpl :=
  cbv beta iota zeta;
  cbn [get lookup String.eqb Ascii.eqb Bool.eqb truthy negb andb orb Text.is_empty
       as_string as_opt_string as_int auth await opt_str nullish coalesce or_else
       strict_eq store calls].

Ltac wp_step :=
  lazymatch goal with
  | |- wp (bind _ _) _ _ => apply wp_bind
  | |- wp (try_catch _ _) _ _ => apply wp_try_catch
  | |- wp (ret _) _ _ => apply wp_ret
  | |- wp (respond _ _) _ _ => apply wp_ret
  | |- wp (throw _) _ _ => apply wp_throw
  | |- wp (query _) _ _ => apply wp_query
  | |- wp (prop _ _) _ _ => apply wp_of_option
  | |- wp (arg_id _) _ _ => apply wp_of_option
  | |- wp (column _ _) _ _ => apply wp_of_option
  | |- wp (req_json _) _ _ => apply wp_of_option
  | |- wp (of_option _ _) _ _ => apply wp_of_option
  | |- wp (write _) _ _ => apply wp_write
  | |- wp (generateContent _ _) _ _ => apply wp_generate
  end;
  wp_simpl.

Ltac wp_run := repeat first [wp_step | progress wp_simpl].


Lemma missing_fields_run body fields w :
  nullish body = false ->
  HrRoundRoute.missing_fields body fields w = (Ok (filter (falsy_at body) fields), w).
Proof.
  intros Hb. induction fields as [|f fields IH]; cbn [HrRoundRoute.missing_fields filter].
  - reflexivity.
  - unfold bind at 1. unfold prop, of_option, falsy_at.
    destruct (get body f) as [v|] eqn:E.
    + cbn [ret]. unfold bind at 1. rewrite IH. cbn [ret].
      destruct (truthy v); reflexivity.
    + destruct body; cbn in E, Hb; discriminate.
Qed.

Lemma wp_missing_fields body fields Q w :
  nullish body = false ->
  Q (Ok (filter (falsy_at body) fields)) w ->
  wp (HrRoundRoute.missing_fields body fields) Q w.
Proof. intros Hb H. unfold wp. now rewrite missing_fields_run. Qed.

Lemma find_none_weaker {A} (P P' : A -> bool) l :
  (forall x, P' x = true -> P x = true) -> find P l = None -> find P' l = None.
Proof.
  intros H. induction l as [|x l IH]; cbn; [reflexivity|].
  destruct (P x) eqn:E; [discriminate|]. intros Hn.
  destruct (P' x) eqn:E'; [apply H in E'; congruence|auto].
Qed.

Lemma find_interview_of_none s id u :
  (forall i, In i (interviews s) -> iv_id i = id -> iv_userId i <> u) ->
  find_interview_of s id u = None.
Proof.
  intros H. unfold find_interview_of.
  destruct (find _ _) as [i|] eqn:E; [|reflexivity].
  apply find_some in E as [Hin Hb]. apply andb_true_iff in Hb as [H1 H2].
  unfold id_is in *. apply String.eqb_eq in H1, H2.
  exfalso. exact (H i Hin H1 H2).
Qed.

Lemma eqb_other (owner u : string) : owner <> u -> (owner =? u)%string = false.
Proof. apply String.eqb_neq. Qed.

(** C4, as the specification states it, fails on the interview route: Bob,
    signed in, asks for Alice's interview and gets 404, not 401. *)
Lemma non_owner_interview_GET_is_404 :
  iv_userId Sample.interview1 <> "bob" /\
  InterviewRoute.GET (Some "bob") (JStr "i1") Sample.world1
  = (Ok (json (error_body "HR Interview not found") 404), Sample.world1).
Proof. split; [discriminate|reflexivity]. Qed.

(** The GET of the questions route looks the interview up by id alone: Bob
    gets Alice's interview and its questions. *)
Lemma questions_GET_checks_no_owner :
  QuestionsRoute.GET Sample.model_up (Some "bob") (JStr "i1") JNull JNull Sample.world1
  = (Ok (json (QuestionsRoute.success "interview"
                 (View.interview_full Sample.store1 Sample.interview1)) 200),
     Sample.world1).
Proof. reflexivity. Qed.

(** C4, amended.  For a signed-in caller who is not the owner: the GET of an
    interview by id answers 404 "HR Interview not found"; the GET of a
    follow-up question by id, and the GET of the follow-ups of a main
    question, answer 401 "Unauthorized".  In each case the body is that
    error alone and the store is left as it is. *)
Theorem non_owner_GET (w : World) (u : Id) :
  u <> "" ->
  (forall id,
     id <> "" ->
     (forall i, In i (interviews (store w)) -> iv_id i = id -> iv_userId i <> u) ->
     InterviewRoute.GET (Some u) (JStr id) w
     = (Ok (json (error_body "HR Interview not found") 404), w)) /\
  (forall followupId mainQuestionId f q i,
     followupId <> "" ->
     find_followUp (store w) followupId = Some f ->
     find_question (store w) (f_mainQuestionId f) = Some q ->
     find_interview (store w) (q_hrInterviewId q) = Some i ->
     iv_userId i <> u ->
     HrRoundRoute.GET (Some u) (JStr followupId) mainQuestionId w
     = (Ok (json (error_body "Unauthorized") 401), w)) /\
  (forall followupId mainQuestionId q i,
     truthy followupId = false ->
     mainQuestionId <> "" ->
     find_question (store w) mainQuestionId = Some q ->
     find_interview (store w) (q_hrInterviewId q) = Some i ->
     iv_userId i <> u ->
     HrRoundRoute.GET (Some u) followupId (JStr mainQuestionId) w
     = (Ok (json (error_body "Unauthorized") 401), w)).
Proof.
  intros Hu. destruct u as [|c u']; [congruence|]. clear Hu.
  split; [|split].
  - intros id Hid Hown. destruct id as [|c' id']; [congruence|].
    apply (wp_elim _ _ (fun r => r = _)). unfold InterviewRoute.GET. wp_run.
    rewrite (find_interview_of_none _ _ _ Hown). wp_run. reflexivity.
  - intros fid m f q i Hfid Hf Hq Hi Hown. destruct fid as [|c' fid']; [congruence|].
    apply (wp_elim _ _ (fun r => r = _)). unfold HrRoundRoute.GET. wp_run.
    rewrite Hf. unfold HrRoundRoute.owner_of_followUp. wp_run. rewrite Hq. wp_run.
    unfold HrRoundRoute.owner_of_question. wp_run. rewrite Hi. wp_run.
    rewrite (eqb_other _ _ Hown). wp_run. reflexivity.
  - intros fparam qid q i Hfp Hqid Hq Hi Hown. destruct qid as [|c' qid']; [congruence|].
    apply (wp_elim _ _ (fun r => r = _)). unfold HrRoundRoute.GET. wp_run.
    rewrite Hfp. wp_run. rewrite Hq.
    unfold HrRoundRoute.owner_of_question. wp_run. rewrite Hi. wp_run.
    rewrite (eqb_other _ _ Hown). wp_run. reflexivity.
Qed.


Lemma non_owner_GET_witness :
  InterviewRoute.GET (Some "bob") (JStr "i1") Sample.world1
  = (Ok (json (error_body "HR Interview not found") 404), Sample.world1).
Proof.
  apply (proj1 (non_owner_GET Sample.world1 "bob" ltac:(discriminate)));
    [discriminate|].
  intros i [<-|[]] _. discriminate.
Defined.

(** C8, as the specification states it, fails for a caller who is not signed
    in: a creation request without any required field is answered 401. *)
Lemma signed_out_creation_is_401 :
  Logic.falsy_at (JObj []) "jobPosition" = true /\
  HrRoundRoute.POST Sample.model_up Sample.no_JSON None (Some (JObj [])) Sample.world1
  = (Ok (json (error_body "Unauthorized") 401), Sample.world1).
Proof. split; reflexivity. Qed.

(** C8, amended.  For every interview-creation POST of the hrRound route
    whose JSON body, not null, misses a required field (jobPosition,
    jobDescription, jobExperience, difficultyLevel, totalQuestions; absent or
    falsy): a signed-in caller gets 400, a caller who is not signed in gets
    401, and in both cases nothing is persisted and the model is not
    called. *)
Theorem missing_field_is_rejected gemini JSON_parse (w : World) (body : JsVal)
    (field : string) :
  nullish body = false ->
  In field HrRoundRoute.requiredFields ->
  falsy_at body field = true ->
  (forall u, u <> "" ->
     exists b,
       HrRoundRoute.POST gemini JSON_parse (Some u) (Some body) w
       = (Ok (json b 400), w)) /\
  HrRoundRoute.POST gemini JSON_parse None (Some body) w
  = (Ok (json (error_body "Unauthorized") 401), w).
Proof.
  intros Hb Hin Hf. split; [|reflexivity].
  intros u Hu. destruct u as [|c u']; [congruence|].
  apply (wp_elim _ _ (fun r => exists b, r = (Ok (json b 400), w))).
  unfold HrRoundRoute.POST.
  wp_run.
  destruct (find_user (store w) _) eqn:E; wp_run.
  2:{ eexists. reflexivity. }
  apply wp_missing_fields; [exact Hb|].
  assert (Hm : (0 <? List.length (filter (falsy_at body) HrRoundRoute.requiredFields))%nat
               = true).
  { apply Nat.ltb_lt.
    assert (In field (filter (falsy_at body) HrRoundRoute.requiredFields))
      by (apply filter_In; auto).
    destruct (filter _ _); [contradiction|cbn; lia]. }
  rewrite Hm. wp_run. eexists. reflexivity.
Qed.

Lemma missing_field_is_rejected_witness :
  exists b,
    HrRoundRoute.POST Sample.model_up Sample.no_JSON (Some "alice")
      (Some (JObj [("jobPosition", JStr "Backend engineer")])) Sample.world1
    = (Ok (json b 400), Sample.world1).
Proof.
  apply (proj1 (missing_field_is_rejected Sample.model_up Sample.no_JSON Sample.world1
                  (JObj [("jobPosition", JStr "Backend engineer")]) "totalQuestions"
                  eq_refl ltac:(simpl; auto 10) eq_refl)).
  discriminate.
Defined.


Ltac wp_branch :=
  match goal with
  | |- wp (if ?b then _ else _) _ _ => destruct b eqn:?
  | |- wp (match ?x with _ => _ end) _ _ => destruct x eqn:?
  | |- match ?x with _ => _ end => destruct x eqn:?
  | |- if ?b then _ else _ => destruct b eqn:?
  end.

Ltac wp_unfold :=
  match goal with
  | |- wp (AnswerRoute.analyzeAnswer _ _ _ _ _) _ _ => unfold AnswerRoute.analyzeAnswer
  | |- wp (AnswerRoute.generateFollowUpQuestion _ _ _ _) _ _ =>
      unfold AnswerRoute.generateFollowUpQuestion
  | |- wp (HrRoundRoute.join_skills _) _ _ => unfold HrRoundRoute.join_skills
  | |- wp (HrRoundRoute.owner_of_question _ _) _ _ => unfold HrRoundRoute.owner_of_question
  | |- wp (HrRoundRoute.owner_of_followUp _ _) _ _ => unfold HrRoundRoute.owner_of_followUp
  end.

Ltac wp_explore_with tac := repeat first [wp_step | wp_unfold | tac | wp_branch].
Ltac wp_explore := wp_explore_with fail.

Ltac no_call :=
  exists []; split; [cbn [snd calls]; now rewrite ?app_nil_r|left; reflexivity].

Ltac answered_500 :=
  eexists; split; [cbn [snd calls]; reflexivity|right; eexists; reflexivity].

Ltac model_down H := progress (cbv zeta; rewrite H by reflexivity).

Lemma probe_failure_QuestionsPOST gemini session i raw w :
  model_down_for gemini Probe w ->
  no_call_or_500 Probe w (QuestionsRoute.POST gemini session i raw w).
Proof.
  intros Hdown.
  apply (wp_elim _ _ (no_call_or_500 Probe w)). unfold QuestionsRoute.POST.
  wp_explore_with ltac:(model_down Hdown); first [no_call | answered_500].
Qed.

Lemma probe_failure_QuestionsGET gemini session i q g w :
  model_down_for gemini Probe w ->
  no_call_or_500 Probe w (QuestionsRoute.GET gemini session i q g w).
Proof.
  intros Hdown.
  apply (wp_elim _ _ (no_call_or_500 Probe w)). unfold QuestionsRoute.GET.
  wp_explore_with ltac:(model_down Hdown); first [no_call | answered_500].
Qed.

Lemma missing_fields_world body fields w :
  snd (HrRoundRoute.missing_fields body fields w) = w.
Proof.
  induction fields as [|f fields IH]; [reflexivity|].
  cbn [HrRoundRoute.missing_fields]. unfold bind at 1, prop, of_option.
  destruct (get body f); [|reflexivity]. cbn [ret]. unfold bind at 1.
  destruct (HrRoundRoute.missing_fields body fields w) as [[l|e] w'];
    cbn [snd] in *; subst; reflexivity.
Qed.

Lemma wp_missing_fields_any body fields (Q : Outcome (list string) -> World -> Prop) w :
  (forall o, Q o w) -> wp (HrRoundRoute.missing_fields body fields) Q w.
Proof. intros H. unfold wp. rewrite missing_fields_world. apply H. Qed.

Lemma generation_failure_HrRoundPOST gemini JSON_parse session raw w :
  model_down_for gemini GenerateQuestions w ->
  no_call_or_500 GenerateQuestions w (HrRoundRoute.POST gemini JSON_parse session raw w).
Proof.
  intros Hdown.
  apply (wp_elim _ _ (no_call_or_500 GenerateQuestions w)). unfold HrRoundRoute.POST.
  wp_explore_with ltac:(first [model_down Hdown
                              | apply wp_missing_fields_any; intros]);
    first [no_call | answered_500].
Qed.

Lemma followUp_failure_processFollowUpQuestion gemini session raw w :
  model_down_for gemini FollowUp w ->
  no_call_or_500 FollowUp w (AnswerRoute.processFollowUpQuestion gemini session raw w).
Proof.
  intros Hdown.
  apply (wp_elim _ _ (no_call_or_500 FollowUp w)).
  unfold AnswerRoute.processFollowUpQuestion.
  wp_explore_with ltac:(model_down Hdown).
  all: first [ no_call | answered_500
             | eexists; split; [cbn [snd calls]; reflexivity|left; reflexivity] ].
Qed.

Lemma find_question_id s qid q :
  find_question s qid = Some q -> q_id q = qid.
Proof.
  unfold find_question. intros H. apply find_some in H as [_ H].
  unfold id_is in H. now apply String.eqb_eq in H.
Qed.

Lemma first_answer_none s qid u :
  answer_of_question s qid = None -> first_answer_of_question_by s qid u = None.
Proof.
  apply find_none_weaker. intros a H. now apply andb_true_iff in H as [H _].
Qed.

Lemma create_answer_ok s row q :
  a_hrQuestionId (row (mk_id (nextId s))) = Some q ->
  a_hrFollowUpQuestionId (row (mk_id (nextId s))) = None ->
  find_question s q <> None ->
  find_user s (a_userId (row (mk_id (nextId s)))) <> None ->
  answer_of_question s q = None ->
  create_answer s row
  = Ok (row (mk_id (nextId s)),
        with_answers s (answers s ++ [row (mk_id (nextId s))])%list (S (nextId s))).
Proof.
  intros Hq Hf Hfq Hu Hnone. unfold create_answer.
  rewrite Hq, Hf. cbn [relation_ok].
  destruct (find_question s q); [|congruence].
  destruct (find_user s _); [|congruence].
  cbn. now rewrite Hnone.
Qed.

(** The handler answered 200 and the answer table is the one stated. *)
Ltac saved_200 :=
  eexists _, _; split; [reflexivity|];
  cbn [status json body store answers with_followUps with_answers];
  repeat split; reflexivity.

Lemma scoring_failure_processMainQuestion gemini (w : World) (u qid answer : string)
    (fields : list (string * JsVal)) (q : HRQuestion) :
  u <> "" -> qid <> "" -> answer <> "" ->
  lookup "hrQuestionId" fields = JStr qid ->
  lookup "userAnswer" fields = JStr answer ->
  find_question (store w) qid = Some q ->
  find_user (store w) u <> None ->
  answer_of_question (store w) qid = None ->
  model_down_for gemini Analyze w ->
  let analysis :=
    Parser.parseAnalysisResponse None
      (AnswerRoute.or_default (q_maxScore q) Parser.DEFAULT_MAX_SCORE) in
  let saved :=
    AnswerRoute.submitted (Some qid) None u answer None analysis
      (mk_id (nextId (store w))) in
  exists r w',
    AnswerRoute.processMainQuestion gemini (Some u) (Some (JObj fields)) w = (Ok r, w') /\
    status r = 200 /\
    get (body r) "success" = Some (JBool true) /\
    get (body r) "analysis" = Some (View.analysis_json analysis) /\
    get (body r) "hrUserAnswer" = Some (View.answer_json saved) /\
    answers (store w') = (answers (store w) ++ [saved])%list.
Proof.
  intros Hu Hqid Hans Hf1 Hf2 Hq Huser Hnone Hdown. cbv zeta.
  destruct u as [|c1 u']; [congruence|].
  destruct qid as [|c2 qid']; [congruence|].
  destruct answer as [|c3 answer']; [congruence|].
  pose proof (find_question_id _ _ _ Hq) as Hid.
  apply (wp_elim _ _ (fun x => exists r w', x = (Ok r, w') /\ _)).
  unfold AnswerRoute.processMainQuestion.
  wp_run. rewrite Hf1, Hf2. wp_run. rewrite Hq. wp_run.
  unfold AnswerRoute.analyzeAnswer. wp_run. cbv zeta. rewrite Hdown by reflexivity.
  wp_run. rewrite (first_answer_none _ _ _ Hnone). wp_run.
  erewrite create_answer_ok; [| reflexivity | reflexivity | cbn; congruence
                              | cbn; exact Huser | exact Hnone].
  wp_run.
  destruct (followUps_of (store w) (q_id q)) as [|first rest]; wp_run.
  - unfold AnswerRoute.generateFollowUpQuestion. wp_run. cbv zeta.
    destruct (gemini _ _) as [text|]; wp_run.
    + destruct (Text.is_empty text); wp_run.
      * saved_200.
      * unfold create_followUp. cbn [f_mainQuestionId AnswerRoute.scored_followUp].
        change (find_question (with_answers ?s _ _) ?i) with (find_question s i).
        rewrite Hid, Hq. wp_run.
        saved_200.
    + saved_200.
  - saved_200.
Qed.

(** ** Rows are created, never rewritten *)

(** C7. No handler modifies or removes an existing Interview, MainQuestion or
    FollowUpQuestion record (nor a user): whatever the request, the session
    and the replies of the model, every such row of the store before the
    request is in the store after it, unchanged and at its place, and the
    handlers only add rows after them.  What a request may change besides is
    the answer table. *)
Theorem existing_rows_never_modified gemini JSON_parse session r w :
  extends w (snd (App.handle gemini JSON_parse session r w)).
Proof. apply handle_extends. Qed.

(** The same over any sequence of requests. *)
Lemma reachable_extends gemini JSON_parse w0 w :
  App.reachable gemini JSON_parse w0 w -> extends w0 w.
Proof.
  induction 1 as [|w session r _ IH].
  - apply extends_refl.
  - eapply extends_trans; [exact IH|apply handle_extends].
Qed.

(** ** Failures of the generative model *)

(** C3, as the specification states it, fails on the answer route: with the
    model down, the scoring call of Alice's answer fails and the handler
    answers 200 with [success: true]. *)
Lemma failed_scoring_is_answered_200 :
  (exists c, In c (calls (snd Sample.post_while_down)) /\
             kind_of (prompt c) = Analyze /\ reply c = None) /\
  (exists r, fst Sample.post_while_down = Ok r /\
             status r = 200 /\
             get (body r) "success" = Some (JBool true)).
Proof.
  split.
  - eexists. split; [left; reflexivity|]. split; reflexivity.
  - eexists. split; [reflexivity|]. split; reflexivity.
Qed.

(** C3, amended.  No handler retries a failed call: a request makes at most
    one call of each kind.  When the next call fails, interview creation,
    the GET and the POST of the questions route and, for its follow-up
    generation, the follow-up answer handler either made no such call or
    answer 500.  A failed scoring call is not reported: for a signed-in user
    with a user record who gives a non-empty answer to an existing main
    question that has no answer yet, the main answer handler saves the
    answer, as one new answer row with the analysis [parseAnalysisResponse]
    gives for a null text, and answers 200 with [success: true], that row
    and that analysis. *)
Theorem model_failures_not_retried gemini JSON_parse :
  (forall k session r w,
     calls_at_most k 1 w (snd (App.handle gemini JSON_parse session r w))) /\
  (forall session raw w,
     model_down_for gemini GenerateQuestions w ->
     no_call_or_500 GenerateQuestions w
       (HrRoundRoute.POST gemini JSON_parse session raw w)) /\
  (forall session i q g w,
     model_down_for gemini Probe w ->
     no_call_or_500 Probe w (QuestionsRoute.GET gemini session i q g w)) /\
  (forall session i raw w,
     model_down_for gemini Probe w ->
     no_call_or_500 Probe w (QuestionsRoute.POST gemini session i raw w)) /\
  (forall session raw w,
     model_down_for gemini FollowUp w ->
     no_call_or_500 FollowUp w
       (AnswerRoute.processFollowUpQuestion gemini session raw w)) /\
  (forall w u qid answer fields q,
     u <> "" -> qid <> "" -> answer <> "" ->
     lookup "hrQuestionId" fields = JStr qid ->
     lookup "userAnswer" fields = JStr answer ->
     find_question (store w) qid = Some q ->
     find_user (store w) u <> None ->
     answer_of_question (store w) qid = None ->
     model_down_for gemini Analyze w ->
     let analysis :=
       Parser.parseAnalysisResponse None
         (AnswerRoute.or_default (q_maxScore q) Parser.DEFAULT_MAX_SCORE) in
     let saved :=
       AnswerRoute.submitted (Some qid) None u answer None analysis
         (mk_id (nextId (store w))) in
     exists r w',
       AnswerRoute.processMainQuestion gemini (Some u) (Some (JObj fields)) w
       = (Ok r, w') /\
       status r = 200 /\
       get (body r) "success" = Some (JBool true) /\
       get (body r) "analysis" = Some (View.analysis_json analysis) /\
       get (body r) "hrUserAnswer" = Some (View.answer_json saved) /\
       answers (store w') = (answers (store w) ++ [saved])%list).
Proof.
  split; [intros; apply handle_calls_once|].
  split; [intros; now apply generation_failure_HrRoundPOST|].
  split; [intros; now apply probe_failure_QuestionsGET|].
  split; [intros; now apply probe_failure_QuestionsPOST|].
  split; [intros; now apply followUp_failure_processFollowUpQuestion|].
  intros w u qid answer fields q Hu Hqid Hanswer Hf1 Hf2 Hq Huser Hnone Hdown.
  exact (scoring_failure_processMainQuestion gemini w u qid answer fields q
           Hu Hqid Hanswer Hf1 Hf2 Hq Huser Hnone Hdown).
Qed.

Lemma model_failures_not_retried_witness :
  exists r w',
    AnswerRoute.processMainQuestion Sample.model_down (Some "alice")
      (Some (JObj [("hrQuestionId", JStr "q1");
                   ("userAnswer", JStr "I spoke to both of them.")]))
      Sample.world1
    = (Ok r, w') /\
    status r = 200 /\
    get (body r) "success" = Some (JBool true) /\
    map (fun a => (a_userAnswer a, a_score a)) (answers (store w'))
    = [("I spoke to both of them.", Some 5)].
Proof.
  destruct (proj2 (proj2 (proj2 (proj2 (proj2
              (model_failures_not_retried Sample.model_down Sample.no_JSON)))))
              Sample.world1 "alice" "q1" "I spoke to both of them."
              [("hrQuestionId", JStr "q1");
               ("userAnswer", JStr "I spoke to both of them.")]
              Sample.question1
              ltac:(discriminate) ltac:(discriminate) ltac:(discriminate)
              eq_refl eq_refl eq_refl ltac:(vm_compute; discriminate) eq_refl
              ltac:(intros p _; reflexivity))
    as (r & w' & E & Hs & Hok & _ & _ & Ha).
  exists r, w'. split; [exact E|]. split; [exact Hs|]. split; [exact Hok|].
  rewrite Ha. reflexivity.
Defined.

(** ** The cap on follow-up questions *)

(** The handlers that count the follow-ups of the question before they
    create one keep every question within the cap. *)

Lemma create_followUp_rows s row a s' :
  create_followUp s row = Ok (a, s') ->
  a = row (mk_id (nextId s)) /\ followUps s' = (followUps s ++ [a])%list.
Proof.
  unfold create_followUp. destruct (find_question _ _); [|discriminate].
  intros [= <- <-]. split; reflexivity.
Qed.

Lemma capped_same_followUps s s' :
  followUps s' = followUps s -> capped s -> capped s'.
Proof. intros E H q. unfold followUps_of. rewrite E. apply H. Qed.

Lemma capped_one_more s s' a :
  followUps s' = (followUps s ++ [a])%list ->
  (List.length (followUps_of s (f_mainQuestionId a))
   < QuestionsRoute.MAX_FOLLOWUP_QUESTIONS)%nat ->
  capped s -> capped s'.
Proof.
  intros E Hlt H q. unfold followUps_of. rewrite E, filter_app, length_app.
  cbn [filter]. destruct (id_is q (f_mainQuestionId a)) eqn:Eq.
  - unfold id_is in Eq. apply String.eqb_eq in Eq. rewrite Eq in Hlt.
    unfold followUps_of in Hlt. cbn. lia.
  - specialize (H q). unfold followUps_of in H. cbn. lia.
Qed.

Lemma capped_QuestionsPOST gemini session i raw w :
  capped (store w) -> capped (store (snd (QuestionsRoute.POST gemini session i raw w))).
Proof.
  intros Hw.
  apply (wp_elim _ _ (fun r => capped (store (snd r)))). unfold QuestionsRoute.POST.
  wp_explore; cbn [snd store]; try assumption.
  match goal with
  | E : create_followUp _ _ = Ok _, G : (_ <=? _)%nat = false |- _ =>
      apply create_followUp_rows in E as [-> E]; apply Nat.leb_gt in G;
      exact (capped_one_more _ _ _ E G Hw)
  end.
Qed.

Lemma capped_QuestionsGET gemini session i q g w :
  capped (store w) -> capped (store (snd (QuestionsRoute.GET gemini session i q g w))).
Proof.
  intros Hw.
  apply (wp_elim _ _ (fun r => capped (store (snd r)))). unfold QuestionsRoute.GET.
  wp_explore; cbn [snd store]; try assumption.
  match goal with
  | E : create_followUp _ _ = Ok _, G : _ && (_ <? _)%nat = true |- _ =>
      apply create_followUp_rows in E as [-> E];
      apply andb_true_iff in G as [_ G]; apply Nat.ltb_lt in G;
      exact (capped_one_more _ _ _ E G Hw)
  end.
Qed.

Lemma capped_processMainQuestion gemini session raw w :
  capped (store w) ->
  capped (store (snd (AnswerRoute.processMainQuestion gemini session raw w))).
Proof.
  intros Hw.
  apply (wp_elim _ _ (fun r => capped (store (snd r)))).
  unfold AnswerRoute.processMainQuestion.
  wp_explore; cbn [snd store]; try assumption.
  all: repeat match goal with
       | E : create_answer _ _ = Ok _ |- _ =>
           apply create_answer_store in E as (? & ? & ->)
       | E : update_answer _ _ _ = Ok _ |- _ =>
           apply update_answer_store in E as (? & ? & ->)
       end.
  all: try (eapply capped_same_followUps; [|exact Hw]; reflexivity).
  all: match goal with
       | E : create_followUp _ _ = Ok _, G : followUps_of _ _ = [] |- _ =>
           apply create_followUp_rows in E as [-> E];
           eapply capped_one_more;
             [exact E
             |cbn [f_mainQuestionId AnswerRoute.scored_followUp];
              change (followUps_of (with_answers ?s _ _) ?i) with (followUps_of s i);
              rewrite G; cbn; unfold QuestionsRoute.MAX_FOLLOWUP_QUESTIONS; lia
             |eapply capped_same_followUps; [|exact Hw]; reflexivity]
       end.
Qed.

(** Interview creation stores every follow-up the model returns. *)
Lemma creation_stores_every_followUp :
  Sample.status_of Sample.creation_by_alice = Some 201 /\
  List.length (followUps_of (store (snd Sample.creation_by_alice)) "2") = 3%nat.
Proof. split; vm_compute; reflexivity. Qed.

(** C1 fails on the follow-up answer handler: it creates a follow-up for the
    main question it is given without counting those the question has.
    Three such requests, each answered 200, leave the question with three
    follow-ups, above [MAX_FOLLOWUP_QUESTIONS]. *)
Theorem followUp_cap_exceeded :
  Sample.status_of (Sample.put_by_alice Sample.world1) = Some 200 /\
  Sample.status_of (Sample.put_by_alice Sample.after_one_put) = Some 200 /\
  Sample.status_of (Sample.put_by_alice Sample.after_two_puts) = Some 200 /\
  List.length (followUps_of (store Sample.after_three_puts) "q1") = 3%nat /\
  (QuestionsRoute.MAX_FOLLOWUP_QUESTIONS < 3)%nat.
Proof.
  split; [vm_compute; reflexivity|].
  split; [vm_compute; reflexivity|].
  split; [vm_compute; reflexivity|].
  split; [vm_compute; reflexivity|].
  unfold QuestionsRoute.MAX_FOLLOWUP_QUESTIONS. lia.
Qed.

(** ** One answer per question *)

(** No request gives a main question a second answer. *)

Lemma keeps_refl : reflexive keeps_one_answer.
Proof. intros w H. exact H. Qed.

Lemma keeps_trans : composes keeps_one_answer keeps_one_answer keeps_one_answer.
Proof. intros a b c H1 H2 H. auto. Qed.

Lemma keeps_same_answers {A} (f : Store -> Outcome (A * Store)) :
  (forall s a s', f s = Ok (a, s') -> answers s' = answers s) ->
  sat keeps_one_answer (write f).
Proof.
  intros H. apply sat_write; [apply keeps_refl|].
  intros s c a s' E. unfold keeps_one_answer. cbn [store]. intros Hs q.
  unfold answers_of_question. rewrite (H _ _ _ E). apply Hs.
Qed.

Lemma filter_find_none {A} (P : A -> bool) l : find P l = None -> filter P l = [].
Proof.
  induction l as [|x l IH]; cbn; [reflexivity|].
  destruct (P x); [discriminate|exact IH].
Qed.

Lemma create_answer_rows s row a s' :
  create_answer s row = Ok (a, s') ->
  answers s' = (answers s ++ [a])%list /\
  (forall q, a_hrQuestionId a = Some q -> answer_of_question s q = None).
Proof.
  unfold create_answer. destruct (negb _); [discriminate|].
  destruct (a_hrQuestionId _) as [q|] eqn:E.
  - destruct (answer_of_question s q) eqn:E'; [discriminate|].
    intros [= <- <-]. split; [reflexivity|]. intros q' Hq. congruence.
  - intros [= <- <-]. split; [reflexivity|]. intros q' Hq. congruence.
Qed.

Lemma create_answer_keeps s row a s' :
  create_answer s row = Ok (a, s') -> one_answer_each s -> one_answer_each s'.
Proof.
  intros E Hs q. apply create_answer_rows in E as [Ha Hnone].
  unfold answers_of_question. rewrite Ha, filter_app, length_app. cbn [filter].
  destruct (opt_id_is q (a_hrQuestionId a)) eqn:Eq.
  - destruct (a_hrQuestionId a) as [q'|] eqn:Eh; [|discriminate].
    cbn in Eq. apply String.eqb_eq in Eq. subst q'.
    specialize (Hnone q eq_refl). unfold answer_of_question in Hnone.
    rewrite (filter_find_none _ _ Hnone). cbn. lia.
  - cbn. specialize (Hs q). unfold answers_of_question in Hs. lia.
Qed.

Lemma filter_replace {A} (P : A -> bool) (g : A -> A) l :
  (forall a, P (g a) = P a) ->
  List.length (filter P (map g l)) = List.length (filter P l).
Proof.
  intros H. induction l as [|x l IH]; cbn; [reflexivity|].
  rewrite H. destruct (P x); cbn; congruence.
Qed.

Lemma update_answer_keeps s id f a s' :
  (forall x, a_hrQuestionId (f x) = a_hrQuestionId x) ->
  update_answer s id f = Ok (a, s') -> one_answer_each s -> one_answer_each s'.
Proof.
  intros Hf E Hs q. unfold update_answer in E.
  destruct (find_answer s id); [|discriminate]. injection E as <- <-.
  unfold answers_of_question. cbn [answers with_answers]. unfold replace_answer.
  rewrite filter_replace; [apply Hs|].
  intros x. destruct (id_is id (a_id x)); [now rewrite Hf|reflexivity].
Qed.

Lemma keeps_create_answer row :
  sat keeps_one_answer (write (fun s => create_answer s row)).
Proof.
  apply sat_write; [apply keeps_refl|]. intros s c a s' E.
  unfold keeps_one_answer. cbn [store]. eapply create_answer_keeps; eassumption.
Qed.

Lemma keeps_update_answer id ua v an :
  sat keeps_one_answer
      (write (fun s => update_answer s id (AnswerRoute.resubmitted ua v an))).
Proof.
  apply sat_write; [apply keeps_refl|]. intros s c a s' E.
  unfold keeps_one_answer. cbn [store].
  eapply update_answer_keeps; [|exact E]. reflexivity.
Qed.

Lemma keeps_upsert_answer q ua v an row :
  sat keeps_one_answer
      (write (fun s => upsert_answer s q (AnswerRoute.resubmitted ua v an) row)).
Proof.
  apply sat_write; [apply keeps_refl|]. intros s c a s' E.
  unfold keeps_one_answer. cbn [store].
  unfold upsert_answer in E. destruct (answer_of_question s q).
  - eapply update_answer_keeps; [|exact E]. reflexivity.
  - eapply create_answer_keeps; eassumption.
Qed.

Lemma keeps_create_interview row :
  sat keeps_one_answer (write (fun s => create_interview s row)).
Proof. apply keeps_same_answers. unfold create_interview. now intros s a s' [= <- <-]. Qed.

Lemma keeps_create_question row :
  sat keeps_one_answer (write (fun s => create_question s row)).
Proof.
  apply keeps_same_answers. unfold create_question. intros s a s'.
  destruct (find_interview _ _); [|discriminate]. now intros [= <- <-].
Qed.

Lemma keeps_create_followUp row :
  sat keeps_one_answer (write (fun s => create_followUp s row)).
Proof.
  apply keeps_same_answers. unfold create_followUp. intros s a s'.
  destruct (find_question _ _); [|discriminate]. now intros [= <- <-].
Qed.

Lemma keeps_generateContent gemini p : sat keeps_one_answer (generateContent gemini p).
Proof. intros w. unfold generateContent. destruct (gemini _ _); exact (fun H => H). Qed.

Lemma keeps_missing_fields body fields :
  sat keeps_one_answer (HrRoundRoute.missing_fields body fields).
Proof. intros w. rewrite missing_fields_world. apply keeps_refl. Qed.

Ltac keeps_step :=
  preorder_step keeps_one_answer keeps_refl keeps_trans
    ltac:(first [ apply keeps_create_interview | apply keeps_create_question
                | apply keeps_create_followUp | apply keeps_create_answer
                | apply keeps_update_answer | apply keeps_upsert_answer
                | apply keeps_generateContent | apply keeps_missing_fields ]).

Ltac keeps := cbv zeta; repeat keeps_step.

Lemma handle_keeps_one_answer gemini JSON_parse session r :
  sat keeps_one_answer (App.handle gemini JSON_parse session r).
Proof.
  destruct r; cbn [App.handle].
  - unfold InterviewRoute.GET. keeps.
  - apply sat_unchanged; [apply keeps_refl|]. intros w. lazy. reflexivity.
  - apply sat_unchanged; [apply keeps_refl|]. intros w. lazy. reflexivity.
  - apply sat_unchanged; [apply keeps_refl|]. intros w. lazy. reflexivity.
  - unfold AnswersRoute.GET. keeps.
  - unfold QuestionsRoute.GET. keeps.
  - unfold QuestionsRoute.POST. keeps.
  - unfold HrRoundRoute.POST,  HrRoundRoute.join_skills, HrRoundRoute.extractJSON,
      HrRoundRoute.create_generated_question, HrRoundRoute.create_generated_followUp.
    keeps.
  - unfold HrRoundRoute.GET, HrRoundRoute.owner_of_followUp, HrRoundRoute.owner_of_question.
    keeps.
  - apply sat_unchanged; [apply keeps_refl|]. intros w. lazy. reflexivity.
  - apply sat_unchanged; [apply keeps_refl|]. intros w. lazy. reflexivity.
  - apply sat_unchanged; [apply keeps_refl|]. intros w. lazy. reflexivity.
  - unfold AnswerRoute.processMainQuestion, AnswerRoute.analyzeAnswer,
      AnswerRoute.generateFollowUpQuestion. keeps.
  - unfold AnswerRoute.processFollowUpQuestion, AnswerRoute.analyzeAnswer,
      AnswerRoute.generateFollowUpQuestion. keeps.
Qed.


(** The same over any sequence of requests. *)
Lemma reachable_one_answer_each gemini JSON_parse w0 w :
  App.reachable gemini JSON_parse w0 w ->
  one_answer_each (store w0) -> one_answer_each (store w).
Proof.
  induction 1 as [|w session r _ IH]; [auto|].
  intros H0. apply handle_keeps_one_answer. auto.
Qed.

(** C2 fails on the main answer handler: it looks for an answer of the same
    user, so the answer of another user to a question that has one is
    neither written over the existing record nor saved; the unique index on
    the question rejects it and the handler answers 500. *)
Theorem other_user_answer_is_rejected :
  answers_of_question Sample.store2 "q1" = [Sample.answer1] /\
  Sample.status_of Sample.post_by_bob = Some 500 /\
  (exists r, fst Sample.post_by_bob = Ok r /\
             get (body r) "error" = Some (JStr "Failed to save answer")) /\
  answers (store (snd Sample.post_by_bob)) = [Sample.answer1].
Proof.
  split; [reflexivity|]. split; [vm_compute; reflexivity|].
  split; [eexists; split; vm_compute; reflexivity|].
  vm_compute. reflexivity.
Qed.
(** * Further properties *)

(** ** What the answer parser returns *)

Import Text Regex Parser Captures.

Lemma all_chars_In cls s :
  all_chars cls s = true <-> forall c, In c (list_ascii_of_string s) -> cls c = true.
Proof. unfold all_chars. apply forallb_forall. Qed.

Lemma ltrim_chars cls s : all_chars cls s = true -> all_chars cls (ltrim s) = true.
Proof.
  unfold all_chars. induction s as [|c s IH]; cbn; [auto|].
  intros H. apply andb_true_iff in H as [Hc Hs].
  destruct (is_space c); [auto|]. cbn. now rewrite Hc, Hs.
Qed.

Lemma rtrim_chars cls s : all_chars cls s = true -> all_chars cls (rtrim s) = true.
Proof.
  unfold all_chars. induction s as [|c s IH]; cbn; [auto|].
  intros H. apply andb_true_iff in H as [Hc Hs].
  destruct (is_empty (rtrim s) && is_space c); [reflexivity|].
  cbn. now rewrite Hc, IH.
Qed.

Lemma trim_chars cls s : all_chars cls s = true -> all_chars cls (trim s) = true.
Proof. intros H. apply rtrim_chars, ltrim_chars, H. Qed.

Lemma rtrim_idem s : rtrim (rtrim s) = rtrim s.
Proof.
  induction s as [|c s IH]; cbn; [reflexivity|].
  destruct (is_empty (rtrim s) && is_space c) eqn:E; [reflexivity|].
  cbn. now rewrite IH, E.
Qed.

Lemma ltrim_headed s : headed (ltrim s) = true.
Proof.
  induction s as [|c s IH]; cbn; [reflexivity|].
  destruct (is_space c) eqn:E; [exact IH|]. cbn. now rewrite E.
Qed.

Lemma headed_ltrim s : headed s = true -> ltrim s = s.
Proof.
  destruct s as [|c s]; cbn; [reflexivity|].
  destruct (is_space c); cbn; [discriminate|reflexivity].
Qed.

Lemma rtrim_headed s : headed s = true -> headed (rtrim s) = true.
Proof.
  destruct s as [|c s]; cbn; [reflexivity|].
  destruct (is_space c) eqn:E; cbn; [discriminate|].
  rewrite andb_false_r. cbn. now rewrite E.
Qed.

Lemma trim_idem s : trim (trim s) = trim s.
Proof.
  unfold trim. rewrite (headed_ltrim (rtrim (ltrim s))).
  - apply rtrim_idem.
  - apply rtrim_headed, ltrim_headed.
Qed.

Lemma split_chars sep s piece :
  In piece (split sep s) -> all_chars (fun c => negb (sep c)) piece = true.
Proof.
  revert piece. induction s as [|c s IH]; cbn; intros piece H.
  - destruct H as [<-|[]]. reflexivity.
  - destruct (sep c) eqn:E.
    + destruct H as [<-|H]; [reflexivity|auto].
    + destruct (split sep s) as [|h t] eqn:Es.
      * destruct H as [<-|[]]. unfold all_chars. cbn. now rewrite E.
      * destruct H as [<-|H].
        -- unfold all_chars. cbn. rewrite E. cbn. apply (IH h). now left.
        -- apply IH. now right.
Qed.

Lemma re_exec_chars p s cap :
  re_exec p s = Some cap -> all_chars (capture_class p) cap = true.
Proof. intros H. apply all_chars_In. intros c. eapply re_exec_class; eassumption. Qed.

Lemma parsed_by_capture (text : string) (maxScore : Z) :
  text <> "" ->
  let r := parseAnalysisResponse (Some text) maxScore in
  score r = match captured KScore text with
            | Some m1 => Math_min (parseInt m1) maxScore
            | None => maxScore / 2
            end /\
  evaluationFeedback r = match captured KFeedback text with
                         | Some m1 => trim m1
                         | None => "No specific feedback provided."
                         end /\
  matchedKeyPoints r = match captured KKeyPoints text with
                       | Some m1 => key_points m1
                       | None => []
                       end /\
  voiceTone r = option_map trim (captured KVoiceTone text) /\
  confidence r = option_map trim (captured KConfidence text).
Proof.
  intros Hne. destruct text as [|c0 t0]; [congruence|].
  cbv zeta. unfold parseAnalysisResponse, captured.
  cbn [is_empty extractors find key_eqb fst snd fold_left].
  unfold extract_step. cbn [fst snd].
  repeat match goal with
         | |- context [re_exec ?p ?t] =>
             let E := fresh "E" in
             destruct (re_exec p t) as [?|] eqn:E;
             [rewrite (re_exec_nonempty _ _ _ E)|]
         end.
  all: cbn [assign score evaluationFeedback matchedKeyPoints voiceTone confidence
            option_map].
  all: unfold key_points; split; [reflexivity|split; [reflexivity|split;
         [reflexivity|split; reflexivity]]].
Qed.

(** X1. Every field [parseAnalysisResponse] returns for a non-empty text is
    decided by the first match of its own pattern and by nothing else: the
    score is [Math.min(parseInt(capture), maxScore)], with the number
    [parseInt] reads rounded to binary64 as it is, the feedback, the voice
    tone and the confidence are the trimmed capture, the key points are the
    capture split at commas and line feeds, trimmed, without the empty
    pieces; a field whose pattern does not match has its default. *)
Theorem parse_closed_form (text : string) (maxScore : Z) :
  text <> "" ->
  let r := parseAnalysisResponse (Some text) maxScore in
  score r = match captured KScore text with
            | Some m1 => Math_min (parseInt m1) maxScore
            | None => maxScore / 2
            end /\
  evaluationFeedback r = match captured KFeedback text with
                         | Some m1 => trim m1
                         | None => "No specific feedback provided."
                         end /\
  matchedKeyPoints r = match captured KKeyPoints text with
                       | Some m1 => key_points m1
                       | None => []
                       end /\
  voiceTone r = option_map trim (captured KVoiceTone text) /\
  confidence r = option_map trim (captured KConfidence text).
Proof. exact (parsed_by_capture text maxScore). Qed.

Lemma parse_closed_form_witness :
  let r := parseAnalysisResponse (Some "Score: 8 Feedback: fine") 10 in
  score r = match captured KScore "Score: 8 Feedback: fine" with
            | Some m1 => Math_min (parseInt m1) 10
            | None => 10 / 2
            end /\
  evaluationFeedback r = match captured KFeedback "Score: 8 Feedback: fine" with
                         | Some m1 => trim m1
                         | None => "No specific feedback provided."
                         end /\
  matchedKeyPoints r = match captured KKeyPoints "Score: 8 Feedback: fine" with
                       | Some m1 => key_points m1
                       | None => []
                       end /\
  voiceTone r = option_map trim (captured KVoiceTone "Score: 8 Feedback: fine") /\
  confidence r = option_map trim (captured KConfidence "Score: 8 Feedback: fine").
Proof. apply (parse_closed_form "Score: 8 Feedback: fine" 10). discriminate. Defined.

Lemma digit_not_space c : is_digit c = true -> is_space c = false.
Proof.
  unfold is_digit, is_space. cbv zeta. generalize (code c). intros n.
  rewrite andb_true_iff, !N.leb_le. intros [H1 H2].
  repeat rewrite orb_false_iff. rewrite andb_false_iff, !N.leb_gt, !N.eqb_neq. lia.
Qed.

Lemma take_while_run cls ds rest :
  all_chars cls ds = true -> stops cls rest = true ->
  take_while cls (ds ++ rest) = ds.
Proof.
  unfold all_chars. induction ds as [|d ds IH]; cbn; intros Hd Hr.
  - destruct rest as [|c r]; cbn in *; [reflexivity|].
    now destruct (cls c).
  - apply andb_true_iff in Hd as [H1 H2]. rewrite H1. f_equal. auto.
Qed.

Lemma ws_then_capture_run cls ws ds rest :
  (forall c, cls c = true -> is_space c = false) ->
  all_chars is_space ws = true ->
  ds <> "" -> all_chars cls ds = true -> stops cls rest = true ->
  ws_then_capture cls (ws ++ ds ++ rest) = Some ds.
Proof.
  intros Hcls Hws Hne Hd Hr. unfold all_chars in Hws.
  induction ws as [|c ws IH]; cbn in *.
  - destruct ds as [|d ds]; [congruence|]. cbn.
    unfold all_chars in Hd. cbn in Hd. apply andb_true_iff in Hd as [H1 H2].
    rewrite H1, (Hcls d H1). f_equal. f_equal. now apply take_while_run.
  - apply andb_true_iff in Hws as [H1 H2]. rewrite H1, (IH H2). reflexivity.
Qed.

(** X2. When the analysis text begins with "Score:" in any letter case,
    followed by optional whitespace and a run of digits, the score is the
    number [parseInt] reads from the digits, which is the integer they
    write rounded to binary64, capped at [maxScore].  For a [maxScore] up
    to [2 ^ 53] that is the integer the digits write, capped at
    [maxScore]. *)
Theorem leading_score (text ws ds rest : string) (maxScore : Z) :
  starts_ci "score:" text = Some (ws ++ ds ++ rest) ->
  all_chars is_space ws = true ->
  ds <> "" -> all_chars is_digit ds = true -> stops is_digit rest = true ->
  let r := parseAnalysisResponse (Some text) maxScore in
  score r = Math_min (Binary64.of_nat_literal (decimal_value ds)) maxScore /\
  (maxScore <= 2 ^ 53 -> score r = Z.min (decimal_value ds) maxScore).
Proof.
  intros Hs Hws Hne Hd Hr. cbv zeta.
  assert (Ht : text <> "") by (intros ->; discriminate).
  assert (E : re_exec score_pattern text = Some ds).
  { assert (M : match_here score_pattern text = Some ds).
    { unfold match_here. cbn [literal capture_class score_pattern]. rewrite Hs.
      apply ws_then_capture_run; auto using digit_not_space. }
    destruct text; cbn [re_exec]; now rewrite M. }
  rewrite (score_by_capture text maxScore Ht), E. unfold parseInt.
  split; [reflexivity|]. intros Hm. now apply Math_min_exact.
Qed.

Lemma leading_score_witness :
  score (parseAnalysisResponse (Some "SCORE:  8/10. Feedback: good") 10) = 8.
Proof.
  apply (proj2 (leading_score "SCORE:  8/10. Feedback: good" "  " "8"
                  "/10. Feedback: good" 10
                  eq_refl eq_refl ltac:(discriminate) eq_refl eq_refl)).
  vm_compute. discriminate.
Defined.

Lemma key_points_clean m1 p :
  In p (key_points m1) ->
  p <> "" /\ trim p = p /\ all_chars (fun c => negb (is_comma_or_LF c)) p = true.
Proof.
  unfold key_points. intros H. apply filter_In in H as [H Hne].
  apply in_map_iff in H as (piece & <- & Hin).
  split; [|split].
  - intros E. rewrite E in Hne. discriminate.
  - apply trim_idem.
  - apply trim_chars. eapply split_chars; eassumption.
Qed.

Lemma captured_chars k text m1 :
  captured k text = Some m1 ->
  exists p, In (k, p) extractors /\ all_chars (capture_class p) m1 = true.
Proof.
  unfold captured. destruct k; cbn [find extractors key_eqb fst snd]; intros H;
    eexists; (split; [|eapply re_exec_chars; exact H]); cbn; auto 10.
Qed.

Lemma captured_line k text m1 :
  k = KVoiceTone \/ k = KConfidence ->
  captured k text = Some m1 -> all_chars (not_char LF) m1 = true.
Proof.
  intros Hk E. apply captured_chars in E as (p & Hin & Hp).
  cbn in Hin.
  destruct Hk as [-> | ->];
    repeat (destruct Hin as [Hin|Hin]; [try discriminate|]); try contradiction;
    injection Hin as <-; exact Hp.
Qed.

(** X3. Whatever the analysis text, the feedback [parseAnalysisResponse]
    returns contains no hyphen (the pattern stops at the first one) and is
    trimmed; every key point is non-empty, trimmed and free of commas and
    line feeds; a voice tone or confidence, when there is one, is trimmed
    and free of line feeds. *)
Theorem parsed_fields_clean (analysisText : option string) (maxScore : Z) :
  let r := parseAnalysisResponse analysisText maxScore in
  (all_chars (not_char "-") (evaluationFeedback r) = true /\
   trim (evaluationFeedback r) = evaluationFeedback r) /\
  (forall p, In p (matchedKeyPoints r) ->
     p <> "" /\ trim p = p /\
     all_chars (fun c => negb (is_comma_or_LF c)) p = true) /\
  (forall v, voiceTone r = Some v \/ confidence r = Some v ->
     all_chars (not_char LF) v = true /\ trim v = v).
Proof.
  cbv zeta.
  assert (Hdef : forall r, r = parseAnalysisResponse None maxScore ->
    (all_chars (not_char "-") (evaluationFeedback r) = true /\
     trim (evaluationFeedback r) = evaluationFeedback r) /\
    (forall p, In p (matchedKeyPoints r) ->
       p <> "" /\ trim p = p /\
       all_chars (fun c => negb (is_comma_or_LF c)) p = true) /\
    (forall v, voiceTone r = Some v \/ confidence r = Some v ->
       all_chars (not_char LF) v = true /\ trim v = v)).
  { intros r ->. cbn. split; [split; reflexivity|]. split; [intros p []|].
    intros v [H|H]; discriminate. }
  destruct analysisText as [text|]; [|now apply Hdef].
  destruct text as [|c0 t0]; [now apply Hdef|]. clear Hdef.
  destruct (parsed_by_capture (String c0 t0) maxScore ltac:(discriminate))
    as (_ & Hf & Hk & Hv & Hc).
  rewrite Hf, Hk, Hv, Hc. clear Hf Hk Hv Hc.
  split; [|split].
  - destruct (captured KFeedback _) as [m1|] eqn:E; [|split; reflexivity].
    split; [|apply trim_idem].
    apply trim_chars. apply captured_chars in E as (p & Hin & Hp).
    cbn in Hin. repeat (destruct Hin as [Hin|Hin]; [try discriminate|]); [|contradiction].
    injection Hin as <-. exact Hp.
  - destruct (captured KKeyPoints _) as [m1|]; [|intros p []].
    intros p. apply key_points_clean.
  - intros v [H|H].
    + destruct (captured KVoiceTone _) as [m1|] eqn:E; [|discriminate].
      injection H as <-. split; [|apply trim_idem].
      apply trim_chars. eapply captured_line; [left; reflexivity|exact E].
    + destruct (captured KConfidence _) as [m1|] eqn:E; [|discriminate].
      injection H as <-. split; [|apply trim_idem].
      apply trim_chars. eapply captured_line; [right; reflexivity|exact E].
Qed.

(** The feedback of a hyphenated sentence ends before the hyphen. *)
Lemma parsed_fields_clean_witness :
  evaluationFeedback
    (parseAnalysisResponse (Some "Feedback: A well-structured answer") 10)
  = "A well" /\
  all_chars (not_char "-")
    (evaluationFeedback
       (parseAnalysisResponse (Some "Feedback: A well-structured answer") 10)) = true.
Proof.
  split; [reflexivity|].
  exact (proj1 (proj1 (parsed_fields_clean
                         (Some "Feedback: A well-structured answer") 10))).
Defined.

(** ** The JSON block of a reply *)

Lemma from_open_brace_spec s t :
  HrRoundRoute.from_open_brace s = Some t <->
  exists pre r, s = pre ++ String "{" r /\ t = String "{" r /\
                all_chars (not_char "{") pre = true.
Proof.
  split.
  - revert t. induction s as [|c s IH]; cbn; intros t H; [discriminate|].
    destruct (Ascii.eqb c "{") eqn:E.
    + apply Ascii.eqb_eq in E. subst c. injection H as <-.
      exists "", s. repeat split; reflexivity.
    + destruct (IH t H) as (pre & r & -> & -> & Hp).
      exists (String c pre), r. repeat split; try reflexivity.
      unfold all_chars, not_char in *. cbn. now rewrite E, Hp.
  - intros (pre & r & -> & -> & Hp). unfold all_chars in Hp.
    induction pre as [|c pre IH]; cbn in *; [reflexivity|].
    apply andb_true_iff in Hp as [H1 H2]. unfold not_char in H1.
    apply negb_true_iff in H1. rewrite H1. auto.
Qed.

Lemma to_last_close_brace_none s :
  HrRoundRoute.to_last_close_brace s = None <-> all_chars (not_char "}") s = true.
Proof.
  unfold all_chars, not_char. induction s as [|c s IH]; cbn; [tauto|].
  destruct (HrRoundRoute.to_last_close_brace s) as [r|].
  - split; [discriminate|]. intros H. apply andb_true_iff in H as [_ H].
    apply IH in H. discriminate.
  - destruct (Ascii.eqb c "}"); cbn.
    + split; discriminate.
    + split; [intros _; now apply IH|reflexivity].
Qed.

Lemma to_last_close_brace_spec s b :
  HrRoundRoute.to_last_close_brace s = Some b <->
  exists mid post, s = mid ++ String "}" post /\ b = mid ++ "}" /\
                   all_chars (not_char "}") post = true.
Proof.
  split.
  - revert b. induction s as [|c s IH]; cbn; intros b H; [discriminate|].
    destruct (HrRoundRoute.to_last_close_brace s) as [r|] eqn:E.
    + injection H as <-. destruct (IH r eq_refl) as (mid & post & -> & -> & Hp).
      exists (String c mid), post. repeat split; auto.
    + destruct (Ascii.eqb c "}") eqn:Ec; [|discriminate].
      apply Ascii.eqb_eq in Ec. subst c. injection H as <-.
      exists "", s. repeat split. now apply to_last_close_brace_none.
  - intros (mid & post & -> & -> & Hp).
    induction mid as [|c mid IH]; cbn.
    + apply to_last_close_brace_none in Hp. now rewrite Hp.
    + now rewrite IH.
Qed.

(** X4. The block [extractJSON] takes from a reply runs from the first
    opening brace to the last closing brace after it: the reply is
    [pre ++ block ++ post] with no opening brace in [pre] and no closing
    brace in [post]; and there is such a block exactly when the reply has
    that shape. *)
Theorem json_block_spec (response block : string) :
  HrRoundRoute.json_block response = Some block <->
  exists pre mid post,
    response = pre ++ "{" ++ mid ++ "}" ++ post /\
    block = "{" ++ mid ++ "}" /\
    all_chars (not_char "{") pre = true /\
    all_chars (not_char "}") post = true.
Proof.
  unfold HrRoundRoute.json_block. split.
  - destruct (HrRoundRoute.from_open_brace response) as [t|] eqn:E; [|discriminate].
    apply from_open_brace_spec in E as (pre & r & -> & -> & Hp).
    intros H. apply to_last_close_brace_spec in H as (mid & post & Hs & -> & Hq).
    destruct mid as [|c mid]; cbn in Hs; [discriminate|].
    injection Hs as <- ->.
    exists pre, mid, post. repeat split; auto.
  - intros (pre & mid & post & -> & -> & Hp & Hq).
    assert (E : HrRoundRoute.from_open_brace (pre ++ "{" ++ mid ++ "}" ++ post)
                = Some ("{" ++ mid ++ "}" ++ post)).
    { apply from_open_brace_spec. exists pre, (mid ++ "}" ++ post). auto. }
    rewrite E. apply to_last_close_brace_spec.
    exists (String "{" mid), post. repeat split; auto.
Qed.

Lemma json_block_spec_witness :
  HrRoundRoute.json_block "Here: {a: {}} done" = Some "{a: {}}".
Proof.
  apply (proj2 (json_block_spec "Here: {a: {}} done" "{a: {}}")).
  exists "Here: ", "a: {}", " done". repeat split; reflexivity.
Defined.

(** ** The results page: colours and range *)

Import Results Colors.

Lemma colors_well_upto_100 : colors_well_upto 100 = true.
Proof. vm_compute. reflexivity. Qed.

Lemma colors_well_upto_spec bound :
  colors_well_upto bound = true ->
  forall s m, 0 <= s <= Z.of_nat bound -> 0 <= m <= Z.of_nat bound ->
  getScoreColor s m = exact_color s m.
Proof.
  unfold colors_well_upto. intros H s m Hs Hm.
  rewrite forallb_forall in H.
  specialize (H (Z.to_nat m)). rewrite forallb_forall in H.
  specialize (fun pf => H pf (Z.to_nat s)).
  rewrite !Z2Nat.id in H by lia.
  apply String.eqb_eq. apply H; apply in_seq; lia.
Qed.

(** X5. For scores and maxima from 0 to 100, the colour [getScoreColor]
    computes in binary64 is the one the exact percentage gives: green from
    80 percent, yellow from 60 percent, red below; a positive score out of
    0 is green (the quotient is infinite) and 0 out of 0 is red (it is not
    a number). *)
Theorem getScoreColor_thresholds (score maxScore : Z) :
  0 <= score <= 100 -> 0 <= maxScore <= 100 ->
  getScoreColor score maxScore = exact_color score maxScore.
Proof.
  intros Hs Hm. apply (colors_well_upto_spec 100 colors_well_upto_100); assumption.
Qed.

Lemma getScoreColor_thresholds_witness :
  getScoreColor 6 10 = "text-yellow-600".
Proof. apply (getScoreColor_thresholds 6 10); lia. Defined.

Lemma sums_ordered (qs : list RQuestion) :
  Forall (fun q => 0 <= or_int (answer_score q) 0 <= or_int (maxScore q) 0) qs ->
  0 <= sum_over (fun q => or_int (answer_score q) 0) qs
    <= sum_over (fun q => or_int (maxScore q) 0) qs.
Proof.
  induction 1 as [|q qs Hq _ IH]; cbn [sum_over fold_right]; [lia|].
  unfold sum_over in IH. lia.
Qed.

Lemma spec_percentage_range t m : 0 <= t <= m -> 0 <= spec_percentage t m <= 100.
Proof.
  intros H. unfold spec_percentage.
  destruct (Z.eqb_spec m 0) as [->|Hm]; cbv iota; [lia|].
  assert (0 < 2 * m) by lia. split.
  - apply Z.div_pos; lia.
  - assert ((200 * t + m) / (2 * m) < 101); [|lia].
    apply Z.div_lt_upper_bound; lia.
Qed.

Lemma halfway_positive t m :
  0 <= t <= m -> 0 < m -> halfway t m = true -> 1 <= spec_percentage t m.
Proof.
  intros H Hm Hh. unfold halfway in Hh. unfold spec_percentage.
  destruct (Z.eqb_spec m 0) as [->|_]; cbv iota; [lia|].
  apply Z.eqb_eq in Hh. apply Z.div_le_lower_bound; [lia|].
  apply Z.mod_divide in Hh; [|lia]. destruct Hh as [k Hk].
  assert (0 < k) by (destruct (Z.lt_ge_cases 0 k); [assumption|nia]). nia.
Qed.

(** X6. When the score of every answer lies between 0 and the [maxScore]
    of its question, and the maxima add up to at most 200, the percentage
    of the results page is an integer between 0 and 100. *)
Theorem percentage_within_range (qs : list RQuestion) (pass : option Z) :
  Forall (fun q => 0 <= or_int (answer_score q) 0 <= or_int (maxScore q) 0) qs ->
  sum_over (fun q => or_int (maxScore q) 0) qs <= 200 ->
  exists p,
    calculatePercentage {| questions := Some qs; passScore := pass |} = RInt p /\
    0 <= p <= 100.
Proof.
  intros Hqs Hm. pose proof (sums_ordered qs Hqs) as Ht.
  pose proof (rounds_well_bounded _ _ Ht Hm) as Hw.
  unfold rounds_well in Hw. unfold calculatePercentage.
  cbn [getTotalScore getMaxPossibleScore questions].
  rewrite (float_sum_exact (fun q => or_int (answer_score q) 0) qs), 
          (float_sum_exact (fun q => or_int (maxScore q) 0) qs); try lia.
  2:{ eapply Forall_impl; [|exact Hqs]. cbv beta. intros q Hq. lia. }
  2:{ eapply Forall_impl; [|exact Hqs]. cbv beta. intros q Hq. lia. }
  rewrite !Z.add_0_l.
  set (t := sum_over (fun q => or_int (answer_score q) 0) qs) in *.
  set (m := sum_over (fun q => or_int (maxScore q) 0) qs) in *.
  destruct (percentage_of (of_int t) (of_int m)) as [p| | |] eqn:Ep; try discriminate.
  exists p. split; [reflexivity|].
  pose proof (spec_percentage_range t m Ht) as Hr.
  apply orb_true_iff in Hw. destruct Hw as [Hw|Hw].
  - apply Z.eqb_eq in Hw. lia.
  - apply andb_true_iff in Hw as [Hh Hw]. apply Z.eqb_eq in Hw.
    destruct (Z.eq_dec m 0) as [E0|Hne].
    + unfold percentage_of in Ep. rewrite E0 in Ep. cbn in Ep. injection Ep as <-. lia.
    + pose proof (halfway_positive t m Ht ltac:(lia) Hh). lia.
Qed.

Lemma percentage_within_range_witness :
  exists p,
    calculatePercentage results_23_of_40 = RInt p /\ 0 <= p <= 100.
Proof.
  apply (percentage_within_range
           [answered 8 10; answered 5 10; answered 5 10; answered 5 10] None).
  - repeat constructor; cbn; lia.
  - vm_compute. discriminate.
Defined.

Import Js Db Fx Logic.
Import Rel.
Local Open Scope fx_scope.

(** ** Who is asked to sign in, and what a GET may change *)

(** X7. A caller who is not signed in gets 401 "Unauthorized" from every
    route but the answers GET, and the request changes nothing: no row is
    written and the model is not called. *)
Theorem signed_out_is_unauthorized gemini JSON_parse (r : App.Request) (w : World) :
  asks_no_session r = false ->
  App.handle gemini JSON_parse None r w
  = (Ok (json (error_body "Unauthorized") 401), w).
Proof. destruct r; cbn [asks_no_session]; intros H; try discriminate; reflexivity. Qed.

Lemma signed_out_is_unauthorized_witness :
  App.handle Sample.model_up Sample.no_JSON None
    (App.MainAnswerPOST (Sample.answer_body "I spoke to both of them.")) Sample.world1
  = (Ok (json (error_body "Unauthorized") 401), Sample.world1).
Proof.
  apply (signed_out_is_unauthorized Sample.model_up Sample.no_JSON
           (App.MainAnswerPOST (Sample.answer_body "I spoke to both of them."))
           Sample.world1).
  reflexivity.
Defined.

Lemma same_refl : reflexive same.
Proof. intros w. reflexivity. Qed.

Lemma same_trans : composes same same same.
Proof. intros a b c H1 H2. unfold same in *. congruence. Qed.

Ltac same_step := preorder_step same same_refl same_trans fail.
Ltac read_only := cbv zeta; repeat same_step.

Lemma same_owner_of_question s q : sat same (HrRoundRoute.owner_of_question s q).
Proof. unfold HrRoundRoute.owner_of_question. read_only. Qed.

Lemma same_owner_of_followUp s f : sat same (HrRoundRoute.owner_of_followUp s f).
Proof.
  unfold HrRoundRoute.owner_of_followUp.
  repeat first [apply same_owner_of_question | same_step].
Qed.

(** X8. The GET handlers are read-only: whatever the caller and the
    parameters, the interview GET, the answers GET and the follow-up GET
    leave the store and the log of model calls as they are, and so does
    the questions GET unless it is asked to generate a follow-up
    ([generateFollowUp=true]). *)
Theorem GET_is_read_only gemini session (w : World) :
  (forall interviewId, snd (InterviewRoute.GET session interviewId w) = w) /\
  (forall interviewId, snd (AnswersRoute.GET interviewId w) = w) /\
  (forall followupId mainQuestionId,
     snd (HrRoundRoute.GET session followupId mainQuestionId w) = w) /\
  (forall interviewId questionId generateFollowUp,
     strict_eq generateFollowUp (JStr "true") = false ->
     snd (QuestionsRoute.GET gemini session interviewId questionId generateFollowUp w)
     = w).
Proof.
  split; [|split; [|split]].
  - intros i. assert (H : sat same (InterviewRoute.GET session i)).
    { unfold InterviewRoute.GET. read_only. }
    apply H.
  - intros i. assert (H : sat same (AnswersRoute.GET i)).
    { unfold AnswersRoute.GET. read_only. }
    apply H.
  - intros f m. assert (H : sat same (HrRoundRoute.GET session f m)).
    { unfold HrRoundRoute.GET.
      repeat first [ apply same_owner_of_question | apply same_owner_of_followUp
                   | same_step ]. }
    apply H.
  - intros i q g Hg. assert (H : sat same (QuestionsRoute.GET gemini session i q g)).
    { unfold QuestionsRoute.GET. rewrite Hg. cbn [andb]. read_only. }
    apply H.
Qed.

Lemma GET_is_read_only_witness :
  snd (QuestionsRoute.GET Sample.model_up (Some "alice") (JStr "i1") (JStr "q1") JNull
         Sample.world2)
  = Sample.world2.
Proof.
  apply (proj2 (proj2 (proj2 (GET_is_read_only Sample.model_up (Some "alice")
                                Sample.world2)))).
  reflexivity.
Defined.

(** ** The interview GET *)

Lemma find_interview_of_some s id u i :
  find_interview_of s id u = Some i ->
  In i (interviews s) /\ iv_id i = id /\ iv_userId i = u.
Proof.
  unfold find_interview_of. intros H. apply find_some in H as [Hin Hb].
  apply andb_true_iff in Hb as [H1 H2]. unfold id_is in *.
  apply String.eqb_eq in H1, H2. auto.
Qed.

(** X9. For a signed-in caller, the GET of an interview by id answers 200
    or 404 and changes nothing; it answers 200 exactly when the store has
    an interview with that id that belongs to the caller, and the body is
    then that interview. *)
Theorem interview_GET_by_id (w : World) (u id : Id) :
  u <> "" -> id <> "" ->
  exists r,
    InterviewRoute.GET (Some u) (JStr id) w = (Ok r, w) /\
    (status r = 200 \/ status r = 404) /\
    (status r = 200 <->
     exists i, In i (interviews (store w)) /\ iv_id i = id /\ iv_userId i = u) /\
    (status r = 200 ->
     get (body r) "id" = Some (JStr id) /\ get (body r) "userId" = Some (JStr u)).
Proof.
  intros Hu Hid. destruct u as [|c u']; [congruence|].
  destruct id as [|c' id']; [congruence|].
  apply (wp_elim _ _ (fun x => exists r, x = (Ok r, w) /\ _)).
  unfold InterviewRoute.GET. wp_run.
  destruct (find_interview_of (store w) _ _) as [i|] eqn:E; wp_run.
  - apply find_interview_of_some in E as (Hin & Hi & Hown).
    eexists. split; [reflexivity|]. cbn [status body json].
    split; [now left|]. split.
    + split; [intros _; eauto|reflexivity].
    + intros _. cbn. now rewrite Hi, Hown.
  - eexists. split; [reflexivity|]. cbn [status body json].
    split; [now right|]. split.
    + split; [discriminate|]. intros (i & Hin & Hi & Hown). exfalso.
      revert E. unfold find_interview_of. intros E.
      eapply find_none in E; [|exact Hin]. unfold id_is in E.
      rewrite Hi, Hown, !String.eqb_refl in E. discriminate.
    + discriminate.
Qed.

Lemma interview_GET_by_id_witness :
  exists r,
    InterviewRoute.GET (Some "alice") (JStr "i1") Sample.world1 = (Ok r, Sample.world1) /\
    (status r = 200 \/ status r = 404) /\
    (status r = 200 <->
     exists i, In i (interviews (store Sample.world1)) /\ iv_id i = "i1" /\
               iv_userId i = "alice") /\
    (status r = 200 ->
     get (body r) "id" = Some (JStr "i1") /\ get (body r) "userId" = Some (JStr "alice")).
Proof. apply (interview_GET_by_id Sample.world1 "alice" "i1"); discriminate. Defined.

(** X10. Without an interview id, the interview GET lists the interviews
    of the signed-in caller and no others, the newest first, each with the
    number of its questions. *)
Theorem interview_GET_list (w : World) (u : Id) (interviewId : JsVal) :
  u <> "" -> truthy interviewId = false ->
  let own := rev (interviews_of_user (store w) u) in
  exists l,
    InterviewRoute.GET (Some u) interviewId w = (Ok (json (JArr l) 200), w) /\
    map (fun v => get v "id") l = map (fun i => Some (JStr (iv_id i))) own /\
    (forall v, In v l -> get v "userId" = Some (JStr u)) /\
    map (fun v => get v "_count") l
    = map (fun i =>
             Some (JObj [("questions",
                          JNum (Z.of_nat (List.length (questions_of (store w) (iv_id i)))))]))
          own.
Proof.
  intros Hu Hi. destruct u as [|c u']; [congruence|]. cbv zeta.
  apply (wp_elim _ _ (fun x => exists l, x = (Ok (json (JArr l) 200), w) /\ _)).
  unfold InterviewRoute.GET. wp_run. rewrite Hi. wp_run.
  eexists. split; [reflexivity|].
  split; [|split].
  - rewrite map_map. apply map_ext. intros i. reflexivity.
  - intros v Hv. apply in_map_iff in Hv as (i & <- & Hin).
    apply in_rev in Hin. unfold interviews_of_user in Hin.
    apply filter_In in Hin as [_ Hb]. unfold id_is in Hb. apply String.eqb_eq in Hb.
    cbn. now rewrite Hb.
  - rewrite map_map. apply map_ext. intros i. reflexivity.
Qed.

Lemma interview_GET_list_witness :
  exists l,
    InterviewRoute.GET (Some "alice") JUndefined Sample.world1
    = (Ok (json (JArr l) 200), Sample.world1) /\
    map (fun v => get v "id") l = [Some (JStr "i1")] /\
    (forall v, In v l -> get v "userId" = Some (JStr "alice")) /\
    map (fun v => get v "_count") l = [Some (JObj [("questions", JNum 1)])].
Proof.
  apply (interview_GET_list Sample.world1 "alice" JUndefined); [discriminate|reflexivity].
Defined.

(** ** The questions route *)

Lemma in_find_question s q : In q (questions s) -> find_question s (q_id q) <> None.
Proof.
  intros Hin E. unfold find_question in E. eapply find_none in E; [|exact Hin].
  unfold id_is in E. now rewrite String.eqb_refl in E.
Qed.

Lemma in_find_interview s i : In i (interviews s) -> find_interview s (iv_id i) <> None.
Proof.
  intros Hin E. unfold find_interview in E. eapply find_none in E; [|exact Hin].
  unfold id_is in E. now rewrite String.eqb_refl in E.
Qed.

(** X11. When the question has reached [MAX_FOLLOWUP_QUESTIONS]
    follow-ups, the POST of the questions route answers 400 "Maximum number
    of follow-up questions reached"; nothing is written and the model is
    not called. *)
Theorem questions_POST_at_cap gemini (w : World) (u iid qid : Id)
    (fields : list (string * JsVal)) (q : HRQuestion) :
  u <> "" -> qid <> "" ->
  lookup "questionId" fields = JStr qid ->
  truthy (lookup "userAnswer" fields) = true ->
  find_question_in (store w) qid iid = Some q ->
  (QuestionsRoute.MAX_FOLLOWUP_QUESTIONS
   <= List.length (followUps_of (store w) (q_id q)))%nat ->
  exists b,
    QuestionsRoute.POST gemini (Some u) (JStr iid) (Some (JObj fields)) w
    = (Ok (json b 400), w) /\
    get b "error" = Some (JStr "Maximum number of follow-up questions reached").
Proof.
  intros Hu Hqid Hf1 Hf2 Hq Hcap.
  destruct u as [|c u']; [congruence|]. destruct qid as [|c' qid']; [congruence|].
  apply (wp_elim _ _ (fun x => exists b, x = (Ok (json b 400), w) /\ _)).
  unfold QuestionsRoute.POST. wp_run. rewrite Hf1. wp_run. rewrite Hf2. wp_run.
  rewrite Hq. apply Nat.leb_le in Hcap. rewrite Hcap. wp_run.
  eexists. split; reflexivity.
Qed.

Lemma questions_POST_at_cap_witness :
  exists b,
    QuestionsRoute.POST Sample.model_up (Some "alice") (JStr "i1")
      (Some (JObj [("questionId", JStr "q1"); ("userAnswer", JStr "More")]))
      Sample.after_two_puts
    = (Ok (json b 400), Sample.after_two_puts) /\
    get b "error" = Some (JStr "Maximum number of follow-up questions reached").
Proof.
  apply (questions_POST_at_cap Sample.model_up Sample.after_two_puts "alice" "i1" "q1"
           [("questionId", JStr "q1"); ("userAnswer", JStr "More")] Sample.question1);
    first [discriminate | reflexivity | vm_compute; lia].
Defined.



(** X13. Asked to generate a follow-up, the GET of the questions route
    generates none when the question is at the cap, and answers 200 with
    the question as it is; below the cap it answers 400 when the question
    has no stored answer.  In both cases nothing is written and the model
    is not called. *)
Theorem questions_GET_generation_refused gemini (w : World) (u iid qid : Id)
    (i : HRInterview) (q : HRQuestion) :
  u <> "" -> qid <> "" ->
  find_interview (store w) iid = Some i ->
  find (fun x => String.eqb (q_id x) qid) (questions_of (store w) (iv_id i)) = Some q ->
  let followUpQuestions := followUps_of (store w) (q_id q) in
  let request := QuestionsRoute.GET gemini (Some u) (JStr iid) (JStr qid) (JStr "true") w in
  ((QuestionsRoute.MAX_FOLLOWUP_QUESTIONS <= List.length followUpQuestions)%nat ->
   request
   = (Ok (json (QuestionsRoute.success "question" (View.question_full (store w) q)) 200),
      w)) /\
  ((List.length followUpQuestions < QuestionsRoute.MAX_FOLLOWUP_QUESTIONS)%nat ->
   answer_of_question (store w) (q_id q) = None ->
   request
   = (Ok (json (error_body "Cannot generate follow-up without a user answer") 400), w)).
Proof.
  intros Hu Hqid Hi Hq. cbv zeta.
  destruct u as [|c u']; [congruence|]. destruct qid as [|c' qid']; [congruence|].
  split.
  - intros Hcap. apply (wp_elim _ _ (fun x => x = _)).
    unfold QuestionsRoute.GET. wp_run. rewrite Hi. wp_run.
    cbv zeta. cbn [strict_eq]. rewrite Hq.
    apply Nat.ltb_ge in Hcap. rewrite Hcap. wp_run. reflexivity.
  - intros Hcap Hnone. apply (wp_elim _ _ (fun x => x = _)).
    unfold QuestionsRoute.GET. wp_run. rewrite Hi. wp_run.
    cbv zeta. cbn [strict_eq]. rewrite Hq.
    apply Nat.ltb_lt in Hcap. rewrite Hcap, Hnone. wp_run. reflexivity.
Qed.

Lemma questions_GET_generation_refused_witness :
  QuestionsRoute.GET Sample.model_up (Some "alice") (JStr "i1") (JStr "q1") (JStr "true")
    Sample.world1
  = (Ok (json (error_body "Cannot generate follow-up without a user answer") 400),
     Sample.world1).
Proof.
  apply (proj2 (questions_GET_generation_refused Sample.model_up Sample.world1
                  "alice" "i1" "q1" Sample.interview1 Sample.question1
                  ltac:(discriminate) ltac:(discriminate) eq_refl eq_refl)).
  - vm_compute. lia.
  - reflexivity.
Defined.

(** X14. Below the cap and with a stored answer, the GET of the questions
    route asked to generate a follow-up calls the model once with the
    stored answer, adds the reply as a follow-up of the question and
    answers 200 with the question and its follow-ups, the new one last. *)
Theorem questions_GET_generates_from_stored_answer gemini (w : World) (u iid qid : Id)
    (i : HRInterview) (q : HRQuestion) (a : HRUserAnswer) (text : string) :
  u <> "" -> qid <> "" ->
  find_interview (store w) iid = Some i ->
  find (fun x => String.eqb (q_id x) qid) (questions_of (store w) (iv_id i)) = Some q ->
  (List.length (followUps_of (store w) (q_id q))
   < QuestionsRoute.MAX_FOLLOWUP_QUESTIONS)%nat ->
  answer_of_question (store w) (q_id q) = Some a ->
  gemini (List.length (calls w)) (ProbePrompt (q_text q) (JStr (a_userAnswer a)))
  = Some text ->
  let created := QuestionsRoute.generated_followUp q text (mk_id (nextId (store w))) in
  exists b w',
    QuestionsRoute.GET gemini (Some u) (JStr iid) (JStr qid) (JStr "true") w
    = (Ok (json (QuestionsRoute.success "question" b) 200), w') /\
    get b "followUpQuestions"
    = Some (View.followUps_json (followUps_of (store w) (q_id q) ++ [created])) /\
    followUps (store w') = (followUps (store w) ++ [created])%list /\
    calls w'
    = (calls w ++ [{| prompt := ProbePrompt (q_text q) (JStr (a_userAnswer a));
                      reply := Some text |}])%list.
Proof.
  intros Hu Hqid Hi Hq Hcap Ha Hg. cbv zeta.
  destruct u as [|c u']; [congruence|]. destruct qid as [|c' qid']; [congruence|].
  assert (Hin : In q (questions (store w))).
  { apply find_some in Hq as [Hin _]. unfold questions_of in Hin.
    now apply filter_In in Hin as [Hin _]. }
  apply (wp_elim _ _ (fun x => exists b w', x = (Ok _, w') /\ _)).
  unfold QuestionsRoute.GET. wp_run. rewrite Hi. wp_run.
  cbv zeta. cbn [strict_eq]. rewrite Hq.
  apply Nat.ltb_lt in Hcap. rewrite Hcap, Ha. wp_run.
  cbv zeta. rewrite Hg. wp_run.
  unfold create_followUp. cbn [f_mainQuestionId QuestionsRoute.generated_followUp].
  destruct (find_question (store w) (q_id q)) eqn:Efq;
    [|now apply in_find_question in Hin].
  wp_run. eexists _, _. split; [reflexivity|].
  cbn [store calls followUps with_followUps]. repeat split; reflexivity.
Qed.

Lemma questions_GET_generates_from_stored_answer_witness :
  exists b w',
    QuestionsRoute.GET Sample.model_up (Some "alice") (JStr "i1") (JStr "q1")
      (JStr "true") Sample.world2
    = (Ok (json (QuestionsRoute.success "question" b) 200), w') /\
    List.length (followUps (store w')) = 1%nat.
Proof.
  destruct (questions_GET_generates_from_stored_answer Sample.model_up Sample.world2
              "alice" "i1" "q1" Sample.interview1 Sample.question1 Sample.answer1
              "Can you give a concrete example?")
    as (b & w' & E & _ & Hf & _);
    [discriminate | discriminate | reflexivity | reflexivity | vm_compute; lia
    | reflexivity | reflexivity |].
  exists b, w'. split; [exact E|]. exact (f_equal (@List.length _) Hf).
Defined.

(** ** The answer route *)

Lemma in_find_answer s a : In a (answers s) -> find_answer s (a_id a) <> None.
Proof.
  intros Hin E. unfold find_answer in E. eapply find_none in E; [|exact Hin].
  unfold id_is in E. now rewrite String.eqb_refl in E.
Qed.

Lemma update_answer_ok s a f :
  In a (answers s) ->
  exists a0,
    find_answer s (a_id a) = Some a0 /\
    update_answer s (a_id a) f
    = Ok (f a0, with_answers s (replace_answer (a_id a) f (answers s)) (nextId s)).
Proof.
  intros Hin. unfold update_answer.
  destruct (find_answer s (a_id a)) as [a0|] eqn:E.
  - eauto.
  - now apply in_find_answer in Hin.
Qed.

Lemma find_followUp_id s fid f : find_followUp s fid = Some f -> f_id f = fid.
Proof.
  unfold find_followUp. intros H. apply find_some in H as [_ H].
  unfold id_is in H. now apply String.eqb_eq in H.
Qed.

Lemma answer_of_question_in s q a : answer_of_question s q = Some a -> In a (answers s).
Proof. unfold answer_of_question. intros H. now apply find_some in H. Qed.

Lemma create_answer_linked s row q :
  a_hrQuestionId (row (mk_id (nextId s))) = Some q ->
  find_question s q <> None ->
  relation_ok (find_followUp s) (a_hrFollowUpQuestionId (row (mk_id (nextId s)))) = true ->
  find_user s (a_userId (row (mk_id (nextId s)))) <> None ->
  answer_of_question s q = None ->
  create_answer s row
  = Ok (row (mk_id (nextId s)),
        with_answers s (answers s ++ [row (mk_id (nextId s))])%list (S (nextId s))).
Proof.
  intros Hq Hfq Hf Hu Hnone. unfold create_answer.
  rewrite Hq, Hf. cbn [relation_ok].
  destruct (find_question s q); [|congruence].
  destruct (find_user s _); [|congruence].
  cbn. now rewrite Hnone.
Qed.

Ltac finish_200 :=
  eexists _, _; split; [reflexivity|];
  cbn [status json body store answers with_followUps with_answers];
  repeat split; try reflexivity.

(** The writes of the answer handlers touch the answer table alone. *)
Ltac answers_only :=
  repeat match goal with
         | E : create_answer _ _ = Ok _ |- _ =>
             apply create_answer_store in E as (? & ? & ->)
         | E : update_answer _ _ _ = Ok _ |- _ =>
             apply update_answer_store in E as (? & ? & ->)
         | E : upsert_answer _ _ _ _ = Ok _ |- _ =>
             unfold upsert_answer in E;
             match type of E with
             | match ?x with _ => _ end = _ => destruct x
             end
         end.

Ltac no_new_calls :=
  first [ exists []; split; [cbn [snd calls]; now rewrite ?app_nil_r|reflexivity]
        | eexists; split; [cbn [snd calls]; reflexivity|reflexivity] ].

(** X15. A signed-in, known user who answers a main question that has no
    answer yet gets 200 from [processMainQuestion], whether the scoring call
    succeeded or not: one answer row is added, for that question and user,
    with the submitted text, no video URL and the analysis parsed from the
    reply of the model, and the response carries that row and that
    analysis. *)
Theorem first_main_answer_is_saved gemini (w : World) (u qid answer : string)
    (fields : list (string * JsVal)) (q : HRQuestion) :
  u <> "" -> qid <> "" -> answer <> "" ->
  lookup "hrQuestionId" fields = JStr qid ->
  lookup "userAnswer" fields = JStr answer ->
  find_question (store w) qid = Some q ->
  find_user (store w) u <> None ->
  answer_of_question (store w) qid = None ->
  let analysis := main_analysis gemini w q (JStr answer) in
  let saved :=
    AnswerRoute.submitted (Some qid) None u answer None analysis
      (mk_id (nextId (store w))) in
  exists r w',
    AnswerRoute.processMainQuestion gemini (Some u) (Some (JObj fields)) w = (Ok r, w') /\
    status r = 200 /\
    get (body r) "hrUserAnswer" = Some (View.answer_json saved) /\
    get (body r) "analysis" = Some (View.analysis_json analysis) /\
    answers (store w') = (answers (store w) ++ [saved])%list.
Proof.
  intros Hu Hqid Hans Hf1 Hf2 Hq Huser Hnone. cbv zeta. unfold main_analysis.
  destruct u as [|c1 u']; [congruence|].
  destruct qid as [|c2 qid']; [congruence|].
  destruct answer as [|c3 answer']; [congruence|].
  pose proof (find_question_id _ _ _ Hq) as Hid.
  apply (wp_elim _ _ (fun x => exists r w', x = (Ok r, w') /\ _)).
  unfold AnswerRoute.processMainQuestion.
  wp_run. rewrite Hf1, Hf2. wp_run. rewrite Hq. wp_run.
  unfold AnswerRoute.analyzeAnswer. wp_run. cbv zeta.
  destruct (gemini _ _) as [text|]; wp_run;
    rewrite (first_answer_none _ _ _ Hnone); wp_run;
    (erewrite create_answer_ok;
       [| reflexivity | reflexivity | cbn; congruence | cbn; exact Huser | exact Hnone]);
    wp_run.
  all: destruct (followUps_of (store w) (q_id q)) as [|first rest]; wp_run;
    try finish_200.
  all: unfold AnswerRoute.generateFollowUpQuestion; wp_run; cbv zeta;
    destruct (gemini _ _) as [ftext|]; wp_run; try finish_200.
  all: destruct (Text.is_empty ftext); wp_run; try finish_200.
  all: unfold create_followUp; cbn [f_mainQuestionId AnswerRoute.scored_followUp];
    change (find_question (with_answers ?s _ _) ?i) with (find_question s i);
    rewrite Hid, Hq; wp_run; finish_200.
Qed.

Lemma first_main_answer_is_saved_witness :
  exists r w',
    AnswerRoute.processMainQuestion Sample.model_up (Some "alice")
      (Some (JObj (Scenario.answer_fields "hrQuestionId" "q1" "We talked.")))
      Sample.world1
    = (Ok r, w') /\
    status r = 200 /\
    map a_score (answers (store w')) = [Some 7].
Proof.
  destruct (first_main_answer_is_saved Sample.model_up Sample.world1
              "alice" "q1" "We talked."
              (Scenario.answer_fields "hrQuestionId" "q1" "We talked.") Sample.question1)
    as (r & w' & E & Hs & _ & _ & Ha);
    [discriminate | discriminate | discriminate | reflexivity | reflexivity
    | reflexivity | vm_compute; discriminate | reflexivity |].
  exists r, w'. split; [exact E|]. split; [exact Hs|].
  rewrite Ha. vm_compute. reflexivity.
Defined.

(** X16. When the same user answers the main question again,
    [processMainQuestion] answers 200 and writes the new text, video URL
    and analysis over the existing answer, in place: no answer is added
    and no other answer changes. *)
Theorem main_answer_is_updated_in_place gemini (w : World) (u qid answer : string)
    (fields : list (string * JsVal)) (q : HRQuestion) (existing : HRUserAnswer)
    (url : option string) :
  u <> "" -> qid <> "" -> answer <> "" ->
  lookup "hrQuestionId" fields = JStr qid ->
  lookup "userAnswer" fields = JStr answer ->
  as_opt_string (coalesce (lookup "videoUrl" fields) JNull) = Some url ->
  find_question (store w) qid = Some q ->
  first_answer_of_question_by (store w) qid u = Some existing ->
  let analysis := main_analysis gemini w q (JStr answer) in
  exists r w',
    AnswerRoute.processMainQuestion gemini (Some u) (Some (JObj fields)) w = (Ok r, w') /\
    status r = 200 /\
    get (body r) "analysis" = Some (View.analysis_json analysis) /\
    answers (store w')
    = replace_answer (a_id existing) (AnswerRoute.resubmitted answer url analysis)
        (answers (store w)).
Proof.
  intros Hu Hqid Hans Hf1 Hf2 Hf3 Hq Hex. cbv zeta. unfold main_analysis.
  destruct u as [|c1 u']; [congruence|].
  destruct qid as [|c2 qid']; [congruence|].
  destruct answer as [|c3 answer']; [congruence|].
  pose proof (find_question_id _ _ _ Hq) as Hid.
  assert (Hin : In existing (answers (store w))).
  { unfold first_answer_of_question_by in Hex. now apply find_some in Hex. }
  apply (wp_elim _ _ (fun x => exists r w', x = (Ok r, w') /\ _)).
  unfold AnswerRoute.processMainQuestion.
  wp_run. rewrite Hf1, Hf2. wp_run. rewrite Hq. wp_run.
  unfold AnswerRoute.analyzeAnswer. wp_run. cbv zeta.
  destruct (gemini _ _) as [text|]; wp_run; rewrite Hex; wp_run; rewrite Hf3; wp_run.
  all: match goal with
       | |- context [update_answer ?s (a_id ?e) ?f] =>
           destruct (update_answer_ok s e f Hin) as (a0 & _ & ->)
       end; wp_run.
  all: destruct (followUps_of (store w) (q_id q)) as [|first rest]; wp_run;
    try finish_200.
  all: unfold AnswerRoute.generateFollowUpQuestion; wp_run; cbv zeta;
    destruct (gemini _ _) as [ftext|]; wp_run; try finish_200.
  all: destruct (Text.is_empty ftext); wp_run; try finish_200.
  all: unfold create_followUp; cbn [f_mainQuestionId AnswerRoute.scored_followUp];
    change (find_question (with_answers ?s _ _) ?i) with (find_question s i);
    rewrite Hid, Hq; wp_run; finish_200.
Qed.

Lemma main_answer_is_updated_in_place_witness :
  exists r w',
    AnswerRoute.processMainQuestion Sample.model_up (Some "alice")
      (Some (JObj (Scenario.answer_fields "hrQuestionId" "q1" "On second thought.")))
      Sample.world2
    = (Ok r, w') /\
    status r = 200 /\
    map (fun a => (a_id a, a_userAnswer a)) (answers (store w'))
    = [("a1", "On second thought.")].
Proof.
  destruct (main_answer_is_updated_in_place Sample.model_up Sample.world2
              "alice" "q1" "On second thought."
              (Scenario.answer_fields "hrQuestionId" "q1" "On second thought.")
              Sample.question1 Sample.answer1 None)
    as (r & w' & E & Hs & _ & Ha);
    [discriminate | discriminate | discriminate | reflexivity | reflexivity
    | reflexivity | reflexivity | reflexivity |].
  exists r, w'. split; [exact E|]. split; [exact Hs|].
  rewrite Ha. vm_compute. reflexivity.
Defined.

(** X17. When the main question already has a follow-up,
    [processMainQuestion] creates none and makes no follow-up call to the
    model, whatever the request; a 200 response offers the first existing
    follow-up as [nextQuestion]. *)
Theorem main_answer_reuses_followUp gemini session (w : World) (qid : Id)
    (fields : list (string * JsVal)) (q : HRQuestion)
    (first : HRFollowUpQuestion) (rest : list HRFollowUpQuestion) :
  lookup "hrQuestionId" fields = JStr qid ->
  find_question (store w) qid = Some q ->
  followUps_of (store w) (q_id q) = first :: rest ->
  let out := AnswerRoute.processMainQuestion gemini session (Some (JObj fields)) w in
  followUps (store (snd out)) = followUps (store w) /\
  (exists new, calls (snd out) = (calls w ++ new)%list /\
               count_kind FollowUp new = 0%nat) /\
  (forall r, fst out = Ok r -> status r = 200 ->
     get (body r) "nextQuestion" = Some (View.followUp_json first [])).
Proof.
  intros Hf1 Hq Hfu. cbv zeta.
  apply (wp_elim _ _ (fun x =>
    followUps (store (snd x)) = followUps (store w) /\
    (exists new, calls (snd x) = (calls w ++ new)%list /\ count_kind FollowUp new = 0%nat) /\
    (forall r, fst x = Ok r -> status r = 200 ->
       get (body r) "nextQuestion" = Some (View.followUp_json first [])))).
  unfold AnswerRoute.processMainQuestion.
  wp_explore_with ltac:(first [ progress rewrite ?Hf1, ?Hq, ?Hfu
                              | progress cbn [as_string arg_id of_option] ]).
  all: answers_only.
  all: cbn [fst snd store calls followUps with_answers].
  all: (split; [reflexivity|split; [no_new_calls|]]).
  all: intros r [= <-]; cbn [status json body]; intros; try discriminate; try reflexivity.
Qed.

Lemma main_answer_reuses_followUp_witness :
  followUps
    (store (snd (AnswerRoute.processMainQuestion Sample.model_up (Some "alice")
                   (Some (JObj (Scenario.answer_fields "hrQuestionId" "q1" "Again.")))
                   Sample.after_one_put)))
  = followUps (store Sample.after_one_put).
Proof.
  apply (proj1 (main_answer_reuses_followUp Sample.model_up (Some "alice")
                  Sample.after_one_put "q1"
                  (Scenario.answer_fields "hrQuestionId" "q1" "Again.")
                  Sample.question1 Scenario.followUp1 []
                  eq_refl eq_refl eq_refl)).
Defined.

(** X18. A PUT that names a follow-up question never creates a follow-up
    and never asks the model for one, whatever else the request holds. *)
Theorem followUp_answer_creates_no_followUp gemini session (w : World)
    (fields : list (string * JsVal)) :
  truthy (lookup "followUpQuestionId" fields) = true ->
  let out := AnswerRoute.processFollowUpQuestion gemini session (Some (JObj fields)) w in
  followUps (store (snd out)) = followUps (store w) /\
  exists new, calls (snd out) = (calls w ++ new)%list /\
              count_kind FollowUp new = 0%nat.
Proof.
  intros Hf. cbv zeta.
  apply (wp_elim _ _ (fun x =>
    followUps (store (snd x)) = followUps (store w) /\
    (exists new, calls (snd x) = (calls w ++ new)%list /\ count_kind FollowUp new = 0%nat))).
  unfold AnswerRoute.processFollowUpQuestion.
  wp_explore_with ltac:(first [ progress rewrite ?Hf
                              | progress cbn [negb andb orb] ]).
  all: answers_only.
  all: cbn [fst snd store calls followUps with_answers].
  all: (split; [reflexivity|no_new_calls]).
Qed.

Lemma followUp_answer_creates_no_followUp_witness :
  followUps
    (store (snd (AnswerRoute.processFollowUpQuestion Sample.model_up (Some "alice")
                   (Some (JObj (Scenario.answer_fields "followUpQuestionId" "1" "Sure.")))
                   Sample.after_one_put)))
  = followUps (store Sample.after_one_put).
Proof.
  apply (proj1 (followUp_answer_creates_no_followUp Sample.model_up (Some "alice")
                  Sample.after_one_put
                  (Scenario.answer_fields "followUpQuestionId" "1" "Sure.") eq_refl)).
Defined.

(** X19. The answer handlers reject, for a signed-in caller and without
    touching the store or the model: with 400 a POST without [hrQuestionId]
    or without [userAnswer], and a PUT without [userAnswer] or with neither
    [followUpQuestionId] nor [hrQuestionId]; with 404 a POST for a main
    question that does not exist, a PUT for a follow-up that does not exist,
    and a PUT for a main question that does not exist. *)
Theorem answer_requests_rejected gemini (w : World) (u : Id)
    (fields : list (string * JsVal)) :
  u <> "" ->
  let hrQuestionId := lookup "hrQuestionId" fields in
  let followUpQuestionId := lookup "followUpQuestionId" fields in
  let userAnswer := lookup "userAnswer" fields in
  let POST := AnswerRoute.processMainQuestion gemini (Some u) (Some (JObj fields)) w in
  let PUT := AnswerRoute.processFollowUpQuestion gemini (Some u) (Some (JObj fields)) w in
  (truthy hrQuestionId = false \/ truthy userAnswer = false ->
   POST = (Ok (json (AnswerRoute.missing "hrQuestionId and userAnswer are required") 400),
           w)) /\
  (forall qid, hrQuestionId = JStr qid -> qid <> "" -> truthy userAnswer = true ->
     find_question (store w) qid = None ->
     POST = (Ok (json (error_body "Question not found") 404), w)) /\
  (truthy followUpQuestionId = false /\ truthy hrQuestionId = false
   \/ truthy userAnswer = false ->
   PUT = (Ok (json (AnswerRoute.missing
                      "Either followUpQuestionId or hrQuestionId, and userAnswer are required")
                   400), w)) /\
  (forall fid, followUpQuestionId = JStr fid -> fid <> "" -> truthy userAnswer = true ->
     find_followUp (store w) fid = None ->
     PUT = (Ok (json (error_body "Follow-up question not found or could not be created")
                     404), w)) /\
  (forall qid, truthy followUpQuestionId = false ->
     hrQuestionId = JStr qid -> qid <> "" -> truthy userAnswer = true ->
     find_question (store w) qid = None ->
     PUT = (Ok (json (error_body "Main question not found") 404), w)).
Proof.
  intros Hu. destruct u as [|c u']; [congruence|]. cbv zeta.
  split; [|split; [|split; [|split]]].
  - intros H. apply (wp_elim _ _ (fun x => x = _)).
    unfold AnswerRoute.processMainQuestion. wp_run.
    destruct H as [-> | ->]; cbn [negb orb]; rewrite ?orb_true_r; wp_run; reflexivity.
  - intros qid Hq Hne Ha Hnone. destruct qid as [|c' qid']; [congruence|].
    apply (wp_elim _ _ (fun x => x = _)).
    unfold AnswerRoute.processMainQuestion. wp_run. rewrite Hq, Ha. wp_run.
    rewrite Hnone. wp_run. reflexivity.
  - intros H. apply (wp_elim _ _ (fun x => x = _)).
    unfold AnswerRoute.processFollowUpQuestion. wp_run.
    destruct H as [[-> ->] | ->]; cbn [negb orb andb]; rewrite ?orb_true_r; wp_run;
      reflexivity.
  - intros fid Hf Hne Ha Hnone. destruct fid as [|c' fid']; [congruence|].
    apply (wp_elim _ _ (fun x => x = _)).
    unfold AnswerRoute.processFollowUpQuestion. wp_run. rewrite Hf, Ha. wp_run.
    rewrite Hnone. wp_run. reflexivity.
  - intros qid Hf Hq Hne Ha Hnone. destruct qid as [|c' qid']; [congruence|].
    apply (wp_elim _ _ (fun x => x = _)).
    unfold AnswerRoute.processFollowUpQuestion. wp_run. rewrite Hf, Hq, Ha. wp_run.
    rewrite Hnone. wp_run. reflexivity.
Qed.

Lemma answer_requests_rejected_witness :
  AnswerRoute.processMainQuestion Sample.model_up (Some "alice")
    (Some (JObj (Scenario.answer_fields "hrQuestionId" "q9" "We talked.")))
    Sample.world1
  = (Ok (json (error_body "Question not found") 404), Sample.world1).
Proof.
  apply (proj1 (proj2 (answer_requests_rejected Sample.model_up Sample.world1 "alice"
                         (Scenario.answer_fields "hrQuestionId" "q9" "We talked.")
                         ltac:(discriminate)))
           "q9" eq_refl ltac:(discriminate) eq_refl eq_refl).
Defined.

(** X20. A signed-in, known user who answers an existing follow-up gets 200
    from [processFollowUpQuestion], whether the scoring call succeeded or
    not, and the answer is stored under the main question of the follow-up:
    written over the answer the main question has, whoever gave it, or
    added as the main question's answer, linked to the follow-up, when it
    has none. *)
Theorem followUp_answer_goes_to_main_answer gemini (w : World) (u fid answer : string)
    (fields : list (string * JsVal)) (f : HRFollowUpQuestion) (q : HRQuestion)
    (url : option string) :
  u <> "" -> fid <> "" -> answer <> "" ->
  lookup "followUpQuestionId" fields = JStr fid ->
  lookup "userAnswer" fields = JStr answer ->
  as_opt_string (or_else (lookup "videoUrl" fields) JNull) = Some url ->
  find_followUp (store w) fid = Some f ->
  find_question (store w) (f_mainQuestionId f) = Some q ->
  find_user (store w) u <> None ->
  let analysis := followUp_analysis gemini w f q (JStr answer) in
  exists r w',
    AnswerRoute.processFollowUpQuestion gemini (Some u) (Some (JObj fields)) w
    = (Ok r, w') /\
    status r = 200 /\
    get (body r) "analysis" = Some (View.analysis_json analysis) /\
    answers (store w')
    = match answer_of_question (store w) (q_id q) with
      | Some main =>
          replace_answer (a_id main) (AnswerRoute.resubmitted answer url analysis)
            (answers (store w))
      | None =>
          (answers (store w)
           ++ [AnswerRoute.submitted (Some (q_id q)) (Some fid) u answer url analysis
                 (mk_id (nextId (store w)))])%list
      end.
Proof.
  intros Hu Hfid Hans Hf1 Hf2 Hf3 Hf Hq Huser. cbv zeta. unfold followUp_analysis.
  destruct u as [|c1 u']; [congruence|].
  destruct fid as [|c2 fid']; [congruence|].
  destruct answer as [|c3 answer']; [congruence|].
  pose proof (find_question_id _ _ _ Hq) as Hid.
  pose proof (find_followUp_id _ _ _ Hf) as Hfi.
  apply (wp_elim _ _ (fun x => exists r w', x = (Ok r, w') /\ _)).
  unfold AnswerRoute.processFollowUpQuestion.
  wp_run. rewrite Hf1, Hf2. wp_run. rewrite Hf. wp_run. rewrite Hq. wp_run.
  unfold AnswerRoute.analyzeAnswer. wp_run. cbv zeta.
  destruct (gemini _ _) as [text|]; wp_run; rewrite Hf3; wp_run.
  all: unfold upsert_answer;
    destruct (answer_of_question (store w) (q_id q)) as [main|] eqn:Emain.
  all: try (match goal with
            | |- context [update_answer ?s (a_id ?e) ?g] =>
                destruct (update_answer_ok s e g (answer_of_question_in _ _ _ Emain))
                  as (a0 & _ & ->)
            end; wp_run; finish_200).
  all: (erewrite create_answer_linked;
          [| reflexivity
           | rewrite Hid, Hq; discriminate
           | cbn; rewrite Hfi, Hf; reflexivity
           | cbn; exact Huser | exact Emain]);
    wp_run; rewrite Hfi; finish_200.
Qed.

Lemma followUp_answer_goes_to_main_answer_witness :
  exists r w',
    AnswerRoute.processFollowUpQuestion Sample.model_up (Some "bob")
      (Some (JObj (Scenario.answer_fields "followUpQuestionId" "1" "For example, last May.")))
      Sample.after_one_put
    = (Ok r, w') /\
    status r = 200 /\
    map (fun a => (a_id a, a_userId a, a_userAnswer a)) (answers (store w'))
    = [("2", "alice", "For example, last May.")].
Proof.
  destruct (followUp_answer_goes_to_main_answer Sample.model_up Sample.after_one_put
              "bob" "1" "For example, last May."
              (Scenario.answer_fields "followUpQuestionId" "1" "For example, last May.")
              Scenario.followUp1 Sample.question1 None)
    as (r & w' & E & Hs & _ & Ha);
    [discriminate | discriminate | discriminate | reflexivity | reflexivity
    | reflexivity | reflexivity | reflexivity | vm_compute; discriminate |].
  exists r, w'. split; [exact E|]. split; [exact Hs|].
  rewrite Ha. vm_compute. reflexivity.
Defined.

(** ** Interview creation *)

Lemma complete_no_missing fields :
  complete fields = true ->
  filter (falsy_at (JObj fields)) HrRoundRoute.requiredFields = [] /\
  HrRoundRoute.join_skills (lookup "skills" fields) = ret tt.
Proof.
  unfold complete. intros H. apply andb_true_iff in H as [H1 H2]. split.
  - rewrite forallb_forall in H1.
    assert (forall l, (forall x, In x l -> truthy (lookup x fields) = true) ->
                      filter (falsy_at (JObj fields)) l = []) as Hl.
    { induction l as [|x l IH]; cbn; [reflexivity|]. intros Hx.
      unfold falsy_at at 1. cbn [get]. rewrite (Hx x (or_introl eq_refl)). cbn. auto. }
    apply Hl, H1.
  - unfold HrRoundRoute.join_skills. destruct (lookup "skills" fields); try discriminate; reflexivity.
Qed.





Lemma wp_for_each_chain {A} (step : A -> World -> World -> Prop) items body
    (Q : Outcome unit -> World -> Prop) w :
  (forall x w1,
     wp (body x) (fun o w2 => match o with Ok _ => step x w1 w2 | Thrown _ => True end) w1) ->
  (forall w', chain step items w w' -> Q (Ok tt) w') ->
  (forall e w', Q (Thrown e) w') ->
  wp (for_each items body) Q w.
Proof.
  intros Hb. revert w Q. induction items as [|x items IH]; intros w Q Hok Hth;
    cbn [for_each].
  - apply wp_ret. apply Hok. reflexivity.
  - apply wp_bind. specialize (Hb x w). unfold wp in Hb |- *.
    destruct (body x w) as [[[]|e] w1]; cbn [fst snd] in *.
    + apply IH; [|exact Hth]. intros w' Hc. apply Hok. cbn. eauto.
    + apply Hth.
Qed.

Lemma as_string_some v s : as_string v = Some s -> v = JStr s.
Proof. destruct v; try discriminate. now intros [= ->]. Qed.


(** The row a successful create wrote. *)
Ltac inv_created E :=
  first [ unfold create_followUp in E; cbn [f_mainQuestionId] in E;
          destruct (find_question _ _) eqn:?; [|discriminate]; injection E as <- <-
        | unfold create_question in E; cbn [q_hrInterviewId] in E;
          destruct (find_interview _ _) eqn:?; [|discriminate]; injection E as <- <- ].

Lemma generated_followUp_spec mainQuestion question followUp w :
  wp (HrRoundRoute.create_generated_followUp mainQuestion question followUp)
     (fun o w' => match o with
                  | Ok _ => adds_followUp mainQuestion followUp w w'
                  | Thrown _ => True
                  end) w.
Proof.
  unfold HrRoundRoute.create_generated_followUp.
  wp_explore; try exact I.
  match goal with E : create_followUp _ _ = Ok _ |- _ => inv_created E end.
  match goal with
  | G : get followUp "text" = Some ?j, H : as_string ?j = Some _ |- _ =>
      apply as_string_some in H; subst j
  end.
  unfold adds_followUp. eexists. cbn [f_mainQuestionId f_text store calls].
  repeat split; try reflexivity. assumption.
Qed.

Lemma chain_followUps mainQuestion items w w' :
  chain (adds_followUp mainQuestion) items w w' ->
  exists rows,
    Forall (fun f => f_mainQuestionId f = q_id mainQuestion) rows /\
    List.length rows = List.length items /\
    users (store w') = users (store w) /\
    interviews (store w') = interviews (store w) /\
    questions (store w') = questions (store w) /\
    followUps (store w') = (followUps (store w) ++ rows)%list /\
    answers (store w') = answers (store w) /\
    calls w' = calls w.
Proof.
  revert w. induction items as [|x items IH]; cbn [chain]; intros w H.
  - subst w'. exists []. rewrite app_nil_r. repeat split. constructor.
  - destruct H as (w1 & (row & Hm & _ & Hs & Hc) & Hrest).
    destruct (IH _ Hrest) as (rows & Hall & Hlen & Hu & Hi & Hq & Hf & Ha & Hcs).
    exists (row :: rows). rewrite Hu, Hi, Hq, Hf, Ha, Hcs, Hs, Hc.
    cbn [users interviews questions followUps answers with_followUps List.length].
    rewrite <- app_assoc. repeat split; auto.
Qed.

Lemma generated_question_spec hrInterview question w :
  wp (HrRoundRoute.create_generated_question hrInterview question)
     (fun o w' => match o with
                  | Ok _ => adds_question hrInterview question w w'
                  | Thrown _ => True
                  end) w.
Proof.
  unfold HrRoundRoute.create_generated_question.
  wp_explore_with ltac:(
    idtac; lazymatch goal with
    | |- wp (for_each _ _) _ _ =>
        eapply wp_for_each_chain;
        [intros; apply generated_followUp_spec|intros ? Hchain|intros; exact I]
    end); try exact I.
  all: match goal with E : create_question _ _ = Ok _ |- _ => inv_created E end.
  all: match goal with
       | G : get _ "text" = Some ?j, H : as_string ?j = Some _ |- _ =>
           apply as_string_some in H; subst j
       end.
  all: unfold adds_question.
  - apply chain_followUps in Hchain
      as (rows & Hall & _ & Hu & Hi & Hq & Hf & Ha & Hc).
    eexists _, rows. rewrite Hu, Hi, Hq, Hf, Ha, Hc.
    cbn [q_hrInterviewId q_text q_id store calls users interviews questions followUps
         answers with_questions].
    repeat split; try reflexivity; assumption.
  - eexists _, []. rewrite app_nil_r.
    cbn [q_hrInterviewId q_text q_id store calls users interviews questions followUps
         answers with_questions].
    repeat split; try reflexivity; try assumption. constructor.
  - eexists _, []. rewrite app_nil_r.
    cbn [q_hrInterviewId q_text q_id store calls users interviews questions followUps
         answers with_questions].
    repeat split; try reflexivity; try assumption. constructor.
Qed.

Lemma chain_questions hrInterview items w w' :
  chain (adds_question hrInterview) items w w' ->
  exists rows fs,
    Forall (fun q => q_hrInterviewId q = iv_id hrInterview) rows /\
    map (fun q => Some (JStr (q_text q))) rows = map (fun item => get item "text") items /\
    Forall (fun f => exists q, In q rows /\ f_mainQuestionId f = q_id q) fs /\
    users (store w') = users (store w) /\
    interviews (store w') = interviews (store w) /\
    questions (store w') = (questions (store w) ++ rows)%list /\
    followUps (store w') = (followUps (store w) ++ fs)%list /\
    answers (store w') = answers (store w) /\
    calls w' = calls w.
Proof.
  revert w. induction items as [|x items IH]; cbn [chain]; intros w H.
  - subst w'. exists [], []. rewrite !app_nil_r. repeat split; constructor.
  - destruct H as (w1 & (row & fs1 & Hiv & Htext & Hall1 & Hu1 & Hi1 & Hq1 & Hf1 & Ha1 & Hc1)
                   & Hrest).
    destruct (IH _ Hrest) as (rows & fs & Hall & Htexts & Hatt & Hu & Hi & Hq & Hf & Ha & Hcs).
    exists (row :: rows), (fs1 ++ fs)%list.
    rewrite Hu, Hi, Hq, Hf, Ha, Hcs, Hu1, Hi1, Hq1, Hf1, Ha1, Hc1.
    rewrite <- !app_assoc. cbn [map app].
    repeat split; auto.
    + now rewrite Htext, Htexts.
    + apply Forall_app. split.
      * eapply Forall_impl; [|exact Hall1]. intros f Hf'. exists row. split; [now left|exact Hf'].
      * eapply Forall_impl; [|exact Hatt]. intros f (q & Hin & Hq'). exists q. split; [now right|exact Hq'].
Qed.

(** X22. What a creation request answered 201 has stored: the interview
    of the request, one main question per generated question, with its
    text, in the order of the reply and attached to that interview,
    follow-ups that each belong to one of these questions, and nothing
    else; users and answers are as before and the model was called
    once. *)
Theorem creation_201 gemini JSON_parse (w : World) (u : Id)
    (fields : list (string * JsVal)) (text block : string) (v parsedQuestions : JsVal)
    (items : list JsVal) :
  u <> "" ->
  complete fields = true ->
  gemini (List.length (calls w)) (QuestionsPrompt (JObj fields)) = Some text ->
  HrRoundRoute.json_block text = Some block ->
  JSON_parse block = Some v ->
  get v "questions" = Some parsedQuestions ->
  iterate parsedQuestions = Some items ->
  forall r w',
    HrRoundRoute.POST gemini JSON_parse (Some u) (Some (JObj fields)) w = (Ok r, w') ->
    status r = 201 ->
    exists created rows fs,
      requested_interview u fields (mk_id (nextId (store w))) = Some created /\
      users (store w') = users (store w) /\
      interviews (store w') = (interviews (store w) ++ [created])%list /\
      questions (store w') = (questions (store w) ++ rows)%list /\
      Forall (fun q => q_hrInterviewId q = iv_id created) rows /\
      map (fun q => Some (JStr (q_text q))) rows = map (fun item => get item "text") items /\
      followUps (store w') = (followUps (store w) ++ fs)%list /\
      Forall (fun f => exists q, In q rows /\ f_mainQuestionId f = q_id q) fs /\
      answers (store w') = answers (store w) /\
      calls w' = (calls w ++ [{| prompt := QuestionsPrompt (JObj fields);
                                 reply := Some text |}])%list.
Proof.
  intros Hu Hc Hg Hb Hp Hq Hit r w'.
  destruct u as [|c u']; [congruence|].
  apply (wp_elim _ _ (fun x => x = (Ok r, w') -> status r = 201 -> _)).
  destruct (complete_no_missing _ Hc) as [Hm Hj].
  unfold HrRoundRoute.POST. wp_run.
  destruct (find_user (store w) _) eqn:Euser; wp_run.
  2:{ intros [= <- <-]. discriminate. }
  apply wp_missing_fields; [reflexivity|]. rewrite Hm.
  cbn [List.length Nat.ltb Nat.leb]. wp_run.
  rewrite Hj. wp_run. cbv zeta. rewrite Hg. wp_run.
  unfold HrRoundRoute.extractJSON. rewrite Hb, Hp. wp_run. rewrite Hq. wp_run.
  destruct (truthy parsedQuestions) eqn:Et; wp_run.
  2:{ intros [= <- <-]. discriminate. }
  destruct (get parsedQuestions "length") as [len|] eqn:El; wp_run.
  2:{ intros [= <- <-]. discriminate. }
  destruct (strict_eq len (JNum 0)); wp_run.
  { intros [= <- <-]. discriminate. }
  destruct (as_string (lookup "jobPosition" fields)) as [jp|] eqn:E1; wp_run.
  2:{ intros [= <- <-]. discriminate. }
  destruct (as_string (lookup "jobDescription" fields)) as [jd|] eqn:E2; wp_run.
  2:{ intros [= <- <-]. discriminate. }
  destruct (as_strings (or_else (lookup "skills" fields) (JArr []))) as [sk|] eqn:E3;
    wp_run.
  2:{ intros [= <- <-]. discriminate. }
  destruct (as_string (lookup "difficultyLevel" fields)) as [dl|] eqn:E4; wp_run.
  2:{ intros [= <- <-]. discriminate. }
  destruct (as_opt_string (lookup "resumeUrl" fields)) as [ru|] eqn:E5; wp_run.
  2:{ intros [= <- <-]. discriminate. }
  unfold create_interview. wp_run. rewrite Hit. wp_run.
  eapply wp_for_each_chain.
  - intros. apply generated_question_spec.
  - intros w1 Hchain. wp_run. intros [= <- <-] _.
    apply chain_questions in Hchain
      as (rows & fs & Hall & Htexts & Hatt & Hu1 & Hi1 & Hq1 & Hf1 & Ha1 & Hc1).
    eexists _, rows, fs. split.
    { unfold requested_interview. rewrite E1, E2, E3, E4, E5. reflexivity. }
    rewrite Hu1, Hi1, Hq1, Hf1, Ha1, Hc1.
    cbn [store calls users interviews questions followUps answers with_interviews iv_id].
    repeat split; auto.
  - intros e w1. wp_run. intros [= <- <-]. discriminate.
Qed.

Lemma creation_201_witness :
  exists rows fs,
    questions (store (snd Sample.creation_by_alice))
    = (questions (store Sample.world1) ++ rows)%list /\
    map (fun q => Some (JStr (q_text q))) rows
    = [Some (JStr "Describe a project you led.")] /\
    followUps (store (snd Sample.creation_by_alice))
    = (followUps (store Sample.world1) ++ fs)%list.
Proof.
  destruct (creation_201 Sample.model_json Sample.parse_generated Sample.world1 "alice"
              Scenario.creation_fields "{ the questions, as JSON }"
              "{ the questions, as JSON }" Sample.generated_json
              (JArr Scenario.generated_items) Scenario.generated_items
              ltac:(discriminate) eq_refl eq_refl eq_refl eq_refl eq_refl eq_refl
              (match fst Sample.creation_by_alice with
               | Ok r => r
               | Thrown _ => json JNull 0
               end)
              (snd Sample.creation_by_alice)
              ltac:(vm_compute; reflexivity) ltac:(vm_compute; reflexivity))
    as (created & rows & fs & _ & _ & _ & Hq & _ & Ht & Hf & _).
  exists rows, fs. split; [exact Hq|]. split; [exact Ht|exact Hf].
Defined.



















(** ** Every handler *)

Lemma wp_any {A} (m : M A) (Q : Outcome A -> World -> Prop) w :
  (forall o w', Q o w') -> wp m Q w.
Proof. intros H. apply H. Qed.

(** The loops of the creation handler, whatever they do. *)
Ltac wp_skip_loops :=
  idtac;
  lazymatch goal with
  | |- wp (for_each ?i ?b) ?Q ?w => apply (wp_any (for_each i b) Q w); intros [[]|?] ?
  | |- wp (HrRoundRoute.missing_fields ?b ?f) ?Q ?w =>
      apply (wp_any (HrRoundRoute.missing_fields b f) Q w); intros [?|?] ?
  end.

Ltac is_responded :=
  eexists; split; [reflexivity|]; cbn [status json]; unfold statuses; cbn [In]; auto 10.

(** X25. No handler lets an exception escape: whatever the request, the
    session, the store and the replies of the model, every handler returns
    a response, and its status is one of 200, 201, 400, 401, 404 and
    500. *)
Theorem every_request_is_answered gemini JSON_parse session (r : App.Request) (w : World) :
  exists response,
    fst (App.handle gemini JSON_parse session r w) = Ok response /\
    In (status response) statuses.
Proof.
  change (responded (App.handle gemini JSON_parse session r w)).
  apply (wp_elim _ _ responded).
  destruct r; cbn [App.handle].
  - unfold InterviewRoute.GET. wp_explore; is_responded.
  - unfold InterviewRoute.DELETE. wp_explore; is_responded.
  - unfold InterviewRoute.POST. wp_explore; is_responded.
  - unfold InterviewRoute.PATCH. wp_explore; is_responded.
  - unfold AnswersRoute.GET. wp_explore; is_responded.
  - unfold QuestionsRoute.GET. wp_explore; is_responded.
  - unfold QuestionsRoute.POST. wp_explore; is_responded.
  - unfold HrRoundRoute.POST, HrRoundRoute.extractJSON.
    wp_explore_with wp_skip_loops; is_responded.
  - unfold HrRoundRoute.GET. wp_explore; is_responded.
  - unfold HrRoundRoute.POST_followUp. wp_explore; is_responded.
  - unfold HrRoundRoute.POST_answer. wp_explore; is_responded.
  - unfold HrRoundRoute.PATCH. wp_explore; is_responded.
  - unfold AnswerRoute.processMainQuestion. wp_explore; is_responded.
  - unfold AnswerRoute.processFollowUpQuestion. wp_explore; is_responded.
Qed.


(** ** The answers GET and the follow-up GET *)

Lemma find_filter {A} (p f : A -> bool) l :
  (forall x, p x = true -> f x = true) -> find p (filter f l) = find p l.
Proof.
  intros H. induction l as [|x l IH]; cbn; [reflexivity|].
  destruct (f x) eqn:Ef; cbn.
  - now rewrite IH.
  - destruct (p x) eqn:Ep; [apply H in Ep; congruence|exact IH].
Qed.

(** X26. The answers GET asks for no session.  Without an interview id it
    answers 400; with one it answers 200 with one entry per question of
    that interview, in order: the text of the question and the text of its
    answer, [null] when the question has no answer or an empty one.  An
    interview without questions, or an id of no interview, gives the empty
    list.  The store is left as it is. *)
Theorem answers_GET_lists_every_question (w : World) (interviewId : JsVal) :
  (truthy interviewId = false ->
   AnswersRoute.GET interviewId w
   = (Ok (json (error_body "Interview Id is required") 400), w)) /\
  (forall id, interviewId = JStr id -> id <> "" ->
     AnswersRoute.GET interviewId w
     = (Ok (json (JArr (map (fun q =>
                               JObj [ ("text", JStr (q_text q));
                                      ("userAnswer",
                                       shown_answer
                                         (answer_of_question (store w) (q_id q))) ])
                            (questions_of (store w) id))) 200), w)).
Proof.
  split.
  - intros H. apply (wp_elim _ _ (fun x => x = _)). unfold AnswersRoute.GET.
    rewrite H. wp_run. reflexivity.
  - intros id -> Hid. destruct id as [|c id']; [congruence|].
    apply (wp_elim _ _ (fun x => x = _)). unfold AnswersRoute.GET. wp_run.
    do 4 f_equal. apply map_ext_in. intros q Hq. do 3 f_equal.
    unfold answers_in. rewrite find_filter.
    + fold (answer_of_question (store w) (q_id q)).
      destruct (answer_of_question (store w) (q_id q)) as [a|]; cbn; [|reflexivity].
      unfold or_else. cbn [truthy]. now destruct (Text.is_empty (a_userAnswer a)).
    + intros a Ha. apply existsb_exists. exists (q_id q). split; [|exact Ha].
      apply in_map. exact Hq.
Qed.

Lemma answers_GET_lists_every_question_witness :
  AnswersRoute.GET (JStr "i1") Sample.world2
  = (Ok (json (JArr [JObj [ ("text", JStr "Tell me about a conflict in your team.");
                            ("userAnswer", JStr "We talked it through.") ]]) 200),
     Sample.world2).
Proof.
  apply (proj2 (answers_GET_lists_every_question Sample.world2 (JStr "i1")) "i1" eq_refl).
  discriminate.
Defined.

(** X27. The follow-up GET, for a signed-in caller.  Asked for a follow-up
    of an interview of the caller it answers 200 with the follow-up and the
    answers linked to it; asked for the follow-ups of a main question of an
    interview of the caller it answers 200 with all of them, in order.  A
    follow-up that does not exist gives 404, and a request that names
    neither a follow-up nor a main question gives 400.  The store is left
    as it is in every case. *)
Theorem followUp_GET_for_the_owner (w : World) (u : Id) :
  u <> "" ->
  (forall followupId mainQuestionId f q i,
     followupId <> "" ->
     find_followUp (store w) followupId = Some f ->
     find_question (store w) (f_mainQuestionId f) = Some q ->
     find_interview (store w) (q_hrInterviewId q) = Some i ->
     iv_userId i = u ->
     exists b,
       HrRoundRoute.GET (Some u) (JStr followupId) mainQuestionId w
       = (Ok (json b 200), w) /\
       get b "id" = Some (JStr followupId) /\
       get b "text" = Some (JStr (f_text f)) /\
       get b "HRUserAnswer"
       = Some (JArr (map View.answer_json (answers_of_followUp (store w) followupId)))) /\
  (forall followupId mainQuestionId q i,
     truthy followupId = false ->
     mainQuestionId <> "" ->
     find_question (store w) mainQuestionId = Some q ->
     find_interview (store w) (q_hrInterviewId q) = Some i ->
     iv_userId i = u ->
     exists l,
       HrRoundRoute.GET (Some u) followupId (JStr mainQuestionId) w
       = (Ok (json (JArr l) 200), w) /\
       map (fun b => get b "id") l
       = map (fun f => Some (JStr (f_id f))) (followUps_of (store w) mainQuestionId)) /\
  (forall followupId mainQuestionId,
     followupId <> "" -> find_followUp (store w) followupId = None ->
     HrRoundRoute.GET (Some u) (JStr followupId) mainQuestionId w
     = (Ok (json (error_body "Follow-up question not found") 404), w)) /\
  (forall followupId mainQuestionId,
     truthy followupId = false -> truthy mainQuestionId = false ->
     HrRoundRoute.GET (Some u) followupId mainQuestionId w
     = (Ok (json (error_body "Main question ID is required") 400), w)).
Proof.
  intros Hu. destruct u as [|c u']; [congruence|].
  split; [|split; [|split]].
  - intros fid m f q i Hfid Hf Hq Hi Hown. destruct fid as [|c' fid']; [congruence|].
    pose proof (find_followUp_id _ _ _ Hf) as Hfi.
    apply (wp_elim _ _ (fun x => exists b, x = (Ok (json b 200), w) /\ _)).
    unfold HrRoundRoute.GET. wp_run.
    rewrite Hf. unfold HrRoundRoute.owner_of_followUp. wp_run. rewrite Hq. wp_run.
    unfold HrRoundRoute.owner_of_question. wp_run. rewrite Hi. wp_run.
    rewrite Hown, String.eqb_refl. wp_run.
    eexists. split; [reflexivity|]. cbn. unfold HrRoundRoute.followUp_answers.
    rewrite Hfi. repeat split; reflexivity.
  - intros fparam qid q i Hfp Hqid Hq Hi Hown. destruct qid as [|c' qid']; [congruence|].
    apply (wp_elim _ _ (fun x => exists l, x = (Ok (json (JArr l) 200), w) /\ _)).
    unfold HrRoundRoute.GET. wp_run. rewrite Hfp. wp_run. rewrite Hq.
    unfold HrRoundRoute.owner_of_question. wp_run. rewrite Hi. wp_run.
    rewrite Hown, String.eqb_refl. wp_run.
    eexists. split; [reflexivity|]. rewrite map_map. apply map_ext. reflexivity.
  - intros fid m Hfid Hnone. destruct fid as [|c' fid']; [congruence|].
    apply (wp_elim _ _ (fun x => x = _)). unfold HrRoundRoute.GET. wp_run.
    rewrite Hnone. wp_run. reflexivity.
  - intros fparam m Hf Hm.
    apply (wp_elim _ _ (fun x => x = _)). unfold HrRoundRoute.GET. wp_run.
    rewrite Hf. wp_run. rewrite Hm. wp_run. reflexivity.
Qed.

Lemma followUp_GET_for_the_owner_witness :
  exists l,
    HrRoundRoute.GET (Some "alice") JUndefined (JStr "q1") Sample.after_two_puts
    = (Ok (json (JArr l) 200), Sample.after_two_puts) /\
    map (fun b => get b "id") l = [Some (JStr "1"); Some (JStr "3")].
Proof.
  apply (proj1 (proj2 (followUp_GET_for_the_owner Sample.after_two_puts "alice"
                         ltac:(discriminate)))
           JUndefined "q1" Sample.question1 Sample.interview1
           eq_refl ltac:(discriminate) eq_refl eq_refl eq_refl).
Defined.

(** ** The interview page *)

(** X28. Once the page is in follow-up mode, submitting an answer never
    takes it out: whatever the answer, the session, the store and the
    replies of the model, after [handleSubmitAnswer] the page is still in
    follow-up mode, on the same follow-up of the same question, and the
    interview is no more complete than before.  The PUT answers with the
    follow-up it was sent, which the page takes for the next question. *)
Theorem followUp_mode_is_never_left gemini JSON_parse session (st : Page.PageState)
    (userAnswer : string) (videoUrl : JsVal) (w : World) :
  Page.isFollowUp st = true ->
  stays_on_followUp st
    (fst (Page.handleSubmitAnswer gemini JSON_parse session st userAnswer videoUrl w)).
Proof.
  intros Hf. unfold Page.handleSubmitAnswer. rewrite Hf.
  assert (Hst : stays_on_followUp st st) by (unfold stays_on_followUp; auto).
  destruct (Text.is_empty (Text.trim userAnswer)); [exact Hst|].
  destruct (truthy (Page.followUpQuestion st)) eqn:Et; cbn [negb]; [|exact Hst].
  cbn [App.handle].
  pose (stays := fun x : Outcome Response * World =>
                   match fst x with
                   | Ok r => stays_on_followUp st (Page.after_response st r)
                   | Thrown _ => True
                   end).
  assert (H : stays (AnswerRoute.processFollowUpQuestion gemini session
                (Some (JObj [ ("followUpQuestionId",
                               Page.field (Page.followUpQuestion st) "id");
                              ("userAnswer", JStr userAnswer);
                              ("videoUrl", videoUrl) ])) w)).
  2:{ unfold stays in H.
      destruct (AnswerRoute.processFollowUpQuestion _ _ _ _) as [[r|e] w'];
        cbn [fst] in *; auto. }
  apply (wp_elim _ _ stays).
  unfold AnswerRoute.processFollowUpQuestion.
  wp_explore_with ltac:(progress cbn [lookup String.eqb Ascii.eqb Bool.eqb]).
  all: unfold stays; cbn [fst]; try exact I.
  all: unfold Page.after_response;
    cbn [Page.ok status json Z.leb Z.compare Pos.compare Pos.compare_cont andb negb body];
    auto.
  all: unfold stays_on_followUp; cbn; rewrite ?Hf; auto.
  all: repeat split;
    match goal with
    | Hs : as_string (Page.field _ "id") = Some ?s, Hh : find_followUp _ ?s = Some _ |- _ =>
        apply as_string_some in Hs; apply find_followUp_id in Hh; rewrite Hh;
        unfold Page.field in Hs; destruct (get _ "id"); [now subst|discriminate]
    end.
Qed.

Lemma followUp_mode_is_never_left_witness :
  stays_on_followUp Scenario.page_on_followUp
    (fst (Page.handleSubmitAnswer Sample.model_up Sample.no_JSON (Some "alice")
            Scenario.page_on_followUp "For example, last May." JNull
            Sample.after_one_put)).
Proof.
  apply (followUp_mode_is_never_left Sample.model_up Sample.no_JSON (Some "alice")
           Scenario.page_on_followUp "For example, last May." JNull Sample.after_one_put).
  reflexivity.
Defined.

(** X29. On a main question, the page goes to the next question or
    finishes the interview only after the model was asked for a follow-up
    and gave none: the call failed, or its reply was empty.  In particular
    it never moves on from a request that was rejected, nor while the
    question has a follow-up to offer. *)
Theorem page_moves_on_only_without_followUp gemini JSON_parse session
    (st : Page.PageState) (userAnswer : string) (videoUrl : JsVal) (w : World) :
  Page.isFollowUp st = false ->
  let after := Page.handleSubmitAnswer gemini JSON_parse session st userAnswer videoUrl w in
  moved st (fst after) ->
  exists new, calls (snd after) = (calls w ++ new)%list /\
              exists c, In c new /\ gave_no_followUp c.
Proof.
  intros Hf. cbv zeta. unfold Page.handleSubmitAnswer. rewrite Hf.
  assert (Hstill : moved st st -> False) by (intros [H|H]; congruence).
  destruct (Text.is_empty (Text.trim userAnswer));
    [cbn; intros H; now apply Hstill in H|].
  destruct (truthy (Page.currentQuestion st)) eqn:Et; cbn [negb];
    [|cbn; intros H; now apply Hstill in H].
  cbn [App.handle].
  pose (only_without := fun x : Outcome Response * World =>
          match fst x with
          | Ok r =>
              moved st (Page.after_response st r) ->
              exists new, calls (snd x) = (calls w ++ new)%list /\
                          exists c, In c new /\ gave_no_followUp c
          | Thrown _ => True
          end).
  assert (H : only_without
                (AnswerRoute.processMainQuestion gemini session
                   (Some (JObj [ ("hrQuestionId", Page.field (Page.currentQuestion st) "id");
                                 ("userAnswer", JStr userAnswer);
                                 ("videoUrl", videoUrl) ])) w)).
  2:{ unfold only_without in H.
      destruct (AnswerRoute.processMainQuestion _ _ _ _) as [[r|e] w'];
        cbn [fst snd] in *; [exact H|intros H'; now apply Hstill in H']. }
  apply (wp_elim _ _ only_without).
  unfold AnswerRoute.processMainQuestion.
  wp_explore_with ltac:(progress cbn [lookup String.eqb Ascii.eqb Bool.eqb]).
  all: unfold only_without; cbn [fst snd]; try exact I.
  all: unfold Page.after_response;
    cbn [Page.ok status json Z.leb Z.compare Pos.compare Pos.compare_cont andb negb body].
  all: try (intros H; now apply Hstill in H).
  all: cbn [get lookup String.eqb Ascii.eqb Bool.eqb View.analysis_json Page.field truthy
            orb View.followUp_json app].
  all: try (intros H; destruct H as [H|H]; cbn in H; congruence).
  all: intros _; eexists; (split; [cbn [calls]; rewrite <- ?app_assoc; reflexivity|]).
  all: eexists; (split; [apply in_or_app; right; left; reflexivity|]).
  all: split; [reflexivity|]; cbn [reply].
  all: try (left; reflexivity).
  all: right; match goal with
              | H : Text.is_empty ?s = true |- _ => destruct s; [reflexivity|discriminate]
              end.
Qed.

Lemma page_moves_on_only_without_followUp_witness :
  exists new,
    calls (snd (Page.handleSubmitAnswer Sample.model_down Sample.no_JSON (Some "alice")
                  Scenario.page_on_question "We talked." JNull Sample.world1))
    = (calls Sample.world1 ++ new)%list /\
    exists c, In c new /\ gave_no_followUp c.
Proof.
  apply (page_moves_on_only_without_followUp Sample.model_down Sample.no_JSON
           (Some "alice") Scenario.page_on_question "We talked." JNull Sample.world1).
  - reflexivity.
  - right. vm_compute. discriminate.
Defined.
